(** * The observer core of Vue 2: observe, defineReactive, set, del, Dep and
      the intercepted array methods.

    The embedding follows three source modules that the tree ships in one
    file: observer/index.js (Observer, observe, defineReactive, set, del,
    dependArray), observer/dep.js (Dep, pushTarget, popTarget) and
    observer/array.js (arrayMethods). With them come some of their callers:
    Vue.observable (global-api/index.js), handleError (util/error.js),
    getData (instance/state.js) and initInjections (instance/inject.js), and
    from the same file as the observer, matches of components/keep-alive.js.

    JavaScript objects live in a heap indexed by locations; the engine's own
    instances (Observer, Dep, watchers, the closures of reactive accessors)
    live in stores of their own, so that aliasing is by identifier as it is
    by reference in the source. Functions are state transformers that may
    return, raise a JavaScript exception, or run out of recursion fuel. *)

From Stdlib Require Import ZArith.
From stdpp Require Import gmap strings list sorting pretty.

Local Open Scope Z_scope.
Local Open Scope nat_scope.
Local Open Scope string_scope.
Local Open Scope list_scope.

(** ** Values *)

Abbreviation loc := nat (only parsing).
Abbreviation obid := nat (only parsing).
Abbreviation depid := nat (only parsing).
Abbreviation wid := nat (only parsing).
Abbreviation cid := nat (only parsing).
Abbreviation cell := nat (only parsing).

Set Warnings "-register-all".

(** The seven entries of [methodsToPatch]. *)
Inductive method := Push | Pop | Shift | Unshift | Splice | Sort | Reverse.

(** JavaScript values. Numbers are the integers and NaN. An Observer
    instance carries its identity and its two fields that are never
    reassigned, [value] and [dep]; its [vmCount] is mutable and lives in the
    state. [VMutator m] is the function [arrayMethods[m]]. *)
Inductive val :=
| VUndef
| VNull
| VBool (b : bool)
| VNum (z : Z)
| VNaN
| VStr (s : string)
| VRef (l : loc)
| VObserver (o : obid) (value : loc) (dep : depid)
| VMutator (m : method).

(** Accessor functions. A native accessor reads or writes a backing cell
    (the usual [get () { return this._x }] pair). A reactive accessor is the
    closure built by one call of [defineReactive]: [k] names its mutable
    variables [val] and [childOb] in the closure store, the other components
    are the constants it captured. *)
Inductive getter_fn :=
| GNative (c : cell)
| GReactive (k : cid) (obj : loc) (dep : depid) (getter : option getter_fn).

Inductive setter_fn :=
| SNative (c : cell)
| SReactive (k : cid) (obj : loc) (dep : depid)
    (getter : option getter_fn) (setter : option setter_fn)
    (customSetter : option nat) (shallow : bool).

(** Property descriptors. *)
Inductive prop :=
| PData (v : val) (enumerable writable configurable : bool)
| PAccessor (get : option getter_fn) (set : option setter_fn)
    (enumerable configurable : bool).

(** What [Object.prototype.toString], [Array.isArray] and
    [instanceof VNode] tell about an object. [KPlain] is every object whose
    tag is [object Object] and that is not a VNode (object literals, and
    instances of user classes such as a Vue instance). *)
Inductive kind := KPlain | KArray | KVNode | KOther.

(** A heap object: named own properties in creation order, the indexed
    elements of an array, whether it is extensible, and whether its
    [__proto__] was set to [arrayMethods]. *)
Record obj := Obj {
  o_kind : kind;
  o_extensible : bool;
  o_props : list (string * prop);
  o_elems : list val;
  o_augmented : bool
}.

(** Events recorded for the claims: the log is instrumentation, no function
    of the source reads it. *)
Inductive event :=
| EvNotify (d : depid)
| EvUpdate (w : wid)
| EvWarn (msg : string)
| EvCustomSetter (n : nat).

Record state := State {
  heap : gmap nat obj;
  cells : gmap nat val;
  clos : gmap nat (val * val);     (* closure k: (val, childOb) *)
  subs : gmap nat (list nat);      (* Dep id: its subs array *)
  vmCount : gmap nat nat;          (* Observer: vmCount *)
  uid : nat;                       (* dep.js: let uid = 0 *)
  next_ob : nat;
  next_cid : nat;
  target : option nat;             (* Dep.target *)
  shouldObserve : bool;
  log : list event
}.

(** The host and the build: configuration read by the source, the parts of
    the JavaScript library it calls, and the watchers' [update]. *)
Record host := Host {
  production : bool;               (* process.env.NODE_ENV === 'production' *)
  config_async : bool;             (* config.async *)
  isServerRendering : bool;
  hasProto : bool;
  in_Object_prototype : string -> bool;
  in_Array_prototype : string -> bool;
  native_sort : list val -> list val -> list val;
  update : wid -> state -> state
}.

Inductive outcome (A : Type) :=
| Ret (a : A) (st : state)
| Raise (e : string) (st : state)
| OutOfFuel.
Arguments Ret {A} a st.
Arguments Raise {A} e st.
Arguments OutOfFuel {A}.

Definition M (A : Type) : Type := state -> outcome A.

Definition ret {A} (a : A) : M A := fun st => Ret a st.
Definition throw {A} (e : string) : M A := fun st => Raise e st.
Definition bind {A B} (m : M A) (f : A -> M B) : M B :=
  fun st => match m st with
            | Ret a st' => f a st'
            | Raise e st' => Raise e st'
            | OutOfFuel => OutOfFuel
            end.

Notation "x <- m ;; k" := (bind m (fun x => k))
  (at level 100, m at next level, right associativity).
Notation "m ;;; k" := (bind m (fun _ => k))
  (at level 100, right associativity).

Definition gets {A} (f : state -> A) : M A := fun st => Ret (f st) st.
Definition modify (f : state -> state) : M unit := fun st => Ret tt (f st).
Definition when (b : bool) (m : M unit) : M unit := if b then m else ret tt.

(** Field updates. *)
Definition with_heap (h : gmap nat obj) (st : state) : state :=
  State h (cells st) (clos st) (subs st) (vmCount st) (uid st) (next_ob st)
        (next_cid st) (target st) (shouldObserve st) (log st).
Definition with_cells (c : gmap nat val) (st : state) : state :=
  State (heap st) c (clos st) (subs st) (vmCount st) (uid st) (next_ob st)
        (next_cid st) (target st) (shouldObserve st) (log st).
Definition with_clos (c : gmap nat (val * val)) (st : state) : state :=
  State (heap st) (cells st) c (subs st) (vmCount st) (uid st) (next_ob st)
        (next_cid st) (target st) (shouldObserve st) (log st).
Definition with_subs (s : gmap nat (list nat)) (st : state) : state :=
  State (heap st) (cells st) (clos st) s (vmCount st) (uid st) (next_ob st)
        (next_cid st) (target st) (shouldObserve st) (log st).
Definition with_vmCount (v : gmap nat nat) (st : state) : state :=
  State (heap st) (cells st) (clos st) (subs st) v (uid st) (next_ob st)
        (next_cid st) (target st) (shouldObserve st) (log st).
Definition with_uid (n : nat) (st : state) : state :=
  State (heap st) (cells st) (clos st) (subs st) (vmCount st) n (next_ob st)
        (next_cid st) (target st) (shouldObserve st) (log st).
Definition with_next_ob (n : nat) (st : state) : state :=
  State (heap st) (cells st) (clos st) (subs st) (vmCount st) (uid st) n
        (next_cid st) (target st) (shouldObserve st) (log st).
Definition with_next_cid (n : nat) (st : state) : state :=
  State (heap st) (cells st) (clos st) (subs st) (vmCount st) (uid st)
        (next_ob st) n (target st) (shouldObserve st) (log st).
Definition with_target (t : option nat) (st : state) : state :=
  State (heap st) (cells st) (clos st) (subs st) (vmCount st) (uid st)
        (next_ob st) (next_cid st) t (shouldObserve st) (log st).
Definition with_shouldObserve (b : bool) (st : state) : state :=
  State (heap st) (cells st) (clos st) (subs st) (vmCount st) (uid st)
        (next_ob st) (next_cid st) (target st) b (log st).
Definition with_log (l : list event) (st : state) : state :=
  State (heap st) (cells st) (clos st) (subs st) (vmCount st) (uid st)
        (next_ob st) (next_cid st) (target st) (shouldObserve st) l.

Definition emit (e : event) : M unit :=
  modify (fun st => with_log (log st ++ [e]) st).

(** ** Primitive tests on values *)

(** [a === b]. *)
Definition strict_eq (a b : val) : bool :=
  match a, b with
  | VUndef, VUndef => true
  | VNull, VNull => true
  | VBool x, VBool y => Bool.eqb x y
  | VNum x, VNum y => Z.eqb x y
  | VStr x, VStr y => String.eqb x y
  | VRef x, VRef y => Nat.eqb x y
  | VObserver x _ _, VObserver y _ _ => Nat.eqb x y
  | VMutator x, VMutator y =>
      match x, y with
      | Push, Push | Pop, Pop | Shift, Shift | Unshift, Unshift
      | Splice, Splice | Sort, Sort | Reverse, Reverse => true
      | _, _ => false
      end
  | _, _ => false
  end.

Definition truthy (v : val) : bool :=
  match v with
  | VUndef | VNull | VNaN => false
  | VBool b => b
  | VNum z => negb (Z.eqb z 0)
  | VStr s => negb (String.eqb s "")
  | VRef _ | VObserver _ _ _ | VMutator _ => true
  end.

(** Modelled from the spec: [isObject] is imported from util, which is not
    part of this tree. [observe] returns a wrapper "if value is an
    object/sequence" and nothing "for primitives": [obj !== null && typeof
    obj === 'object']. *)
Definition isObject (v : val) : bool :=
  match v with
  | VRef _ | VObserver _ _ _ => true
  | _ => false
  end.

(** Modelled from the spec: [isUndef] and [isPrimitive] are imported from
    util, which is not part of this tree; they guard the diagnostic for
    "writing/deleting on a primitive". [isUndef (v)] is [v === undefined ||
    v === null]; [isPrimitive] holds of strings, numbers and booleans. *)
Definition isUndef (v : val) : bool :=
  match v with VUndef | VNull => true | _ => false end.

Definition isPrimitive (v : val) : bool :=
  match v with
  | VBool _ | VNum _ | VNaN | VStr _ => true
  | _ => false
  end.

(** ** Own properties *)

Fixpoint lookup_prop (ps : list (string * prop)) (key : string) : option prop :=
  match ps with
  | [] => None
  | (k, p) :: ps' => if String.eqb k key then Some p else lookup_prop ps' key
  end.

(** Replace in place, or append: a new key comes last in the key order. *)
Fixpoint store_prop (ps : list (string * prop)) (key : string) (p : prop)
  : list (string * prop) :=
  match ps with
  | [] => [(key, p)]
  | (k, q) :: ps' =>
      if String.eqb k key then (k, p) :: ps' else (k, q) :: store_prop ps' key p
  end.

Fixpoint remove_prop (ps : list (string * prop)) (key : string)
  : list (string * prop) :=
  match ps with
  | [] => []
  | (k, q) :: ps' =>
      if String.eqb k key then remove_prop ps' key
      else (k, q) :: remove_prop ps' key
  end.

Definition prop_enumerable (p : prop) : bool :=
  match p with PData _ e _ _ => e | PAccessor _ _ e _ => e end.
Definition prop_configurable (p : prop) : bool :=
  match p with PData _ _ _ c => c | PAccessor _ _ _ c => c end.
Definition prop_get (p : prop) : option getter_fn :=
  match p with PData _ _ _ _ => None | PAccessor g _ _ _ => g end.
Definition prop_set (p : prop) : option setter_fn :=
  match p with PData _ _ _ _ => None | PAccessor _ s _ _ => s end.

(** [Object.keys]: the names whose own property is enumerable, in order. *)
Definition enumerable_at (ps : list (string * prop)) (key : string) : bool :=
  match lookup_prop ps key with
  | Some p => prop_enumerable p
  | None => false
  end.

Definition object_keys (o : obj) : list string :=
  filter (fun key => enumerable_at (o_props o) key = true) (map fst (o_props o)).

Definition with_props (ps : list (string * prop)) (o : obj) : obj :=
  Obj (o_kind o) (o_extensible o) ps (o_elems o) (o_augmented o).
Definition with_elems (es : list val) (o : obj) : obj :=
  Obj (o_kind o) (o_extensible o) (o_props o) es (o_augmented o).
Definition with_augmented (b : bool) (o : obj) : obj :=
  Obj (o_kind o) (o_extensible o) (o_props o) (o_elems o) b.

Definition get_own (l : loc) (key : string) (st : state) : option prop :=
  match heap st !! l with
  | Some o => lookup_prop (o_props o) key
  | None => None
  end.

Definition kind_of (v : val) (st : state) : option kind :=
  match v with
  | VRef l => o_kind <$> heap st !! l
  | _ => None
  end.

Definition isArray (v : val) (st : state) : bool :=
  match kind_of v st with Some KArray => true | _ => false end.

(** Modelled from the spec: [isPlainObject] is imported from util, which is
    not part of this tree. The spec lets [observe] wrap "an object/sequence"
    that "is not itself excluded (e.g., marked as internal framework
    state)": plain means a heap object tagged [object Object]; the engine's
    own Observer instances are not plain data. *)
Definition isPlainObject (v : val) (st : state) : bool :=
  match kind_of v st with Some KPlain => true | _ => false end.

Definition isVNode (v : val) (st : state) : bool :=
  match kind_of v st with Some KVNode => true | _ => false end.

Definition isExtensible (v : val) (st : state) : bool :=
  match v with
  | VRef l => match heap st !! l with Some o => o_extensible o | None => false end
  | _ => true
  end.

(** Modelled from the spec: [hasOwn] is imported from util, which is not
    part of this tree: the key is "an own, non-inherited property"
    ([Object.prototype.hasOwnProperty]), for a named key. *)
Definition hasOwn (v : val) (key : string) (st : state) : bool :=
  match v with
  | VRef l => match get_own l key st with Some _ => true | None => false end
  | _ => false
  end.

(** [Object.defineProperty (obj, key, p)] with a complete descriptor [p]
    that asks for [configurable: true], which is how the source calls it: an
    existing non-configurable property, or a new key on a non-extensible
    object, is a TypeError. *)
Definition defineProperty (l : loc) (key : string) (p : prop) : M unit :=
  fun st =>
    match heap st !! l with
    | None => Raise "TypeError: Object.defineProperty called on non-object" st
    | Some o =>
        match lookup_prop (o_props o) key with
        | Some q =>
            if prop_configurable q
            then Ret tt (with_heap (<[l := with_props (store_prop (o_props o) key p) o]> (heap st)) st)
            else Raise "TypeError: Cannot redefine property" st
        | None =>
            if o_extensible o
            then Ret tt (with_heap (<[l := with_props (store_prop (o_props o) key p) o]> (heap st)) st)
            else Raise "TypeError: Cannot define property, object is not extensible" st
        end
    end.

(** Modelled from the spec: [def] is imported from util, which is not part
    of this tree. It attaches "a hidden, non-enumerable back-reference": a
    data property that is writable and configurable, and enumerable only
    when asked, which the source never does. *)
Definition def (l : loc) (key : string) (v : val) : M unit :=
  defineProperty l key (PData v false true true).

(** ** dep.js *)

Section Observer.

Variable H : host.

(** [new Dep ()]: [this.id = uid++; this.subs = []]. A Dep is its id. *)
Definition new_Dep : M depid :=
  fun st => Ret (uid st) (with_subs (<[uid st := []]> (subs st)) (with_uid (S (uid st)) st)).

Definition subs_of (d : depid) (st : state) : list nat :=
  default [] (subs st !! d).

(** [addSub (sub) { this.subs.push(sub) }] *)
Definition addSub (d : depid) (w : wid) : M unit :=
  modify (fun st => with_subs (<[d := subs_of d st ++ [w]]> (subs st)) st).

(** Modelled from the spec: [remove] is imported from util, which is not
    part of this tree; it takes one subscriber out of the ordered
    subscriber list: the first occurrence of [item]. *)
Fixpoint remove (arr : list nat) (item : nat) : list nat :=
  match arr with
  | [] => []
  | x :: arr' => if Nat.eqb x item then arr' else x :: remove arr' item
  end.

(** [removeSub (sub) { remove(this.subs, sub) }] *)
Definition removeSub (d : depid) (w : wid) : M unit :=
  modify (fun st => with_subs (<[d := remove (subs_of d st) w]> (subs st)) st).

(** Modelled from the spec: [Watcher.addDep] is in watcher.js, which is not
    part of this tree. A Dependency "holds an ordered set of subscribed
    Computations, unique by identity": the watcher is added to the subs of
    the dep unless it is subscribed already. *)
Definition addDep (w : wid) (d : depid) : M unit :=
  fun st =>
    if bool_decide (w ∈ subs_of d st) then Ret tt st else addSub d w st.

(** [depend () { if (Dep.target) { Dep.target.addDep(this) } }] *)
Definition depend (d : depid) : M unit :=
  fun st =>
    match target st with
    | Some w => addDep w d st
    | None => Ret tt st
    end.

(** [subs[i].update()]: the watcher's own work is the host's; the call is
    recorded in the log afterwards, whatever the watcher did. *)
Definition call_update (w : wid) : M unit :=
  fun st => Ret tt (with_log (log st ++ [EvUpdate w]) (update H w st)).

Fixpoint update_all (ws : list nat) : M unit :=
  match ws with
  | [] => ret tt
  | w :: ws' => call_update w ;;; update_all ws'
  end.

(** [notify ()]: the loop runs over the copy [this.subs.slice()], sorted by
    watcher id in a development build with [config.async] off. *)
Definition notify (d : depid) : M unit :=
  emit (EvNotify d) ;;;
  snapshot <- gets (subs_of d) ;;
  let snapshot :=
    if negb (production H) && negb (config_async H)
    then merge_sort Nat.le snapshot else snapshot in
  update_all snapshot.

(** ** Reading properties *)

Definition closure_val (k : cid) (st : state) : val :=
  match clos st !! k with Some (v, _) => v | None => VUndef end.
Definition closure_childOb (k : cid) (st : state) : val :=
  match clos st !! k with Some (_, c) => c | None => VUndef end.

Section Getters.

(** [dependArray], as the getters below see it. *)
Variable dependArray_rec : loc -> M unit.

(** Calling a getter. [reactiveGetter] is lines 572 to 591. *)
Fixpoint call_getter (g : getter_fn) : M val :=
  match g with
  | GNative c => gets (fun st => default VUndef (cells st !! c))
  | GReactive k obj dep getter =>
      value <- match getter with
               | Some g' => call_getter g'
               | None => gets (closure_val k)
               end ;;
      tgt <- gets target ;;
      match tgt with
      | Some _ =>
          depend dep ;;;
          childOb <- gets (closure_childOb k) ;;
          (if truthy childOb then
             match childOb with
             | VObserver _ _ cdep =>
                 depend cdep ;;;
                 isArr <- gets (isArray value) ;;
                 match value with
                 | VRef l => when isArr (dependArray_rec l)
                 | _ => ret tt
                 end
             | _ => throw "TypeError: childOb.dep is undefined"
             end
           else ret tt) ;;;
          ret value
      | None => ret value
      end
  end.

(** [obj[key]] for a named key of a heap object. Inherited properties are
    not modelled: a name that is not an own property reads as undefined. *)
Definition get_prop (l : loc) (key : string) : M val :=
  p <- gets (get_own l key) ;;
  match p with
  | Some (PData v _ _ _) => ret v
  | Some (PAccessor (Some g) _ _ _) => call_getter g
  | Some (PAccessor None _ _ _) => ret VUndef
  | None => ret VUndef
  end.

(** [v[key]] for any value: only heap objects have own properties. *)
Definition get_member (v : val) (key : string) : M val :=
  match v with
  | VRef l => get_prop l key
  | VUndef | VNull => throw "TypeError: Cannot read properties of undefined or null"
  | _ => ret VUndef
  end.

(** One turn of the loop of [dependArray]:
    [e && e.__ob__ && e.__ob__.dep.depend(); if (Array.isArray(e)) dependArray(e)]. *)
Definition dependArray_elem (e : val) : M unit :=
  (if truthy e then
     ob <- get_member e "__ob__" ;;
     if truthy ob then
       ob' <- get_member e "__ob__" ;;
       match ob' with
       | VObserver _ _ d => depend d
       | VUndef | VNull => throw "TypeError: Cannot read properties of undefined or null"
       | _ => throw "TypeError: e.__ob__.dep is undefined"
       end
     else ret tt
   else ret tt) ;;;
  isArr <- gets (isArray e) ;;
  match e with
  | VRef l => when isArr (dependArray_rec l)
  | _ => ret tt
  end.

(** The loop [for (let e, i = 0, l = value.length; i < l; i++)]: the length
    is read once, the element on every turn. *)
Fixpoint dependArray_loop (value : loc) (i : nat) (n : nat) : M unit :=
  match n with
  | 0 => ret tt
  | S n' =>
      e <- gets (fun st => match heap st !! value with
                           | Some o => default VUndef (o_elems o !! i)
                           | None => VUndef
                           end) ;;
      dependArray_elem e ;;;
      dependArray_loop value (S i) n'
  end.

Definition dependArray_body (value : loc) : M unit :=
  len <- gets (fun st => match heap st !! value with
                         | Some o => length (o_elems o)
                         | None => 0
                         end) ;;
  dependArray_loop value 0 len.

End Getters.

(** [dependArray] recurses into nested arrays; [fuel] bounds the nesting. *)
Fixpoint dependArray (fuel : nat) (value : loc) : M unit :=
  match fuel with
  | 0 => fun _ => OutOfFuel
  | S n => dependArray_body (dependArray n) value
  end.

(** ** observer/index.js *)

(** [export function toggleObserving (value) { shouldObserve = value }] *)
Definition toggleObserving (value : bool) : M unit :=
  modify (with_shouldObserve value).

Definition method_name (m : method) : string :=
  match m with
  | Push => "push" | Pop => "pop" | Shift => "shift" | Unshift => "unshift"
  | Splice => "splice" | Sort => "sort" | Reverse => "reverse"
  end.

Definition methodsToPatch : list method :=
  [Push; Pop; Shift; Unshift; Splice; Sort; Reverse].

(** [const arrayKeys = Object.getOwnPropertyNames(arrayMethods)] *)
Definition arrayKeys : list method := methodsToPatch.

(** [protoAugment (target, src) { target.__proto__ = src }] *)
Definition protoAugment (target : loc) : M unit :=
  fun st =>
    match heap st !! target with
    | Some o => Ret tt (with_heap (<[target := with_augmented true o]> (heap st)) st)
    | None => Ret tt st
    end.

(** [copyAugment]: [def(target, key, src[key])] for every key. *)
Fixpoint copyAugment (target : loc) (keys : list method) : M unit :=
  match keys with
  | [] => ret tt
  | key :: keys' =>
      def target (method_name key) (VMutator key) ;;;
      copyAugment target keys'
  end.

(** The closure variables [val] and [childOb] of one [defineReactive]. *)
Definition alloc_closure (v childOb : val) : M cid :=
  fun st => Ret (next_cid st)
                (with_clos (<[next_cid st := (v, childOb)]> (clos st))
                           (with_next_cid (S (next_cid st)) st)).

Definition set_closure_val (k : cid) (v : val) : M unit :=
  modify (fun st => with_clos (<[k := (v, closure_childOb k st)]> (clos st)) st).
Definition set_closure_childOb (k : cid) (c : val) : M unit :=
  modify (fun st => with_clos (<[k := (closure_val k st, c)]> (clos st)) st).

Section ObserverBody.

(** The recursive calls, at one step less of fuel. *)
Variable dependArray_rec : loc -> M unit.
Variable observe_rec : val -> M val.

(** [defineReactive (obj, key, val, customSetter, shallow)]. [val = None]
    is the call with two arguments ([arguments.length === 2]). The accessor
    pair installed by [Object.defineProperty] is the pair of closures over
    [k]; their bodies are [call_getter] and [call_setter]. *)
Definition defineReactive_body (obj : loc) (key : string) (val : option val)
    (customSetter : option nat) (shallow : bool) : M unit :=
  dep <- new_Dep ;;
  property <- gets (get_own obj key) ;;
  if match property with
     | Some p => negb (prop_configurable p)
     | None => false
     end
  then ret tt
  else
    let getter := match property with Some p => prop_get p | None => None end in
    let setter := match property with Some p => prop_set p | None => None end in
    v <- (if (negb (bool_decide (is_Some getter)) || bool_decide (is_Some setter))
             && bool_decide (val = None)
          then get_prop dependArray_rec obj key
          else ret (default VUndef val)) ;;
    childOb <- (if shallow then ret (VBool false) else observe_rec v) ;;
    k <- alloc_closure v childOb ;;
    defineProperty obj key
      (PAccessor (Some (GReactive k obj dep getter))
                 (Some (SReactive k obj dep getter setter customSetter shallow))
                 true true).

(** [walk (obj)]: [defineReactive(obj, keys[i])] over [Object.keys(obj)]. *)
Fixpoint walk_keys (obj : loc) (keys : list string) : M unit :=
  match keys with
  | [] => ret tt
  | key :: keys' =>
      defineReactive_body obj key None None false ;;;
      walk_keys obj keys'
  end.

Definition walk_body (obj : loc) : M unit :=
  keys <- gets (fun st => match heap st !! obj with
                          | Some o => object_keys o
                          | None => []
                          end) ;;
  walk_keys obj keys.

(** [observeArray (items)]: [observe(items[i])] for every index. No step of
    [observe] writes an element of an array ([observe_elems] below), so the
    loop runs over the elements as they are on entry. *)
Fixpoint observeArray_body (items : list val) : M unit :=
  match items with
  | [] => ret tt
  | item :: items' => observe_rec item ;;; observeArray_body items'
  end.

(** [new Observer (value)] *)
Definition new_Observer_body (value : loc) : M val :=
  dep <- new_Dep ;;
  o <- (fun st => Ret (next_ob st)
                      (with_vmCount (<[next_ob st := 0]> (vmCount st))
                                    (with_next_ob (S (next_ob st)) st))) ;;
  let this := VObserver o value dep in
  def value "__ob__" this ;;;
  isArr <- gets (isArray (VRef value)) ;;
  (if isArr then
     (if hasProto H then protoAugment value else copyAugment value arrayKeys) ;;;
     items <- gets (fun st => match heap st !! value with
                              | Some o => o_elems o
                              | None => []
                              end) ;;
     observeArray_body items
   else walk_body value) ;;;
  ret this.

(** [observe (value, asRootData)] *)
Definition observe_body (value : val) (asRootData : bool) : M val :=
  isV <- gets (isVNode value) ;;
  if negb (isObject value) || isV then ret VUndef
  else
    own <- gets (hasOwn value "__ob__") ;;
    found <- (if own then get_member dependArray_rec value "__ob__" else ret VUndef) ;;
    ob <- match found with
          | VObserver _ _ _ => get_member dependArray_rec value "__ob__"
          | _ =>
              so <- gets shouldObserve ;;
              isArr <- gets (isArray value) ;;
              isPlain <- gets (isPlainObject value) ;;
              isExt <- gets (isExtensible value) ;;
              if so && negb (isServerRendering H) && (isArr || isPlain) && isExt
              then
                isVue <- get_member dependArray_rec value "_isVue" ;;
                if truthy isVue then ret VUndef
                else match value with
                     | VRef l => new_Observer_body l
                     | _ => ret VUndef
                     end
              else ret VUndef
          end ;;
    (if asRootData && truthy ob
     then match ob with
          | VObserver o _ _ =>
              modify (fun st => with_vmCount
                                  (<[o := S (default 0 (vmCount st !! o))]> (vmCount st)) st)
          | _ => ret tt
          end
     else ret tt) ;;;
    ret ob.

End ObserverBody.

(** [fuel] bounds the nesting of [observe] in itself (through
    [new Observer], [walk] and [defineReactive], or [observeArray]). *)
Fixpoint observe (fuel : nat) (value : val) (asRootData : bool) : M val :=
  match fuel with
  | 0 => fun _ => OutOfFuel
  | S n => observe_body (dependArray n) (fun v => observe n v false) value asRootData
  end.

Definition defineReactive (fuel : nat) :=
  defineReactive_body (dependArray fuel) (fun v => observe fuel v false).
Definition observeArray (fuel : nat) :=
  observeArray_body (fun v => observe fuel v false).
Definition walk (fuel : nat) :=
  walk_body (dependArray fuel) (fun v => observe fuel v false).
Definition new_Observer (fuel : nat) :=
  new_Observer_body (dependArray fuel) (fun v => observe fuel v false).

(** ** Writing properties *)

(** Calling a setter. [reactiveSetter] is lines 593 to 619. *)
Fixpoint call_setter (fuel : nat) (s : setter_fn) (newVal : val) : M unit :=
  match s with
  | SNative c => modify (fun st => with_cells (<[c := newVal]> (cells st)) st)
  | SReactive k obj dep getter setter customSetter shallow =>
      value <- match getter with
               | Some g => call_getter (dependArray fuel) g
               | None => gets (closure_val k)
               end ;;
      if strict_eq newVal value
         || (negb (strict_eq newVal newVal) && negb (strict_eq value value))
      then ret tt
      else
        match customSetter with
        | Some n => when (negb (production H)) (emit (EvCustomSetter n))
        | None => ret tt
        end ;;;
        match getter, setter with
        | Some _, None => ret tt
        | _, _ =>
            match setter with
            | Some s' => call_setter fuel s' newVal
            | None => set_closure_val k newVal
            end ;;;
            childOb <- (if shallow then ret (VBool false)
                        else observe fuel newVal false) ;;
            set_closure_childOb k childOb ;;;
            notify dep
        end
  end.

(** [target.length = n] on an array. *)
Definition resize (n : nat) (es : list val) : list val :=
  take n es ++ replicate (n - length es) VUndef.

(** [obj[key] = v] in strict code, for a named key of a heap object: a
    read-only property, an accessor without setter and a new key on a
    non-extensible object are TypeErrors. *)
Definition put_prop (fuel : nat) (l : loc) (key : string) (v : val) : M unit :=
  fun st =>
    match heap st !! l with
    | None => Raise "TypeError: Cannot set properties of a missing object" st
    | Some o =>
        match o_kind o, String.eqb key "length" with
        | KArray, true =>
            match v with
            | VNum z =>
                if Z.leb 0 z
                then Ret tt (with_heap (<[l := with_elems (resize (Z.to_nat z) (o_elems o)) o]> (heap st)) st)
                else Raise "RangeError: Invalid array length" st
            | _ => Raise "RangeError: Invalid array length" st
            end
        | _, _ =>
            match lookup_prop (o_props o) key with
            | Some (PData _ e w c) =>
                if w
                then Ret tt (with_heap (<[l := with_props (store_prop (o_props o) key (PData v e w c)) o]> (heap st)) st)
                else Raise "TypeError: Cannot assign to read only property" st
            | Some (PAccessor _ (Some s) _ _) => call_setter fuel s v st
            | Some (PAccessor _ None _ _) =>
                Raise "TypeError: Cannot set property which has only a getter" st
            | None =>
                if o_extensible o
                then Ret tt (with_heap (<[l := with_props (store_prop (o_props o) key (PData v true true true)) o]> (heap st)) st)
                else Raise "TypeError: Cannot add property, object is not extensible" st
            end
        end
    end.

(** [delete obj[key]] in strict code. *)
Definition delete_prop (l : loc) (key : string) : M unit :=
  fun st =>
    match heap st !! l with
    | None => Ret tt st
    | Some o =>
        match lookup_prop (o_props o) key with
        | Some p =>
            if prop_configurable p
            then Ret tt (with_heap (<[l := with_props (remove_prop (o_props o) key) o]> (heap st)) st)
            else Raise "TypeError: Cannot delete property" st
        | None => Ret tt st
        end
    end.

(** [key in obj]: an own property, or one found on the prototypes the host
    provides. *)
Definition has_property (l : loc) (key : string) (st : state) : bool :=
  match heap st !! l with
  | None => false
  | Some o =>
      bool_decide (is_Some (lookup_prop (o_props o) key))
      || match o_kind o with
         | KArray =>
             String.eqb key "length"
             || (o_augmented o && existsb (fun m => String.eqb key (method_name m)) methodsToPatch)
             || in_Array_prototype H key
         | _ => false
         end
      || in_Object_prototype H key
  end.

(** ** observer/array.js *)

(** ToIntegerOrInfinity on the arguments of [splice]; a numeric string is
    passed as its number in this model. *)
Definition to_integer (v : val) : Z :=
  match v with
  | VNum z => z
  | VBool true => 1%Z
  | _ => 0%Z
  end.

(** [Array.prototype.splice] on the elements: the new elements and the
    removed ones. *)
Definition array_splice (es : list val) (args : list val) : list val * list val :=
  let len := Z.of_nat (length es) in
  match args with
  | [] => (es, [])
  | start :: rest =>
      let rs := to_integer start in
      let actualStart := if Z.ltb rs 0 then Z.max (len + rs) 0 else Z.min rs len in
      let count := match rest with
                   | [] => (len - actualStart)%Z
                   | dc :: _ => Z.min (Z.max (to_integer dc) 0) (len - actualStart)
                   end in
      let items := tail rest in
      let a := Z.to_nat actualStart in
      let d := Z.to_nat count in
      (take a es ++ items ++ drop (a + d) es, take d (drop a es))
  end.

Definition fresh_loc (st : state) : loc := fresh (dom (heap st)).

(** [original.apply(this, args)] with [original = arrayProto[method]]. The
    methods are generic: they work on the indexed elements of [this]. *)
Definition original (m : method) (this : loc) (args : list val) : M val :=
  fun st =>
    match heap st !! this with
    | None => Raise "TypeError: Array.prototype method called on a missing object" st
    | Some o =>
        let es := o_elems o in
        let put es' := with_heap (<[this := with_elems es' o]> (heap st)) st in
        match m with
        | Push =>
            Ret (VNum (Z.of_nat (length (es ++ args)))) (put (es ++ args))
        | Unshift =>
            Ret (VNum (Z.of_nat (length (args ++ es)))) (put (args ++ es))
        | Pop =>
            Ret (default VUndef (last es)) (put (removelast es))
        | Shift =>
            Ret (default VUndef (head es)) (put (tail es))
        | Reverse => Ret (VRef this) (put (reverse es))
        | Sort => Ret (VRef this) (put (native_sort H args es))
        | Splice =>
            let '(es', removed) := array_splice es args in
            let st' := put es' in
            let r := fresh_loc st' in
            Ret (VRef r) (with_heap (<[r := Obj KArray true [] removed false]> (heap st')) st')
        end
    end.

(** The wrapper [mutator (...args)] installed for [method]. *)
Definition mutator (fuel : nat) (m : method) (this : loc) (args : list val) : M val :=
  result <- original m this args ;;
  ob <- get_prop (dependArray fuel) this "__ob__" ;;
  let inserted :=
    match m with
    | Push | Unshift => Some args
    | Splice => Some (drop 2 args)
    | _ => None
    end in
  match ob with
  | VObserver _ _ dep =>
      match inserted with
      | Some items => observeArray fuel items
      | None => ret tt
      end ;;;
      notify dep ;;;
      ret result
  | _ => throw "TypeError: Cannot read properties of undefined"
  end.

(** [this.m(...args)] on an array: an own property shadows the prototype,
    an observed array finds [arrayMethods] first. *)
Definition call_method (fuel : nat) (this : loc) (m : method) (args : list val) : M val :=
  own <- gets (hasOwn (VRef this) (method_name m)) ;;
  if own then
    f <- get_prop (dependArray fuel) this (method_name m) ;;
    match f with
    | VMutator m' => mutator fuel m' this args
    | _ => throw "TypeError: not a function"
    end
  else
    aug <- gets (fun st => match heap st !! this with
                           | Some o => o_augmented o
                           | None => false
                           end) ;;
    if aug then mutator fuel m this args else original m this args.

(** ** set and del *)

(** A key is an array index or a name; a name is not the decimal form of an
    index. Modelled from the spec: [isValidArrayIndex] is imported from
    util, which is not part of this tree; it holds of the indices, the keys
    that [setAt] takes "within bounds" or "equal to length". *)
Inductive pkey := KIdx (n : nat) | KName (s : string).

Definition isValidArrayIndex (key : pkey) : bool :=
  match key with KIdx _ => true | KName _ => false end.

Definition key_name (key : pkey) : string :=
  match key with KIdx n => pretty n | KName s => s end.

Definition key_index (key : pkey) : nat :=
  match key with KIdx n => n | KName _ => 0 end.

(** [ob.vmCount], [ob.value] for whatever [target.__ob__] holds. *)
Definition ob_vmCount (fuel : nat) (ob : val) : M val :=
  match ob with
  | VObserver o _ _ => gets (fun st => VNum (Z.of_nat (default 0 (vmCount st !! o))))
  | _ => get_member (dependArray fuel) ob "vmCount"
  end.

Definition ob_value (fuel : nat) (ob : val) : M val :=
  match ob with
  | VObserver _ value _ => ret (VRef value)
  | _ => get_member (dependArray fuel) ob "value"
  end.

(** [defineReactive(ob.value, key, val)] when [ob.value] need not be a heap
    object: [Object.getOwnPropertyDescriptor] fails on undefined and null
    once the Dep is made, [Object.defineProperty] on the other non-objects
    once [val] is observed. *)
Definition defineReactive_on (fuel : nat) (objv : val) (key : string) (v : val) : M unit :=
  match objv with
  | VRef l => defineReactive fuel l key (Some v) None false
  | VUndef | VNull =>
      new_Dep ;;; throw "TypeError: Cannot convert undefined or null to object"
  | _ =>
      new_Dep ;;; observe fuel v false ;;;
      throw "TypeError: Object.defineProperty called on non-object"
  end.

(** [set (target, key, val)] *)
Definition set (fuel : nat) (target : val) (key : pkey) (v : val) : M val :=
  when (negb (production H) && (isUndef target || isPrimitive target))
       (emit (EvWarn "Cannot set reactive property on undefined, null, or primitive value")) ;;;
  isArr <- gets (isArray target) ;;
  match target with
  | VRef l =>
      if isArr && isValidArrayIndex key then
        len <- gets (fun st => match heap st !! l with
                               | Some o => length (o_elems o)
                               | None => 0
                               end) ;;
        put_prop fuel l "length" (VNum (Z.of_nat (Nat.max len (key_index key)))) ;;;
        call_method fuel l Splice [VNum (Z.of_nat (key_index key)); VNum 1; v] ;;;
        ret v
      else
        inTarget <- gets (has_property l (key_name key)) ;;
        if inTarget && negb (in_Object_prototype H (key_name key)) then
          put_prop fuel l (key_name key) v ;;;
          ret v
        else
          ob <- get_prop (dependArray fuel) l "__ob__" ;;
          isVue <- get_prop (dependArray fuel) l "_isVue" ;;
          root <- (if truthy isVue then ret true
                   else if truthy ob then
                          c <- ob_vmCount fuel ob ;; ret (truthy c)
                        else ret false) ;;
          if (root : bool) then
            when (negb (production H))
                 (emit (EvWarn "Avoid adding reactive properties to a Vue instance or its root $data at runtime - declare it upfront in the data option.")) ;;;
            ret v
          else if negb (truthy ob) then
            put_prop fuel l (key_name key) v ;;;
            ret v
          else
            objv <- ob_value fuel ob ;;
            defineReactive_on fuel objv (key_name key) v ;;;
            match ob with
            | VObserver _ _ dep => notify dep ;;; ret v
            | _ => throw "TypeError: ob.dep is undefined"
            end
  | _ => throw "TypeError: Cannot use 'in' operator to search for a key in a non-object"
  end.

(** [del (target, key)] *)
Definition del (fuel : nat) (target : val) (key : pkey) : M unit :=
  when (negb (production H) && (isUndef target || isPrimitive target))
       (emit (EvWarn "Cannot delete reactive property on undefined, null, or primitive value")) ;;;
  isArr <- gets (isArray target) ;;
  match target with
  | VRef l =>
      if isArr && isValidArrayIndex key then
        call_method fuel l Splice [VNum (Z.of_nat (key_index key)); VNum 1] ;;;
        ret tt
      else
        ob <- get_prop (dependArray fuel) l "__ob__" ;;
        isVue <- get_prop (dependArray fuel) l "_isVue" ;;
        root <- (if truthy isVue then ret true
                 else if truthy ob then
                        c <- ob_vmCount fuel ob ;; ret (truthy c)
                      else ret false) ;;
        if (root : bool) then
          when (negb (production H))
               (emit (EvWarn "Avoid deleting properties on a Vue instance or its root $data - just set it to null."))
        else
          own <- gets (hasOwn target (key_name key)) ;;
          if negb own then ret tt
          else
            delete_prop l (key_name key) ;;;
            if negb (truthy ob) then ret tt
            else match ob with
                 | VObserver _ _ dep => notify dep
                 | _ => throw "TypeError: ob.dep is undefined"
                 end
  | VUndef | VNull => throw "TypeError: Cannot read properties of undefined or null"
  | _ => ret tt
  end.

End Observer.

(** ** A standard host *)

(** The own property names of [Object.prototype] (ECMAScript, with Annex B). *)
Definition std_Object_prototype : list string :=
  ["constructor"; "__defineGetter__"; "__defineSetter__"; "hasOwnProperty";
   "__lookupGetter__"; "__lookupSetter__"; "isPrototypeOf";
   "propertyIsEnumerable"; "toString"; "valueOf"; "__proto__"; "toLocaleString"].

(** Names on [Array.prototype] (ES2015). *)
Definition std_Array_prototype : list string :=
  ["length"; "constructor"; "concat"; "copyWithin"; "fill"; "find"; "findIndex";
   "lastIndexOf"; "pop"; "push"; "reverse"; "shift"; "unshift"; "slice"; "sort";
   "splice"; "includes"; "indexOf"; "join"; "keys"; "entries"; "values";
   "forEach"; "filter"; "map"; "every"; "some"; "reduce"; "reduceRight";
   "toLocaleString"; "toString"].

Definition mem_string (names : list string) (s : string) : bool :=
  existsb (String.eqb s) names.

(** A development build in a browser; [sort] leaves the elements as they
    are, watchers do nothing on [update]. *)
Definition std_host : host :=
  Host false true false true
       (mem_string std_Object_prototype) (mem_string std_Array_prototype)
       (fun _ es => es) (fun _ st => st).

Definition empty_state : state :=
  State ∅ ∅ ∅ ∅ ∅ 0 0 0 None true [].

(** ** global-api/index.js: Vue.observable *)

(** [Vue.observable = obj => { observe(obj); return obj }] *)
Definition Vue_observable (H : host) (fuel : nat) (obj : val) : M val :=
  observe H fuel obj false ;;; ret obj.

(** ** dep.js: the target stack *)

(** [targetStack] is private to dep.js and [console.error] is the host's:
    with the engine state they make the state of the callers of
    [pushTarget] and [popTarget]. *)
Record world := World {
  targetStack : list (option nat);
  console : list string;
  engine : state
}.

Definition with_engine (st : state) (w : world) : world :=
  World (targetStack w) (console w) st.

(** [targetStack[targetStack.length - 1]]: undefined on an empty stack. *)
Definition stack_top (stack : list (option nat)) : option nat :=
  default None (last stack).

(** [pushTarget (target) { targetStack.push(target); Dep.target = target }];
    a call without argument pushes undefined. *)
Definition pushTarget (t : option nat) (w : world) : world :=
  World (targetStack w ++ [t]) (console w) (with_target t (engine w)).

(** [popTarget () { targetStack.pop(); Dep.target = targetStack[targetStack.length - 1] }] *)
Definition popTarget (w : world) : world :=
  World (removelast (targetStack w)) (console w)
        (with_target (stack_top (removelast (targetStack w))) (engine w)).

(** Computations of the callers: they return, throw, or run out of the
    fuel of the engine. *)
Inductive result (A : Type) :=
| Done (a : A) (w : world)
| Thrown (e : string) (w : world)
| Stuck.
Arguments Done {A} a w.
Arguments Thrown {A} e w.
Arguments Stuck {A}.

Definition W (A : Type) : Type := world -> result A.

Definition wret {A} (a : A) : W A := fun w => Done a w.
Definition wthrow {A} (e : string) : W A := fun w => Thrown e w.
Definition wbind {A B} (m : W A) (f : A -> W B) : W B :=
  fun w => match m w with
           | Done a w' => f a w'
           | Thrown e w' => Thrown e w'
           | Stuck => Stuck
           end.

(** A computation of the engine, run on the engine state. *)
Definition lift {A} (m : M A) : W A :=
  fun w => match m (engine w) with
           | Ret a st => Done a (with_engine st w)
           | Raise e st => Thrown e (with_engine st w)
           | OutOfFuel => Stuck
           end.

(** [try { m } catch (e) { h e }] *)
Definition try_catch {A} (m : W A) (h : string -> W A) : W A :=
  fun w => match m w with
           | Thrown e w' => h e w'
           | r => r
           end.

(** [try { m } finally { f () }] for an [f] that does not throw. *)
Definition try_finally {A} (m : W A) (f : world -> world) : W A :=
  fun w => match m w with
           | Done a w' => Done a (f w')
           | Thrown e w' => Thrown e (f w')
           | Stuck => Stuck
           end.

(** ** util/error.js *)

(** A Vue instance as error.js reads it: its [$parent] and its
    [$options.errorCaptured]. *)
Inductive component :=
| Component (id : nat) (parent : option component) (errorCaptured : option (list nat)).

Definition vm_id (vm : option component) : option nat :=
  match vm with Some (Component id _ _) => Some id | None => None end.

(** The functions of the user and the platform: the [errorCaptured] hooks,
    called as [hook.call(cur, err, vm, info)], [config.errorHandler], and
    whether there is a console ([(inBrowser || inWeex) && typeof console
    !== 'undefined']). A thrown value is known by its text. The functions
    run on the engine state: they may set [Dep.target], and what they push
    on [targetStack] they have popped when they return or throw. *)
Record handlers := Handlers {
  hook_call : nat -> nat -> string -> option nat -> string -> M val;
  errorHandler : option (string -> option nat -> string -> M val);
  has_console : bool
}.

Definition dquote : string := String (Ascii.ascii_of_nat 34) EmptyString.

Section ErrorHandling.

Variable H : host.
Variable E : handlers.

(** [logError (err, vm, info)] *)
Definition logError (err : string) (vm : option nat) (info : string) : W val :=
  wbind (lift (when (negb (production H))
                 (emit (EvWarn ("Error in " ++ info ++ ": " ++ dquote ++ err ++ dquote)))))
    (fun _ =>
       if has_console E
       then fun w => Done VUndef (World (targetStack w) (console w ++ [err]) (engine w))
       else wthrow err).

(** [globalHandleError (err, vm, info)] *)
Definition globalHandleError (err : string) (vm : option nat) (info : string) : W val :=
  match errorHandler E with
  | Some handler =>
      try_catch (lift (handler err vm info))
        (fun e =>
           wbind (if negb (String.eqb e err)
                  then logError e None "config.errorHandler"
                  else wret VUndef)
             (fun _ => logError err vm info))
  | None => logError err vm info
  end.

(** The loop over [hooks] of one ancestor [cur]: true when a hook has
    returned false, which ends [handleError]. *)
Fixpoint run_hooks (cur : nat) (hooks : list nat) (err : string) (vm : option nat)
    (info : string) : W bool :=
  match hooks with
  | [] => wret false
  | h :: hooks' =>
      wbind
        (try_catch
           (wbind (lift (hook_call E h cur err vm info))
              (fun r => wret (strict_eq r (VBool false))))
           (fun e =>
              wbind (globalHandleError e (Some cur) "errorCaptured hook")
                (fun _ => wret false)))
        (fun capture =>
           if capture then wret true else run_hooks cur hooks' err vm info)
  end.

(** The loop [while ((cur = cur.$parent))], from the ancestor [cur]. *)
Fixpoint run_ancestors (cur : component) (err : string) (vm : option nat)
    (info : string) : W bool :=
  match cur with
  | Component id parent hooks =>
      wbind
        (match hooks with
         | Some hs => run_hooks id hs err vm info
         | None => wret false
         end)
        (fun capture =>
           if capture then wret true
           else match parent with
                | Some p => run_ancestors p err vm info
                | None => wret false
                end)
  end.

(** [handleError (err, vm, info)] *)
Definition handleError (err : string) (vm : option component) (info : string) : W unit :=
  fun w =>
    try_finally
      (wbind
         (match vm with
          | Some (Component _ (Some p) _) => run_ancestors p err (vm_id vm) info
          | _ => wret false
          end)
         (fun capture =>
            if capture then wret tt
            else wbind (globalHandleError err (vm_id vm) info) (fun _ => wret tt)))
      popTarget (pushTarget None w).

(** ** instance/state.js: getData *)

(** [{}] *)
Definition new_object : M val :=
  fun st => Ret (VRef (fresh_loc st))
                (with_heap (<[fresh_loc st := Obj KPlain true [] [] false]> (heap st)) st).

(** [getData (data, vm)]: [data] is what [data.call(vm, vm)] does. *)
Definition getData (data : M val) (vm : option component) : W val :=
  fun w =>
    try_finally
      (try_catch (lift data)
         (fun e => wbind (handleError e vm "data()") (fun _ => lift new_object)))
      popTarget (pushTarget None w).

End ErrorHandling.

(** ** instance/inject.js: initInjections *)

Section Inject.

Variable H : host.

(** What [resolveInject(vm.$options.inject, vm)] does and returns (undefined,
    or an object that it made with [Object.create(null)] and filled by
    assignment), and the [customSetter] closure that a development build
    makes for a key. *)
Variable resolveInject : M val.
Variable mutation_warning : string -> nat.

(** [Object.keys(result).forEach(key => defineReactive(vm, key, result[key], ...))] *)
Fixpoint define_injections (fuel : nat) (vm : loc) (result : loc) (keys : list string)
    : M unit :=
  match keys with
  | [] => ret tt
  | key :: keys' =>
      v <- get_prop (dependArray fuel) result key ;;
      defineReactive H fuel vm key (Some v)
        (if production H then None else Some (mutation_warning key)) false ;;;
      define_injections fuel vm result keys'
  end.

(** [initInjections (vm)] *)
Definition initInjections (fuel : nat) (vm : loc) : M unit :=
  result <- resolveInject ;;
  if truthy result then
    toggleObserving false ;;;
    match result with
    | VRef r =>
        keys <- gets (fun st => match heap st !! r with
                                | Some o => object_keys o
                                | None => []
                                end) ;;
        define_injections fuel vm r keys
    | _ => ret tt
    end ;;;
    toggleObserving true
  else ret tt.

End Inject.

(** ** components/keep-alive.js: matches *)

(** The patterns of [include] and [exclude]: an array of names, a string,
    a regular expression (what its [test] answers), or anything else. *)
Inductive name_pattern :=
| PatArray (names : list string)
| PatString (s : string)
| PatRegExp (test : string -> bool)
| PatOther.

Definition comma : Ascii.ascii := Ascii.ascii_of_nat 44.

(** [s.split(',')] *)
Fixpoint split_comma (s : string) : list string :=
  match s with
  | EmptyString => [EmptyString]
  | String c s' =>
      if Ascii.eqb c comma
      then EmptyString :: split_comma s'
      else match split_comma s' with
           | first :: rest => String c first :: rest
           | [] => [String c EmptyString]
           end
  end.

(** [matches (pattern, name)]; [indexOf(name) > -1] is membership. *)
Definition matches (p : name_pattern) (name : string) : bool :=
  match p with
  | PatArray names => bool_decide (name ∈ names)
  | PatString s => bool_decide (name ∈ split_comma s)
  | PatRegExp test => test name
  | PatOther => false
  end.

(** * The vocabulary of the statements *)

(** ** Notification *)

(** The order in which [notify] runs over the copy of [subs]. *)
Definition notify_order (H : host) (ws : list nat) : list nat :=
  if negb (production H) && negb (config_async H)
  then merge_sort Nat.le ws else ws.

(** ** Frames: what a computation may change *)

(** [frames R m]: whenever [m] returns or raises, the state it leaves is
    related by [R] to the state it started from. *)
Definition frames {A} (R : state -> state -> Prop) (m : M A) : Prop :=
  forall st, match m st with
             | Ret _ st' | Raise _ st' => R st st'
             | OutOfFuel => True
             end.

(** [keeps R st0 m st]: [m], run from [st], ends in a state related to
    [st0]. *)
Definition keeps {A} (R : state -> state -> Prop) (st0 : state) (m : M A)
    (st : state) : Prop :=
  match m st with
  | Ret _ st' | Raise _ st' => R st0 st'
  | OutOfFuel => True
  end.

(** Nothing is logged. *)
Definition quiet (st st' : state) : Prop := log st' = log st.

(** ** Reading and writing a reactive property *)

(** [st'] is [st] with more subscriptions (and any [vmCount]s, which no
    reader looks at). *)
Definition subs_le (st st' : state) : Prop :=
  st' = with_subs (subs st') (with_vmCount (vmCount st') st)
  /\ forall d w, w ∈ subs_of d st -> w ∈ subs_of d st'.

(** A computation that reads: it only adds subscriptions, and run again
    once its subscriptions are in place it returns the same value and
    changes nothing. *)
Definition reads {A} (m : M A) : Prop :=
  frames subs_le m
  /\ forall st a s1, m st = Ret a s1 ->
       forall s2, subs_le s1 s2 -> m s2 = Ret a s2.

(** The values that [childOb = !shallow && observe(val)] can take. *)
Definition childOb_shape (c : val) : Prop :=
  c = VUndef \/ c = VBool false \/ exists o v d, c = VObserver o v d.

(** [newVal === value || (newVal !== newVal && value !== value)] *)
Definition identical (newVal value : val) : bool :=
  strict_eq newVal value
  || (negb (strict_eq newVal newVal) && negb (strict_eq value value)).

Definition customSetter_events (H : host) (cs : option nat) : list event :=
  match cs with
  | Some n => if production H then [] else [EvCustomSetter n]
  | None => []
  end.

Definition warn_events (H : host) (msg : string) : list event :=
  if production H then [] else [EvWarn msg].


Definition del_root_warning : string :=
  "Avoid deleting properties on a Vue instance or its root $data - just set it to null.".

(** ** The elements of an array *)

(** [d] is the dep of the Observer of an element of the array [l], or of an
    array nested in it. *)
Inductive elem_dep (st : state) : nat -> nat -> Prop :=
| elem_dep_here l o le ob_o ob_v d e w c :
    heap st !! l = Some o ->
    VRef le ∈ o_elems o ->
    get_own le "__ob__" st = Some (PData (VObserver ob_o ob_v d) e w c) ->
    elem_dep st l d
| elem_dep_nested l o l' d :
    heap st !! l = Some o ->
    VRef l' ∈ o_elems o ->
    isArray (VRef l') st = true ->
    elem_dep st l' d ->
    elem_dep st l d.

(** [e.__ob__] is absent or is the back-reference that [def] installs. *)
Definition slot_ok (st : state) (e : val) : bool :=
  match e with
  | VRef le =>
      match get_own le "__ob__" st with
      | None | Some (PData (VObserver _ _ _) _ _ _) => true
      | _ => false
      end
  | _ => true
  end.

(** [slot_ok], and [ok] for the elements that are arrays. *)
Definition elem_ok (ok : nat -> state -> bool) (st : state) (e : val) : bool :=
  slot_ok st e && match e with
                  | VRef l' => if isArray e st then ok l' st else true
                  | _ => true
                  end.

(** The arrays nested in [l] are nested less than [n] deep, and their
    elements are [slot_ok]. *)
Fixpoint elems_ok (n : nat) (st : state) (l : nat) : bool :=
  match n with
  | 0 => false
  | S n' =>
      match heap st !! l with
      | None => true
      | Some o =>
          forallb (fun e => slot_ok st e
                            && match e with
                               | VRef l' => if isArray e st then elems_ok n' st l' else true
                               | _ => true
                               end) (o_elems o)
      end
  end.

(** ** Observed objects *)

(** The back-reference [l.__ob__], when it is the data property that [def]
    installs. *)
Definition ob_slot (l : nat) (st : state) : option val :=
  match get_own l "__ob__" st with
  | Some (PData (VObserver o v d) _ _ _) => Some (VObserver o v d)
  | _ => None
  end.

(** [l] has no [__ob__] of its own, or the back-reference. *)
Definition ob_key_ok (l : nat) (st : state) : Prop :=
  get_own l "__ob__" st = None \/ is_Some (ob_slot l st).

Definition shape (o : obj) : kind * bool * list val :=
  (o_kind o, o_extensible o, o_elems o).

Definition is_method_name (key : string) : bool :=
  existsb (fun m => String.eqb key (method_name m)) methodsToPatch.

(** [grows st st']: back-references stay, objects keep their kind, their
    extensibility, their elements and their keys (but for [__ob__], and for
    the method names that [copyAugment] defines on an array), closures that
    exist keep their variables, and nothing is logged. *)
Record grows (st st' : state) : Prop := Grows {
  g_slot : forall l ob, ob_slot l st = Some ob -> ob_slot l st' = Some ob;
  g_shape : forall l, shape <$> heap st' !! l = shape <$> heap st !! l;
  g_cells : cells st' = cells st;
  g_target : target st' = target st;
  g_should : shouldObserve st' = shouldObserve st;
  g_log : log st' = log st;
  g_cid : next_cid st <= next_cid st';
  g_clos : forall k, k < next_cid st -> clos st' !! k = clos st !! k;
  g_keys : forall l key,
      key <> "__ob__" ->
      isArray (VRef l) st = false \/ is_method_name key = false ->
      (get_own l key st' = None <-> get_own l key st = None);
  g_obkey : forall l, get_own l "__ob__" st = None -> ob_key_ok l st'
}.

Definition is_observer (v : val) : bool :=
  match v with VObserver _ _ _ => true | _ => false end.

Definition observable (H : host) (value : val) (st : state) : bool :=
  shouldObserve st && negb (isServerRendering H)
  && (isArray value st || isPlainObject value st) && isExtensible value st.

(** The three stages of [observe]: look for a wrapper, else make one, then
    count a root. *)
Definition found_step (dA : nat -> M unit) (value : val) : M val :=
  own <- gets (hasOwn value "__ob__") ;;
  if own then get_member dA value "__ob__" else ret VUndef.

Definition create_step (H : host) (dA : nat -> M unit) (obs : val -> M val)
    (value found : val) : M val :=
  match found with
  | VObserver _ _ _ => get_member dA value "__ob__"
  | _ =>
      can <- gets (observable H value) ;;
      if can then
        isVue <- get_member dA value "_isVue" ;;
        if truthy isVue then ret VUndef
        else match value with
             | VRef l => new_Observer_body H dA obs l
             | _ => ret VUndef
             end
      else ret VUndef
  end.

Definition create_fresh (H : host) (dA : nat -> M unit) (obs : val -> M val)
    (value : val) : M val :=
  can <- gets (observable H value) ;;
  if can then
    isVue <- get_member dA value "_isVue" ;;
    if truthy isVue then ret VUndef
    else match value with
         | VRef l => new_Observer_body H dA obs l
         | _ => ret VUndef
         end
  else ret VUndef.

Definition bump (r : bool) (ob : val) (st : state) : state :=
  match ob with
  | VObserver o _ _ =>
      if r then with_vmCount (<[o := S (default 0 (vmCount st !! o))]> (vmCount st)) st
      else st
  | _ => st
  end.


(** The objects that carry no back-reference: [new Observer] takes one out
    of this set before it recurses. *)
Definition unobserved (st : state) : gset nat :=
  filter (fun l => ob_slot l st = None) (dom (heap st)).

(** [returns n m]: from a state with no active watcher and fewer than [n]
    objects without back-reference, [m] does not run out of fuel, and
    leaves such a state when it returns. *)
Definition returns {A} (n : nat) (m : M A) (st : state) : Prop :=
  target st = None -> size (unobserved st) < n ->
  match m st with
  | Ret _ st' => target st' = None /\ size (unobserved st') < n
  | Raise _ _ => True
  | OutOfFuel => False
  end.

(** ** Vocabulary of the further properties *)

(** [fixed st st']: the objects that carry a back-reference in [st] are in
    [st'] as they are in [st]. *)
Definition fixed (st st' : state) : Prop :=
  forall l ob, ob_slot l st = Some ob -> heap st' !! l = heap st !! l.

(** The state that [new Dep ()] leaves. *)
Definition dep_made (st : state) : state :=
  with_subs (<[uid st := []]> (subs st)) (with_uid (S (uid st)) st).

(** The state that [alloc_closure] leaves. *)
Definition closure_made (v c : val) (st : state) : state :=
  with_clos (<[next_cid st := (v, c)]> (clos st)) (with_next_cid (S (next_cid st)) st).

(** The descriptor that [defineReactive] installs over the property [p]. *)
Definition reactive_prop (k : nat) (obj : nat) (dep : nat) (p : option prop)
    (cs : option nat) (sh : bool) : prop :=
  PAccessor (Some (GReactive k obj dep (p ≫= prop_get)))
            (Some (SReactive k obj dep (p ≫= prop_get) (p ≫= prop_set) cs sh))
            true true.

(** The state in which [new Observer (value)] starts its walk: the Dep and
    the Observer are made and the back-reference is defined. *)
Definition observer_made (l : nat) (o : obj) (st : state) : state :=
  with_heap (<[l := with_props (store_prop (o_props o) "__ob__"
                                  (PData (VObserver (next_ob st) l (uid st))
                                         false true true)) o]> (heap st))
    (with_vmCount (<[next_ob st := 0]> (vmCount st))
       (with_next_ob (S (next_ob st)) (dep_made st))).

(** [defineReactive(obj, key)] has replaced the property [p] of [obj]: the
    accessor pair is in place, its closure holds the value [v] that was
    read and the result [c] of observing it. *)
Definition converted (H : host) (fuel : nat) (st st' : state) (obj : nat)
    (key : string) (p : prop) : Prop :=
  exists k d v c s2 s3,
    get_own obj key st' = Some (reactive_prop k obj d (Some p) None false)
    /\ clos st' !! k = Some (v, c) /\ k < next_cid st'
    /\ grows st s2 /\ observe H fuel v false s2 = Ret c s3 /\ grows s3 st'
    /\ (forall pv e w cf, p = PData pv e w cf -> v = pv).

Global Instance method_eq_dec : EqDecision method.
Proof. solve_decision. Defined.

(** The method [m] of the array [l] is the wrapper of array.js: the array
    has it as an own property ([copyAugment]), or has no own property of
    that name and [arrayMethods] as its prototype ([protoAugment]). *)
Definition intercepted (l : nat) (m : method) (st : state) : bool :=
  match heap st !! l with
  | Some o =>
      match lookup_prop (o_props o) (method_name m) with
      | Some (PData (VMutator m') _ _ _) => bool_decide (m' = m)
      | Some _ => false
      | None => o_augmented o
      end
  | None => false
  end.


(** The state after the native [splice]: the new elements in the array,
    and the array of the removed ones at a location that was free. *)
Definition spliced (l : nat) (o : obj) (es' removed : list val) (st : state) : state :=
  let s1 := with_heap (<[l := with_elems es' o]> (heap st)) st in
  with_heap (<[fresh_loc s1 := Obj KArray true [] removed false]> (heap s1)) s1.

(** The fixed part of the two diagnostics for a target that is not an
    object; the source appends the target to it. *)
Definition set_target_warning : string :=
  "Cannot set reactive property on undefined, null, or primitive value".

Definition del_target_warning : string :=
  "Cannot delete reactive property on undefined, null, or primitive value".

(** The value that [defineReactive] starts from: its third argument, or
    with two arguments what the data property holds. *)
Definition initial_value (ov : option val) (p : option prop) : val :=
  match ov with
  | Some v => v
  | None => match p with Some (PData pv _ _ _) => pv | _ => VUndef end
  end.

(** [Dep.target] is the top of [targetStack]. *)
Definition tracked (w : world) : Prop := target (engine w) = stack_top (targetStack w).

(** Calls of [pushTarget] and [popTarget]. *)
Inductive target_op := OpPush (t : option nat) | OpPop.

Definition run_op (op : target_op) (w : world) : world :=
  match op with OpPush t => pushTarget t w | OpPop => popTarget w end.

Definition run_ops (ops : list target_op) (w : world) : world :=
  foldl (fun w op => run_op op w) w ops.

(** Every [pushTarget] has its [popTarget], and they nest. *)
Inductive balanced : list target_op -> Prop :=
| balanced_nil : balanced []
| balanced_nest t a b :
    balanced a -> balanced b -> balanced (OpPush t :: a ++ OpPop :: b).

(** The text that [logError] hands to [warn]. *)
Definition error_warning (info err : string) : string :=
  "Error in " ++ info ++ ": " ++ dquote ++ err ++ dquote.

(** The engine state after the [warn] of [logError]. *)
Definition warned (H : host) (info err : string) (st : state) : state :=
  with_log (log st ++ warn_events H (error_warning info err)) st.

(** The world that [popTarget] leaves once the matching [pushTarget] has
    run in [w]: the stack of [w], and its top as [Dep.target]. *)
Definition restored (w : world) (c : list string) (st : state) : world :=
  World (targetStack w) c (with_target (stack_top (targetStack w)) st).

(** No ancestor from [cur] up has [errorCaptured] hooks. *)
Fixpoint no_hooks (cur : component) : bool :=
  match cur with
  | Component _ parent hooks =>
      match hooks with
      | Some _ => false
      | None => match parent with Some p => no_hooks p | None => true end
      end
  end.

Definition no_ancestor_hooks (vm : option component) : bool :=
  match vm with
  | Some (Component _ (Some p) _) => no_hooks p
  | _ => true
  end.

(** [m] leaves [targetStack] alone. *)
Definition keeps_stack {A} (m : W A) : Prop :=
  forall w, match m w with
            | Done _ w' | Thrown _ w' => targetStack w' = targetStack w
            | Stuck => True
            end.

(** [st'] has the Observers of [st] and no other, and the objects of [st]
    but for [vm]. *)
Definition shallow_at (vm : nat) (st st' : state) : Prop :=
  next_ob st' = next_ob st
  /\ forall l, l <> vm -> heap st' !! l = heap st !! l.

Fixpoint has_comma (s : string) : bool :=
  match s with
  | EmptyString => false
  | String c s' => Ascii.eqb c comma || has_comma s'
  end.

(** * Example states *)

Definition data (v : val) : prop := PData v true true true.
Definition object (ps : list (string * prop)) : obj := Obj KPlain true ps [] false.
Definition array (es : list val) : obj := Obj KArray true [] es false.

Definition final {A} (o : outcome A) : state :=
  match o with
  | Ret _ st | Raise _ st => st
  | OutOfFuel => empty_state
  end.

(** [{count: 1, child: {x: 2}, list: [{y: 3}, 4]}] at 0, and [{z: 5}] at 4. *)
Definition ex_heap : gmap nat obj :=
  <[0 := object [("count", data (VNum 1)); ("child", data (VRef 1));
                 ("list", data (VRef 2))]]>
  (<[1 := object [("x", data (VNum 2))]]>
  (<[2 := array [VRef 3; VNum 4]]>
  (<[3 := object [("y", data (VNum 3))]]>
  (<[4 := object [("z", data (VNum 5))]]> ∅)))).

Definition ex_plain : state := with_heap ex_heap empty_state.

(** After [observe(data)]. *)
Definition ex_observed : state :=
  Eval vm_compute in final (observe std_host 4 (VRef 0) false ex_plain).

(** After [observe(data, true)]: root data. *)
Definition ex_root : state :=
  Eval vm_compute in final (observe std_host 4 (VRef 0) true ex_plain).

(** An object whose [x] has a getter over cell 0 and no setter, made
    reactive. *)
Definition ex_getter_pre : state :=
  with_cells (<[0 := VNum 1]> ∅)
    (with_heap (<[0 := object [("x", PAccessor (Some (GNative 0)) None true true)]]> ∅)
       empty_state).

Definition ex_getter_only : state :=
  Eval vm_compute in
    final (defineReactive std_host 3 0 "x" None None false ex_getter_pre).

(** [defineReactive(obj, 'p', 0, null, true)], and an empty object at 1. *)
Definition ex_shallow : state :=
  Eval vm_compute in
    final (defineReactive std_host 3 0 "p" (Some (VNum 0)) None true
             (with_heap (<[0 := object [("p", data (VNum 0))]]> (<[1 := object []]> ∅))
                empty_state)).

(** An observed array [[{}]] at 1, held by the property [list] of the
    object at 0, shallow or deep, while watcher 7 is evaluated. *)
Definition ex_array : state :=
  Eval vm_compute in
    final (observe std_host 4 (VRef 1) false
             (with_heap (<[0 := object []]> (<[1 := array [VRef 2]]> (<[2 := object []]> ∅)))
                empty_state)).

Definition ex_list_shallow : state :=
  Eval vm_compute in
    with_target (Some 7)
      (final (defineReactive std_host 3 0 "list" (Some (VRef 1)) None true ex_array)).

Definition ex_list_deep : state :=
  Eval vm_compute in
    with_target (Some 7)
      (final (defineReactive std_host 3 0 "list" (Some (VRef 1)) None false ex_array)).


(** An object with a property that is not configurable. *)
Definition ex_frozen_key : state :=
  with_heap (<[0 := object [("id", PData (VNum 1) true true false)]]> ∅) empty_state.

(** The object at 0 of [ex_heap]. *)
Definition ex_data : obj :=
  object [("count", data (VNum 1)); ("child", data (VRef 1)); ("list", data (VRef 2))].

(** A frozen object [{a: 1}]. *)
Definition ex_frozen : state :=
  with_heap (<[0 := Obj KPlain false [("a", data (VNum 1))] [] false]> ∅) empty_state.

(** After [observe] of the array at 2 of [ex_heap]. *)
Definition ex_array_observed : state :=
  Eval vm_compute in final (observe std_host 4 (VRef 2) false ex_plain).

(** An empty array, observed. *)
Definition ex_empty_array : state :=
  Eval vm_compute in
    final (observe std_host 2 (VRef 0) false (with_heap (<[0 := array []]> ∅) empty_state)).


(** Nothing pushed; [Dep.target] is null. *)
Definition ex_world : world := World [] [] empty_state.

(** Hook 0 returns false, every other hook throws; no [config.errorHandler]. *)
Definition ex_hooks : handlers :=
  Handlers (fun h _ _ _ _ => if Nat.eqb h 0 then ret (VBool false) else throw "hook failed")
           None true.

(** A [config.errorHandler] that throws what it is given. *)
Definition ex_rethrow : handlers :=
  Handlers (fun _ _ _ _ _ => ret VUndef) (Some (fun err _ _ => throw err)) true.

(** A component 1 under a parent 0 with the hooks [hooks]. *)
Definition ex_child (hooks : list nat) : component :=
  Component 1 (Some (Component 0 None (Some hooks))) None.

(** A Vue instance at 0, the result [{foo: {}}] of [resolveInject] at 1. *)
Definition ex_inject : state :=
  with_shouldObserve false
    (with_heap (<[0 := object [("_isVue", PData (VBool true) true true true)]]>
               (<[1 := object [("foo", data (VRef 2))]]>
               (<[2 := object []]> ∅))) empty_state).

(** * Properties *)

(** ** The monad *)

Lemma bind_Ret {A B} (m : M A) (f : A -> M B) st a st1 :
  m st = Ret a st1 -> bind m f st = f a st1.
Proof. intros E. unfold bind. by rewrite E. Qed.

Lemma bind_Ret_inv {A B} (m : M A) (f : A -> M B) st b st2 :
  bind m f st = Ret b st2 ->
  exists a st1, m st = Ret a st1 /\ f a st1 = Ret b st2.
Proof.
  unfold bind. destruct (m st) as [a st1| |]; [|done..].
  intros E. by exists a, st1.
Qed.

(** ** Dep.notify *)

Section Notify.

Context (H : host).

Lemma update_all_log (ws : list nat) (st : state) :
  exists st', update_all H ws st = Ret tt st'
              /\ log st' = log st ++ map EvUpdate ws.
Proof.
  revert st. induction ws as [|w ws IH]; intros st; simpl.
  - exists st. by rewrite app_nil_r.
  - destruct (IH (with_log (log st ++ [EvUpdate w]) (update H w st)))
      as (st' & E & L).
    exists st'. split.
    + unfold bind, call_update. exact E.
    + rewrite L. simpl. by rewrite <- app_assoc.
Qed.

Lemma notify_log (d : nat) (st : state) :
  exists st', notify H d st = Ret tt st'
              /\ log st' = log st ++ EvNotify d :: map EvUpdate (notify_order H (subs_of d st)).
Proof.
  destruct (update_all_log (notify_order H (subs_of d st))
              (with_log (log st ++ [EvNotify d]) st)) as (st' & E & L).
  exists st'. split.
  - unfold notify, bind, emit, modify, gets. simpl. exact E.
  - rewrite L. simpl. by rewrite <- app_assoc.
Qed.

End Notify.

(** ** Frame rules *)

Section Frames.

Context (R : state -> state -> Prop) `{!PreOrder R}.

Lemma frames_ret {A} (a : A) : frames R (ret a).
Proof. intros st. simpl. reflexivity. Qed.

Lemma frames_throw {A} e : frames R (@throw A e).
Proof. intros st. simpl. reflexivity. Qed.

Lemma frames_gets {A} (f : state -> A) : frames R (gets f).
Proof. intros st. simpl. reflexivity. Qed.

Lemma frames_out {A} : frames R (fun _ => @OutOfFuel A).
Proof. by intros st. Qed.

Lemma frames_modify (f : state -> state) :
  (forall st, R st (f st)) -> frames R (modify f).
Proof. intros Hf st. simpl. apply Hf. Qed.

Lemma frames_bind {A B} (m : M A) (f : A -> M B) :
  frames R m -> (forall a, frames R (f a)) -> frames R (bind m f).
Proof.
  intros Hm Hf st. unfold bind. specialize (Hm st).
  destruct (m st) as [a st1|e st1|]; [|done..].
  specialize (Hf a st1).
  destruct (f a st1) as [b st2|e st2|]; [| |done]; by etrans.
Qed.

Lemma frames_when (b : bool) (m : M unit) : frames R m -> frames R (when b m).
Proof. destruct b; [done|]. intros _. apply frames_ret. Qed.

Lemma frames_Ret {A} (m : M A) st a st' :
  frames R m -> m st = Ret a st' -> R st st'.
Proof. intros Hm E. specialize (Hm st). by rewrite E in Hm. Qed.

Lemma frames_Raise {A} (m : M A) st e st' :
  frames R m -> m st = Raise e st' -> R st st'.
Proof. intros Hm E. specialize (Hm st). by rewrite E in Hm. Qed.

End Frames.

(** ** Reading: getters only subscribe *)

Global Instance subs_le_preorder : PreOrder subs_le.
Proof.
  split.
  - intros [????????]. split; [done|auto].
  - intros x y z [E1 M1] [E2 M2]. split; [|auto].
    rewrite E2 at 1. rewrite E1. by destruct x.
Qed.

Lemma subs_of_with_subs_eq d ws s st :
  subs_of d (with_subs (<[d := ws]> s) st) = ws.
Proof. unfold subs_of. simpl. by rewrite lookup_insert_eq. Qed.

Lemma subs_of_with_subs_ne d d' ws st :
  d <> d' -> subs_of d' (with_subs (<[d := ws]> (subs st)) st) = subs_of d' st.
Proof. intros Hne. unfold subs_of. simpl. by rewrite lookup_insert_ne. Qed.

Lemma subs_le_refl st : subs_le st st.
Proof. reflexivity. Qed.

Lemma depend_spec (d : nat) (st : state) :
  exists st', depend d st = Ret tt st'
    /\ subs_le st st'
    /\ (forall w, target st = Some w -> w ∈ subs_of d st')
    /\ (target st = None -> st' = st).
Proof.
  unfold depend. destruct (target st) as [w|] eqn:Ht.
  - unfold addDep. case_bool_decide as Hin.
    + exists st. split; [done|]. split; [apply subs_le_refl|].
      split; [by intros ? [= <-]|done].
    + eexists. split; [reflexivity|]. split; [split; [done|]|split; [|done]].
      * intros d' w' Hw. destruct (decide (d = d')) as [<-|Hne].
        -- rewrite subs_of_with_subs_eq. set_solver.
        -- by rewrite subs_of_with_subs_ne.
      * intros ? [= <-]. rewrite subs_of_with_subs_eq. set_solver.
  - exists st. split; [done|]. split; [apply subs_le_refl|]. done.
Qed.

Lemma depend_other d st st' d' :
  depend d st = Ret tt st' -> d' <> d -> subs_of d' st' = subs_of d' st.
Proof.
  unfold depend, addDep, addSub, modify. intros E Hne.
  destruct (target st); [|by simplify_eq].
  case_bool_decide; simplify_eq; [done|].
  by rewrite subs_of_with_subs_ne.
Qed.

Lemma depend_frames d : frames subs_le (depend d).
Proof.
  intros st. destruct (depend_spec d st) as (st' & E & Hle & _).
  by rewrite E.
Qed.

Ltac frames_step :=
  lazymatch goal with
  | |- PreOrder _ => apply _
  | |- frames _ (ret _) => apply frames_ret
  | |- frames _ (throw _) => apply frames_throw
  | |- frames _ (gets _) => apply frames_gets
  | |- frames _ (fun _ => OutOfFuel) => apply frames_out
  | |- frames _ (bind _ _) => apply frames_bind; [..|intros ?]
  | |- frames _ (when _ _) => apply frames_when
  | |- frames _ (if ?b then _ else _) => destruct b
  | |- frames _ (match ?x with _ => _ end) => destruct x
  end.

Ltac frames_hyp :=
  match goal with
  | Hf : context [frames _ _] |- frames _ _ => solve [apply Hf]
  end.

Ltac frames_auto := repeat (first [frames_hyp | frames_step]).

(** Induction on a getter through the getter it captured. *)
Lemma getter_fn_induction (P : getter_fn -> Prop) :
  (forall c, P (GNative c)) ->
  (forall k obj dep, P (GReactive k obj dep None)) ->
  (forall k obj dep g, P g -> P (GReactive k obj dep (Some g))) ->
  forall g, P g.
Proof.
  intros f1 f2 f3.
  fix ind 1. intros [c|k obj dep [g|]]; [apply f1|apply f3, ind|apply f2].
Qed.

Lemma reads_frames {A} (m : M A) : reads m -> frames subs_le m.
Proof. by intros [? _]. Qed.

Lemma reads_ret {A} (a : A) : reads (ret a).
Proof. split; [apply frames_ret; apply _|]. by intros ??? [= <- <-]. Qed.

Lemma reads_throw {A} e : reads (@throw A e).
Proof. split; [apply frames_throw; apply _|done]. Qed.

Lemma reads_out {A} : reads (fun _ => @OutOfFuel A).
Proof. split; [apply frames_out|done]. Qed.

Lemma reads_gets {A} (f : state -> A) :
  (forall s v st, f (with_subs s (with_vmCount v st)) = f st) -> reads (gets f).
Proof.
  intros Hf. split; [apply frames_gets; apply _|].
  intros st a s1 [= <- <-] s2 [E _]. unfold gets. by rewrite E, Hf.
Qed.

Lemma reads_bind {A B} (m : M A) (f : A -> M B) :
  reads m -> (forall a, reads (f a)) -> reads (bind m f).
Proof.
  intros [Fm Sm] Hf. split.
  - apply frames_bind; [apply _|done|]. intros a. apply Hf.
  - intros st b s2 E s3 Hle.
    apply bind_Ret_inv in E as (a & s1 & E1 & E2).
    destruct (Hf a) as [Ff Sf].
    rewrite (bind_Ret _ _ _ a s3).
    + by eapply Sf.
    + eapply Sm; [done|]. etrans; [|done]. by eapply frames_Ret.
Qed.

Lemma reads_when (b : bool) (m : M unit) : reads m -> reads (when b m).
Proof. destruct b; [done|]. intros _. apply reads_ret. Qed.

Lemma reads_depend d : reads (depend d).
Proof.
  split; [apply depend_frames|].
  intros st [] s1 E s2 [E2 M2].
  destruct (depend_spec d st) as (s1' & E' & [E1 M1] & Hin & _).
  rewrite E in E'. injection E' as <-.
  unfold depend. destruct (target s2) as [w|] eqn:Ht; [|done].
  unfold addDep. rewrite bool_decide_true; [done|].
  apply M2, Hin. rewrite E2, E1 in Ht. exact Ht.
Qed.

Ltac reads_step :=
  lazymatch goal with
  | |- reads (ret _) => apply reads_ret
  | |- reads (throw _) => apply reads_throw
  | |- reads (gets _) => apply reads_gets; reflexivity
  | |- reads (depend _) => apply reads_depend
  | |- reads (fun _ => OutOfFuel) => apply reads_out
  | |- reads (bind _ _) => apply reads_bind; [|intros ?]
  | |- reads (when _ _) => apply reads_when
  | |- reads (if ?b then _ else _) => destruct b
  | |- reads (match ?x with _ => _ end) => destruct x
  end.

Ltac reads_hyp :=
  match goal with
  | Hf : context [reads _] |- reads _ => solve [apply Hf]
  end.

Ltac reads_auto := repeat (first [reads_hyp | reads_step]).

Section Getters.

Context (dA : nat -> M unit) (HdA : forall l, reads (dA l)).

Lemma call_getter_reads g : reads (call_getter dA g).
Proof using HdA.
  induction g using getter_fn_induction; simpl; reads_auto.
Qed.

Lemma get_prop_reads l key : reads (get_prop dA l key).
Proof using HdA.
  pose proof call_getter_reads. unfold get_prop. reads_auto.
Qed.

Lemma get_member_reads v key : reads (get_member dA v key).
Proof using HdA.
  pose proof get_prop_reads. destruct v; simpl; reads_auto.
Qed.

Lemma dependArray_elem_reads e : reads (dependArray_elem dA e).
Proof using HdA.
  pose proof get_member_reads. unfold dependArray_elem. reads_auto.
Qed.

Lemma dependArray_loop_reads value i n : reads (dependArray_loop dA value i n).
Proof using HdA.
  pose proof dependArray_elem_reads.
  revert i. induction n; intros i; simpl; reads_auto.
Qed.

Lemma dependArray_body_reads value : reads (dependArray_body dA value).
Proof using HdA.
  pose proof dependArray_loop_reads. unfold dependArray_body. reads_auto.
Qed.

End Getters.

Lemma dependArray_reads fuel l : reads (dependArray fuel l).
Proof.
  revert l. induction fuel; intros l; simpl; [apply reads_out|].
  by apply dependArray_body_reads.
Qed.

Lemma getter_reads fuel g : reads (call_getter (dependArray fuel) g).
Proof. apply call_getter_reads, dependArray_reads. Qed.

Lemma prop_reads fuel l key : reads (get_prop (dependArray fuel) l key).
Proof. apply get_prop_reads, dependArray_reads. Qed.

Lemma member_reads fuel v key : reads (get_member (dependArray fuel) v key).
Proof. apply get_member_reads, dependArray_reads. Qed.

Lemma subs_le_heap st st' : subs_le st st' -> heap st' = heap st.
Proof. intros [E _]. by rewrite E. Qed.
Lemma subs_le_target st st' : subs_le st st' -> target st' = target st.
Proof. intros [E _]. by rewrite E. Qed.
Lemma subs_le_clos st st' : subs_le st st' -> clos st' = clos st.
Proof. intros [E _]. by rewrite E. Qed.
Lemma subs_le_log st st' : subs_le st st' -> log st' = log st.
Proof. intros [E _]. by rewrite E. Qed.
Lemma subs_le_mono st st' d w :
  subs_le st st' -> w ∈ subs_of d st -> w ∈ subs_of d st'.
Proof. intros [_ Hm]. apply Hm. Qed.

(** With no active watcher a getter returns and changes nothing. *)
Lemma getter_no_target dA g st :
  target st = None -> exists v, call_getter dA g st = Ret v st.
Proof.
  intros Ht. induction g as [c|k obj dep|k obj dep g IH]
    using getter_fn_induction; simpl.
  - by eexists.
  - unfold bind, gets. rewrite Ht. by eexists.
  - destruct IH as (v & E). unfold bind, gets. rewrite E, Ht. by eexists.
Qed.

Lemma get_prop_data dA l key st v e w c :
  get_own l key st = Some (PData v e w c) -> get_prop dA l key st = Ret v st.
Proof. intros E. unfold get_prop, bind, gets. by rewrite E. Qed.

Lemma get_prop_absent dA l key st :
  get_own l key st = None -> get_prop dA l key st = Ret VUndef st.
Proof. intros E. unfold get_prop, bind, gets. by rewrite E. Qed.

Lemma get_prop_accessor dA l key st g s e c :
  get_own l key st = Some (PAccessor (Some g) s e c) ->
  get_prop dA l key st = call_getter dA g st.
Proof. intros E. unfold get_prop, bind, gets. by rewrite E. Qed.

(** ** dependArray *)

Lemma slot_ok_heap st st' e : heap st' = heap st -> slot_ok st' e = slot_ok st e.
Proof. intros E. destruct e; try done. unfold slot_ok, get_own. by rewrite E. Qed.

Lemma isArray_heap st st' e : heap st' = heap st -> isArray e st' = isArray e st.
Proof. intros E. unfold isArray, kind_of. by rewrite E. Qed.

Lemma elems_ok_heap n st st' l :
  heap st' = heap st -> elems_ok n st' l = elems_ok n st l.
Proof.
  intros E. revert l. induction n as [|n IH]; intros l; [done|]. simpl.
  rewrite E. destruct (heap st !! l) as [o|]; [|done].
  induction (o_elems o) as [|e es IHes]; [done|]. simpl.
  rewrite IHes, (slot_ok_heap st st') by done.
  destruct e; try done. by rewrite (isArray_heap st st'), IH.
Qed.

Lemma elem_dep_heap st st' l d :
  heap st' = heap st -> elem_dep st l d -> elem_dep st' l d.
Proof.
  intros E. induction 1.
  - eapply elem_dep_here; [by rewrite E|done|]. unfold get_own in *. by rewrite E.
  - eapply elem_dep_nested; [by rewrite E|done| |done].
    by rewrite (isArray_heap st st').
Qed.

Section DependArray.

Context (w : nat) (dA : nat -> M unit) (ok : nat -> state -> bool).
Context (ok_heap : forall l st st', heap st' = heap st -> ok l st' = ok l st).
Context (HdA : forall l st, ok l st = true -> target st = Some w ->
  exists st', dA l st = Ret tt st' /\ subs_le st st'
              /\ forall d, elem_dep st l d -> w ∈ subs_of d st').

Lemma elem_ok_heap st st' e : heap st' = heap st -> elem_ok ok st' e = elem_ok ok st e.
Proof using ok_heap.
  intros E. unfold elem_ok. rewrite (slot_ok_heap st st') by done. f_equal.
  destruct e; try done. rewrite (isArray_heap st st') by done.
  by rewrite (ok_heap _ st st').
Qed.

Lemma forallb_elem_ok_heap st st' es :
  heap st' = heap st -> forallb (elem_ok ok st') es = forallb (elem_ok ok st) es.
Proof using ok_heap.
  intros E. induction es as [|e es IH]; [done|]. simpl.
  by rewrite IH, (elem_ok_heap st st').
Qed.

Lemma dependArray_elem_spec e st :
  elem_ok ok st e = true -> target st = Some w ->
  exists st', dependArray_elem dA e st = Ret tt st' /\ subs_le st st'
    /\ (forall le o v d en wr c, e = VRef le ->
          get_own le "__ob__" st = Some (PData (VObserver o v d) en wr c) ->
          w ∈ subs_of d st')
    /\ (forall l' d, e = VRef l' -> isArray e st = true ->
          elem_dep st l' d -> w ∈ subs_of d st').
Proof using HdA ok_heap.
  intros Hok Ht. unfold elem_ok in Hok. apply andb_true_iff in Hok as [Hs Hn].
  (* the first statement: e && e.__ob__ && e.__ob__.dep.depend() *)
  assert (exists st1,
    (if truthy e then
       ob <- get_member dA e "__ob__" ;;
       if truthy ob then
         ob' <- get_member dA e "__ob__" ;;
         match ob' with
         | VObserver _ _ d => depend d
         | VUndef | VNull => throw "TypeError: Cannot read properties of undefined or null"
         | _ => throw "TypeError: e.__ob__.dep is undefined"
         end
       else ret tt
     else ret tt) st = Ret tt st1 /\ subs_le st st1
    /\ (forall le o v d en wr c, e = VRef le ->
          get_own le "__ob__" st = Some (PData (VObserver o v d) en wr c) ->
          w ∈ subs_of d st1)) as (st1 & E1 & Hle1 & Hin1).
  { destruct e; simpl; try (by (exists st; split; [try done; by repeat case_match|];
                                 split; [apply subs_le_refl|done])).
    simpl in Hs.
    destruct (get_own l "__ob__" st) as [[v en wr c|? ? ? ?]|] eqn:Eo; [| done |].
    - destruct v; try done.
      rewrite (bind_Ret _ _ _ _ _ (get_prop_data _ _ _ _ _ _ _ _ Eo)). simpl.
      rewrite (bind_Ret _ _ _ _ _ (get_prop_data _ _ _ _ _ _ _ _ Eo)).
      destruct (depend_spec dep st) as (st1 & E & Hle & Hin & _).
      exists st1. split; [done|]. split; [done|].
      intros ??????? [= <-] ?. simplify_eq. by apply Hin.
    - rewrite (bind_Ret _ _ _ _ _ (get_prop_absent _ _ _ _ Eo)). simpl.
      exists st. split; [done|]. split; [apply subs_le_refl|].
      intros ??????? [= <-]. by rewrite Eo. }
  pose proof (subs_le_heap _ _ Hle1) as Eh.
  unfold dependArray_elem. rewrite (bind_Ret _ _ _ _ _ E1).
  unfold bind, gets. rewrite (isArray_heap st st1) by done.
  destruct e as [| | | | | |l'| |];
    try (exists st1; split; [done|]; split; [done|]; split; [done|done]).
  destruct (isArray (VRef l') st) eqn:Ea; simpl.
  - destruct (HdA l' st1) as (st2 & E2 & Hle2 & Hin2).
    { by rewrite (ok_heap l' st st1). }
    { by rewrite (subs_le_target _ _ Hle1). }
    exists st2. split; [done|]. split; [by etrans|]. split.
    + intros. eapply subs_le_mono; [done|]. by eapply Hin1.
    + intros ? d [= <-] _ Hd. apply Hin2. by apply (elem_dep_heap st).
  - exists st1. split; [done|]. split; [done|]. split; [done|]. by intros.
Qed.

Lemma dependArray_loop_spec value o n : forall i st,
  heap st !! value = Some o ->
  i + n = length (o_elems o) ->
  forallb (elem_ok ok st) (drop i (o_elems o)) = true ->
  target st = Some w ->
  exists st', dependArray_loop dA value i n st = Ret tt st' /\ subs_le st st'
    /\ (forall le ob v d en wr c, VRef le ∈ drop i (o_elems o) ->
          get_own le "__ob__" st = Some (PData (VObserver ob v d) en wr c) ->
          w ∈ subs_of d st')
    /\ (forall l' d, VRef l' ∈ drop i (o_elems o) -> isArray (VRef l') st = true ->
          elem_dep st l' d -> w ∈ subs_of d st').
Proof using HdA ok_heap.
  induction n as [|n IH]; intros i st Ho Hlen Hall Ht.
  - exists st. split; [done|]. split; [apply subs_le_refl|].
    rewrite drop_ge by lia. split; intros; set_solver.
  - destruct (lookup_lt_is_Some_2 (o_elems o) i) as [e Ee]; [lia|].
    rewrite (drop_S _ _ _ Ee) in *. simpl in Hall.
    apply andb_true_iff in Hall as [He Hrest].
    destruct (dependArray_elem_spec e st He Ht) as (st1 & E1 & Hle1 & Hs1 & Hn1).
    pose proof (subs_le_heap _ _ Hle1) as Eh.
    destruct (IH (S i) st1) as (st2 & E2 & Hle2 & Hs2 & Hn2).
    + by rewrite Eh.
    + lia.
    + by rewrite (forallb_elem_ok_heap st st1).
    + by rewrite (subs_le_target _ _ Hle1).
    + exists st2. split.
      { simpl. unfold bind at 1. unfold gets at 1. rewrite Ho, Ee. simpl.
        unfold bind at 1. by rewrite E1. }
      split; [by etrans|]. split.
      * intros le ob v d en wr c Hin Hg. apply elem_of_cons in Hin as [<-|Hin].
        -- eapply subs_le_mono; [done|]. by eapply Hs1.
        -- eapply Hs2; [done|]. unfold get_own in *. by rewrite Eh.
      * intros l' d Hin Ha Hd. apply elem_of_cons in Hin as [<-|Hin].
        -- eapply subs_le_mono; [done|]. by eapply Hn1.
        -- eapply Hn2; [done| |by apply (elem_dep_heap st)].
           by rewrite (isArray_heap st st1).
Qed.

End DependArray.

Lemma dependArray_spec (w : nat) (n : nat) : forall l st,
  elems_ok n st l = true -> target st = Some w ->
  exists st', dependArray n l st = Ret tt st' /\ subs_le st st'
    /\ forall d, elem_dep st l d -> w ∈ subs_of d st'.
Proof.
  induction n as [|n IH]; intros l st Hok Ht; [done|].
  simpl in *. unfold dependArray_body, bind, gets.
  destruct (heap st !! l) as [o|] eqn:Ho.
  - destruct (dependArray_loop_spec w (dependArray n) (fun l st => elems_ok n st l)
                (fun l st st' => elems_ok_heap n st st' l) IH l o
                (length (o_elems o)) 0 st)
      as (st' & E & Hle & Hs & Hn); [done|done|done|done|].
    exists st'. split; [done|]. split; [done|].
    intros d Hd. inversion Hd; simplify_eq.
    + by eapply Hs.
    + by eapply Hn.
  - exists st. split; [done|]. split; [apply subs_le_refl|].
    intros d Hd. inversion Hd; simplify_eq.
Qed.

(** ** What observe changes *)

Lemma grows_refl st : grows st st.
Proof. split; try done. intros l Hl. by left. Qed.

Lemma shape_kind st st' v :
  (forall l, shape <$> heap st' !! l = shape <$> heap st !! l) ->
  kind_of v st' = kind_of v st.
Proof.
  intros G. destruct v; try done. simpl.
  pose proof (G l) as Hs. unfold shape in Hs.
  destruct (heap st' !! l), (heap st !! l); simpl in *; [|done..].
  injection Hs as ? ? ?. congruence.
Qed.

Lemma grows_kind st st' v : grows st st' -> kind_of v st' = kind_of v st.
Proof. intros G. apply shape_kind, G. Qed.

Lemma grows_isVNode st st' v : grows st st' -> isVNode v st' = isVNode v st.
Proof. intros G. unfold isVNode. by rewrite (grows_kind st st'). Qed.

Lemma grows_isArray st st' v : grows st st' -> isArray v st' = isArray v st.
Proof. intros G. unfold isArray. by rewrite (grows_kind st st'). Qed.

Lemma grows_isPlainObject st st' v :
  grows st st' -> isPlainObject v st' = isPlainObject v st.
Proof. intros G. unfold isPlainObject. by rewrite (grows_kind st st'). Qed.

Lemma grows_isExtensible st st' v :
  grows st st' -> isExtensible v st' = isExtensible v st.
Proof.
  intros G. destruct v; try done. simpl.
  pose proof (g_shape _ _ G l) as Hs. unfold shape in Hs.
  destruct (heap st' !! l), (heap st !! l); simpl in *; [|done..].
  injection Hs as ? ? ?. congruence.
Qed.

Lemma grows_elems st st' l o :
  grows st st' -> heap st !! l = Some o ->
  exists o', heap st' !! l = Some o' /\ o_elems o' = o_elems o.
Proof.
  intros G Ho. pose proof (g_shape _ _ G l) as Hs. unfold shape in Hs.
  rewrite Ho in Hs. destruct (heap st' !! l) as [o'|]; [|done].
  injection Hs as ? ? ?. by exists o'.
Qed.

Global Instance grows_preorder : PreOrder grows.
Proof.
  split; [exact grows_refl|].
  intros x y z G1 G2.
  destruct G1 as [s1 h1 c1 t1 o1 l1 n1 k1 y1 b1] eqn:E1.
  destruct G2 as [s2 h2 c2 t2 o2 l2 n2 k2 y2 b2] eqn:E2.
  split; [auto|intros l; by rewrite h2|congruence..|lia| | |].
  - intros k Hk. rewrite k2 by lia. by apply k1.
  - intros l key Hne Hor. rewrite y2; [by apply y1|done|].
    by rewrite (grows_isArray x y).
  - intros l Hl. destruct (b1 l Hl) as [Hn|Hs]; [by apply b2|].
    right. destruct Hs as [ob Hs]. exists ob. by apply s2.
Qed.

Lemma frames_weaken {A} (R R' : state -> state -> Prop) (m : M A) :
  (forall st st', R st st' -> R' st st') -> frames R m -> frames R' m.
Proof.
  intros HR Hm st. specialize (Hm st). destruct (m st); auto.
Qed.

(** A step that leaves the heap alone. *)
Lemma same_heap_grows st st' :
  heap st' = heap st -> cells st' = cells st -> target st' = target st ->
  shouldObserve st' = shouldObserve st -> log st' = log st ->
  next_cid st <= next_cid st' ->
  (forall k, k < next_cid st -> clos st' !! k = clos st !! k) ->
  grows st st'.
Proof.
  intros Eh ??????. split; try done.
  - intros l ob. unfold ob_slot, get_own. by rewrite Eh.
  - intros l. by rewrite Eh.
  - intros l key _ _. unfold get_own. by rewrite Eh.
  - intros l Hl. left. unfold get_own in *. by rewrite Eh.
Qed.

Lemma subs_le_grows st st' : subs_le st st' -> grows st st'.
Proof. intros [E _]. rewrite E. by apply same_heap_grows. Qed.

Lemma reads_grows {A} (m : M A) : reads m -> frames grows m.
Proof.
  intros [F _]. eapply frames_weaken; [apply subs_le_grows|done].
Qed.

Lemma new_Dep_grows : frames grows new_Dep.
Proof. intros st. by apply same_heap_grows. Qed.

Lemma alloc_closure_grows v c : frames grows (alloc_closure v c).
Proof.
  intros st. apply same_heap_grows; simpl; try done; [lia|].
  intros k Hk. apply lookup_insert_ne. lia.
Qed.

Lemma lookup_store_prop_eq ps key p :
  lookup_prop (store_prop ps key p) key = Some p.
Proof.
  induction ps as [|[k q] ps IH]; simpl.
  - by rewrite String.eqb_refl.
  - destruct (String.eqb k key) eqn:E; simpl; by rewrite E.
Qed.

Lemma lookup_store_prop_ne ps key p key' :
  key <> key' -> lookup_prop (store_prop ps key p) key' = lookup_prop ps key'.
Proof.
  intros Hne. induction ps as [|[k q] ps IH]; simpl.
  - by apply String.eqb_neq in Hne as ->.
  - destruct (String.eqb k key) eqn:E; simpl.
    + apply String.eqb_eq in E as ->. by apply String.eqb_neq in Hne as ->.
    + by rewrite IH.
Qed.

Lemma lookup_remove_prop_ne ps key key' :
  key <> key' -> lookup_prop (remove_prop ps key) key' = lookup_prop ps key'.
Proof.
  intros Hne. induction ps as [|[k q] ps IH]; simpl; [done|].
  destruct (String.eqb k key) eqn:E; simpl.
  - apply String.eqb_eq in E as ->. by apply String.eqb_neq in Hne as ->.
  - by rewrite IH.
Qed.

Lemma lookup_remove_prop_eq ps key : lookup_prop (remove_prop ps key) key = None.
Proof.
  induction ps as [|[k q] ps IH]; simpl; [done|].
  destruct (String.eqb k key) eqn:E; simpl; [done|by rewrite E].
Qed.

Lemma get_own_with_props l o ps st key :
  get_own l key (with_heap (<[l := with_props ps o]> (heap st)) st)
  = lookup_prop ps key.
Proof. unfold get_own. simpl. by rewrite lookup_insert_eq. Qed.

Lemma get_own_with_props_ne l l' o st key :
  l' <> l ->
  get_own l' key (with_heap (<[l := o]> (heap st)) st) = get_own l' key st.
Proof. intros Hne. unfold get_own. simpl. by rewrite lookup_insert_ne. Qed.

(** Storing one named property of one object. *)
Lemma store_prop_grows l o key p st :
  heap st !! l = Some o ->
  (key = "__ob__" -> ob_slot l st = None /\ exists o' v d e w c, p = PData (VObserver o' v d) e w c) ->
  (key <> "__ob__" ->
   is_Some (lookup_prop (o_props o) key)
   \/ (isArray (VRef l) st = true /\ is_method_name key = true)) ->
  grows st (with_heap (<[l := with_props (store_prop (o_props o) key p) o]> (heap st)) st).
Proof.
  intros Ho Hob Hkey. split; simpl; try done.
  - intros l' ob. destruct (decide (l' = l)) as [->|Hne].
    + unfold ob_slot. rewrite get_own_with_props.
      destruct (decide (key = "__ob__")) as [->|Hk].
      * destruct (Hob eq_refl) as [Hn _]. unfold ob_slot in Hn. by rewrite Hn.
      * rewrite lookup_store_prop_ne by done. unfold get_own. by rewrite Ho.
    + unfold ob_slot. by rewrite get_own_with_props_ne.
  - intros l'. destruct (decide (l' = l)) as [->|Hne].
    + by rewrite lookup_insert_eq, Ho.
    + by rewrite lookup_insert_ne.
  - intros l' key' Hk' Hor. destruct (decide (l' = l)) as [->|Hne].
    + rewrite get_own_with_props. unfold get_own at 1. rewrite Ho.
      destruct (decide (key = key')) as [<-|Hkk].
      * rewrite lookup_store_prop_eq.
        destruct (Hkey Hk') as [[q Hq]|[Ha Hm]].
        -- by rewrite Hq.
        -- destruct Hor; congruence.
      * by rewrite lookup_store_prop_ne.
    + by rewrite get_own_with_props_ne.
  - intros l' Hl'. destruct (decide (l' = l)) as [->|Hne].
    + destruct (decide (key = "__ob__")) as [->|Hk].
      * right. destruct (Hob eq_refl) as (_ & o' & v & d & e & w & c & ->).
        unfold ob_slot. rewrite get_own_with_props, lookup_store_prop_eq. by eexists.
      * left. rewrite get_own_with_props, lookup_store_prop_ne by done.
        unfold get_own in Hl'. by rewrite Ho in Hl'.
    + left. by rewrite get_own_with_props_ne.
Qed.

Lemma keeps_bind {A B} R st0 (m : M A) (f : A -> M B) st :
  keeps R st0 m st ->
  (forall a st1, m st = Ret a st1 -> R st0 st1 -> keeps R st0 (f a) st1) ->
  keeps R st0 (bind m f) st.
Proof.
  unfold keeps, bind. intros Hm Hf.
  destruct (m st) as [a st1|e st1|]; [|done..]. by apply Hf.
Qed.

Lemma keeps_frames {A} R `{!PreOrder R} st0 (m : M A) st :
  frames R m -> R st0 st -> keeps R st0 m st.
Proof.
  intros Hm HR. specialize (Hm st). unfold keeps.
  destruct (m st); [by etrans|by etrans|done].
Qed.

Lemma keeps_from {A} R `{!PreOrder R} st0 (m : M A) st :
  R st0 st -> keeps R st m st -> keeps R st0 m st.
Proof.
  unfold keeps. intros HR Hm. destruct (m st); [by etrans|by etrans|done].
Qed.

Lemma keeps_ret {A} R st0 (a : A) st : R st0 st -> keeps R st0 (ret a) st.
Proof. done. Qed.

Lemma keeps_gets {A B} R st0 (g : state -> A) (f : A -> M B) st :
  keeps R st0 (f (g st)) st -> keeps R st0 (bind (gets g) f) st.
Proof. done. Qed.

Lemma keeps_self {A} R (m : M A) : (forall st, keeps R st m st) -> frames R m.
Proof. done. Qed.

Lemma defineProperty_keeps st0 l key p st :
  grows st0 st -> key <> "__ob__" ->
  is_Some (get_own l key st)
  \/ (isArray (VRef l) st = true /\ is_method_name key = true) ->
  keeps grows st0 (defineProperty l key p) st.
Proof.
  intros G Hne Hkey. unfold keeps, defineProperty.
  destruct (heap st !! l) as [o|] eqn:Ho; [|done].
  assert (grows st0 (with_heap (<[l := with_props (store_prop (o_props o) key p) o]> (heap st)) st)).
  { etrans; [done|]. apply store_prop_grows; [done..|].
    intros _. unfold get_own in Hkey. by rewrite Ho in Hkey. }
  destruct (lookup_prop (o_props o) key) as [q|].
  - by destruct (prop_configurable q).
  - by destruct (o_extensible o).
Qed.

Lemma protoAugment_grows l : frames grows (protoAugment l).
Proof.
  intros st. unfold protoAugment.
  destruct (heap st !! l) as [o|] eqn:Ho; [|apply grows_refl].
  assert (forall key, get_own l key (with_heap (<[l := with_augmented true o]> (heap st)) st)
                      = get_own l key st) as Hsame.
  { intros key. unfold get_own. simpl. by rewrite lookup_insert_eq, Ho. }
  split; simpl; try done.
  - intros l' ob. unfold ob_slot. destruct (decide (l' = l)) as [->|Hne].
    + by rewrite Hsame.
    + by rewrite get_own_with_props_ne.
  - intros l'. destruct (decide (l' = l)) as [->|Hne].
    + by rewrite lookup_insert_eq, Ho.
    + by rewrite lookup_insert_ne.
  - intros l' key _ _. destruct (decide (l' = l)) as [->|Hne].
    + by rewrite Hsame.
    + by rewrite get_own_with_props_ne.
  - intros l' Hl'. left. destruct (decide (l' = l)) as [->|Hne].
    + by rewrite Hsame.
    + by rewrite get_own_with_props_ne.
Qed.

Lemma method_name_not_ob m : method_name m <> "__ob__".
Proof. by destruct m. Qed.

Lemma method_name_is_method m : is_method_name (method_name m) = true.
Proof. by destruct m. Qed.

Lemma copyAugment_keeps st0 l keys st :
  grows st0 st -> isArray (VRef l) st = true ->
  keeps grows st0 (copyAugment l keys) st.
Proof.
  revert st. induction keys as [|key keys IH]; intros st G Ha; simpl; [done|].
  apply keeps_bind.
  - apply defineProperty_keeps; [done|apply method_name_not_ob|].
    right. split; [done|apply method_name_is_method].
  - intros [] st1 E G1. apply IH; [done|].
    rewrite <- Ha, (grows_isArray st0 st1), (grows_isArray st0 st); done.
Qed.

Lemma object_keys_enumerable o key :
  key ∈ object_keys o -> enumerable_at (o_props o) key = true.
Proof. unfold object_keys. rewrite list_elem_of_filter. by intros [? _]. Qed.

Section ObserveFrames.

Context (H : host) (dA : nat -> M unit) (obs : val -> M val).
Context (HdA : forall l, reads (dA l)) (Hobs : forall v, frames grows (obs v)).

Lemma get_prop_grows l key : frames grows (get_prop dA l key).
Proof using HdA. by apply reads_grows, get_prop_reads. Qed.

Lemma get_member_grows v key : frames grows (get_member dA v key).
Proof using HdA. by apply reads_grows, get_member_reads. Qed.

(** [defineReactive] on a key that the object has. *)
Lemma defineReactive_body_keeps obj key v cs sh st :
  key <> "__ob__" ->
  is_Some (get_own obj key st) -> isArray (VRef obj) st = false ->
  keeps grows st (defineReactive_body dA obs obj key v cs sh) st.
Proof using HdA Hobs.
  intros Hne Hkey Ha. unfold defineReactive_body.
  apply keeps_bind;
    [by apply keeps_frames; [apply _|apply new_Dep_grows|apply grows_refl]|].
  intros dep st1 _ G1. apply keeps_gets.
  destruct (match get_own obj key st1 with
            | Some p => negb (prop_configurable p)
            | None => false
            end); [done|].
  apply keeps_bind.
  { destruct (_ && _); [|done].
    by apply keeps_frames; [apply _|apply get_prop_grows|]. }
  intros v' st2 _ G2. apply keeps_bind.
  { destruct sh; [done|]. by apply keeps_frames; [apply _|apply Hobs|]. }
  intros c st3 _ G3. apply keeps_bind.
  { by apply keeps_frames; [apply _|apply alloc_closure_grows|]. }
  intros k st4 _ G4. apply defineProperty_keeps; [done..|]. left.
  destruct (get_own obj key st4) eqn:E4; [done|].
  apply (g_keys _ _ G4) in E4; [|done|by left].
  rewrite E4 in Hkey. by destruct Hkey.
Qed.

Lemma walk_keys_keeps obj keys st :
  Forall (fun key => key <> "__ob__" /\ is_Some (get_own obj key st)) keys ->
  isArray (VRef obj) st = false ->
  keeps grows st (walk_keys dA obs obj keys) st.
Proof using HdA Hobs.
  revert st. induction keys as [|key keys IH]; intros st Hall Ha; simpl;
    [apply grows_refl|].
  apply Forall_cons in Hall as [[Hne Hk] Hall].
  apply keeps_bind; [by apply defineReactive_body_keeps|].
  intros [] st1 _ G1. apply keeps_from; [apply _|done|]. apply IH.
  - eapply Forall_impl; [exact Hall|]. intros key' [Hne' Hk']. split; [done|].
    destruct (get_own obj key' st1) eqn:E1; [done|].
    apply (g_keys _ _ G1) in E1; [|done|by left].
    rewrite E1 in Hk'. by destruct Hk'.
  - by rewrite (grows_isArray st st1).
Qed.

Lemma walk_body_keeps obj st :
  (forall o, heap st !! obj = Some o -> enumerable_at (o_props o) "__ob__" = false) ->
  isArray (VRef obj) st = false ->
  keeps grows st (walk_body dA obs obj) st.
Proof using HdA Hobs.
  intros Hen Ha. unfold walk_body. apply keeps_gets.
  apply walk_keys_keeps; [|done].
  destruct (heap st !! obj) as [o|] eqn:Ho; [|done].
  apply Forall_forall. intros key Hin.
  apply object_keys_enumerable in Hin. split.
  - intros ->. by rewrite (Hen o eq_refl) in Hin.
  - unfold get_own. rewrite Ho. unfold enumerable_at in Hin.
    by destruct (lookup_prop (o_props o) key).
Qed.

Lemma observeArray_body_grows items : frames grows (observeArray_body obs items).
Proof using Hobs.
  induction items; simpl; frames_auto.
Qed.

(** [new Observer (value)] on an object that carries no back-reference. *)
Lemma new_Observer_body_spec l st :
  ob_slot l st = None ->
  match new_Observer_body H dA obs l st with
  | Ret ob st' =>
      grows st st' /\ ob_slot l st' = Some ob /\ exists o d, ob = VObserver o l d
  | Raise _ st' => grows st st'
  | OutOfFuel => True
  end.
Proof using HdA Hobs.
  intros Hslot.
  set (st2 := with_vmCount (<[next_ob st := 0]> (vmCount st))
                (with_next_ob (S (next_ob st))
                   (with_subs (<[uid st := []]> (subs st)) (with_uid (S (uid st)) st)))).
  set (this := VObserver (next_ob st) l (uid st)).
  assert (G2 : grows st st2) by (by apply same_heap_grows).
  unfold new_Observer_body. unfold bind at 1. simpl. unfold bind at 1. simpl.
  fold st2. fold this.
  unfold bind at 1. unfold def, defineProperty.
  change (heap st2) with (heap st).
  destruct (heap st !! l) as [o|] eqn:Ho; [|done].
  set (st3 := with_heap (<[l := with_props (store_prop (o_props o) "__ob__"
                                              (PData this false true true)) o]> (heap st2)) st2).
  assert (G3 : grows st2 st3).
  { apply store_prop_grows; [done| |done]. intros _. split; [done|].
    by eexists _, _, _, _, _, _. }
  assert (S3 : get_own l "__ob__" st3 = Some (PData this false true true)).
  { unfold st3. rewrite get_own_with_props. apply lookup_store_prop_eq. }
  cut (match
          (isArr <- gets (isArray (VRef l)) ;;
           (if isArr then
              (if hasProto H then protoAugment l else copyAugment l arrayKeys) ;;;
              items <- gets (fun st => match heap st !! l with
                                       | Some o => o_elems o
                                       | None => []
                                       end) ;;
              observeArray_body obs items
            else walk_body dA obs l) ;;;
           ret this) st3
        with
        | Ret ob st' =>
            grows st st' /\ ob_slot l st' = Some ob /\ exists o d, ob = VObserver o l d
        | Raise _ st' => grows st st'
        | OutOfFuel => True
        end).
  { intros Hrest.
    destruct (lookup_prop (o_props o) "__ob__") as [q|].
    - destruct (prop_configurable q); [exact Hrest|done].
    - destruct (o_extensible o); [exact Hrest|done]. }
  assert (F : keeps grows st3
                (if isArray (VRef l) st3 then
                   (if hasProto H then protoAugment l else copyAugment l arrayKeys) ;;;
                   items <- gets (fun st => match heap st !! l with
                                            | Some o => o_elems o
                                            | None => []
                                            end) ;;
                   observeArray_body obs items
                 else walk_body dA obs l) st3).
  { destruct (isArray (VRef l) st3) eqn:Ea.
    - apply keeps_bind.
      + destruct (hasProto H).
        * apply keeps_frames; [apply _|apply protoAugment_grows|apply grows_refl].
        * apply copyAugment_keeps; [apply grows_refl|done].
      + intros [] st4 _ G4. apply keeps_gets.
        apply keeps_frames; [apply _|apply observeArray_body_grows|done].
    - apply walk_body_keeps; [|done]. intros o' Ho'.
      unfold get_own in S3. rewrite Ho' in S3.
      unfold enumerable_at. by rewrite S3. }
  unfold keeps in F. unfold bind at 1. unfold gets at 1. unfold bind at 1.
  match type of F with
  | match ?m with _ => _ end => destruct m as [[] st4|e st4|]
  end; [|by do 2 (etrans; [done|])|done].
  simpl. split; [by do 2 (etrans; [done|])|]. split; [|by eexists _, _].
  apply (g_slot _ _ F). unfold ob_slot. by rewrite S3.
Qed.

End ObserveFrames.

(** ** observe, called again *)

Lemma observe_body_stages H dA obs value r st :
  observe_body H dA obs value r st =
  if negb (isObject value) || isVNode value st then Ret VUndef st
  else (ob <- (found <- found_step dA value ;;
               create_step H dA obs value found) ;;
        fun st' => Ret ob (bump r ob st')) st.
Proof.
  unfold observe_body, found_step, create_step, observable, bump,
    bind, gets, ret, modify.
  repeat (case_match; simplify_eq; try done); simpl in *; try done.
Qed.

Lemma create_step_found H dA obs value found :
  is_observer found = true ->
  create_step H dA obs value found = get_member dA value "__ob__".
Proof. by destruct found. Qed.

Lemma create_step_fresh H dA obs value found :
  is_observer found = false ->
  create_step H dA obs value found = create_fresh H dA obs value.
Proof. by destruct found. Qed.

Lemma subs_le_fun {A} (f : state -> A) st st' :
  (forall s v st, f (with_subs s (with_vmCount v st)) = f st) ->
  subs_le st st' -> f st' = f st.
Proof. intros Hf [E _]. by rewrite E, Hf. Qed.

Lemma subs_le_bump r ob st : subs_le st (bump r ob st).
Proof.
  destruct ob; try apply subs_le_refl. simpl.
  destruct r; [|apply subs_le_refl]. split; [by destruct st|done].
Qed.

Lemma ob_slot_found dA l st ob :
  ob_slot l st = Some ob ->
  found_step dA (VRef l) st = Ret ob st /\ is_observer ob = true
  /\ get_member dA (VRef l) "__ob__" st = Ret ob st.
Proof.
  unfold ob_slot, found_step. intros Hs.
  destruct (get_own l "__ob__" st) as [[v e w c|]|] eqn:Eo; try done.
  destruct v; try done. simplify_eq.
  assert (get_member dA (VRef l) "__ob__" st = Ret (VObserver o value dep) st)
    by by apply get_prop_data with e w c.
  split; [|done].
  unfold bind, gets, hasOwn. by rewrite Eo.
Qed.

(** The second read of [value.__ob__] finds what the first one found. *)
Lemma found_step_member dA (HdA : forall l, reads (dA l)) value st found st1 :
  found_step dA value st = Ret found st1 ->
  is_observer found = true ->
  forall s2, subs_le st1 s2 -> get_member dA value "__ob__" s2 = Ret found s2.
Proof.
  unfold found_step, bind, gets. intros E Ho s2 Hle.
  destruct (hasOwn value "__ob__" st).
  - by eapply (proj2 (get_member_reads dA HdA value "__ob__")).
  - unfold ret in E. by simplify_eq.
Qed.

Section ObserveAgain.

Context (H : host) (dA : nat -> M unit) (obs : val -> M val).
Context (HdA : forall l, reads (dA l)) (Hobs : forall v, frames grows (obs v)).

Lemma found_step_reads value : reads (found_step dA value).
Proof using HdA.
  pose proof (get_member_reads dA HdA). unfold found_step. reads_auto.
Qed.

(** Looking for a wrapper and making one if there is none: the state grows,
    and from then on the first stage alone finds the same result, whatever
    has been subscribed in between. *)
Lemma stages_spec value st :
  match (found <- found_step dA value ;; create_step H dA obs value found) st with
  | Ret ob st' =>
      grows st st'
      /\ forall s2 obs', subs_le st' s2 ->
           (found <- found_step dA value ;; create_step H dA obs' value found) s2
           = Ret ob s2
  | Raise _ st' => grows st st'
  | OutOfFuel => True
  end.
Proof using HdA Hobs.
  destruct (found_step_reads value) as [Ff Sf].
  pose proof (Ff st) as Hf. unfold bind at 1.
  destruct (found_step dA value st) as [found st1|e st1|] eqn:Ef;
    [|by apply subs_le_grows|done].
  pose proof (subs_le_grows _ _ Hf) as G1.
  destruct (is_observer found) eqn:Eobs.
  { pose proof (found_step_member _ HdA _ _ _ _ Ef Eobs) as Hm.
    rewrite create_step_found, (Hm st1) by (done || apply subs_le_refl).
    split; [done|].
    intros s2 obs' Hle. rewrite (bind_Ret _ _ _ found s2) by by eapply Sf.
    rewrite create_step_found by done. by apply Hm. }
  rewrite create_step_fresh by done.
  assert (Hnone : forall l, value = VRef l -> ob_slot l st1 = None).
  { intros l ->. destruct (ob_slot l st1) as [ob|] eqn:Es; [|done].
    assert (ob_slot l st = Some ob) as Es0.
    { rewrite <- Es. symmetry. by apply (subs_le_fun (ob_slot l)). }
    apply (ob_slot_found dA) in Es0 as (E' & Ho & _). congruence. }
  assert (Hagain : forall ob st' s2 obs',
    subs_le st1 st' -> subs_le st' s2 ->
    create_fresh H dA obs' value s2 = Ret ob s2 ->
    (found <- found_step dA value ;; create_step H dA obs' value found) s2 = Ret ob s2).
  { intros ob st' s2 obs' Hl1 Hl2 Ec.
    rewrite (bind_Ret _ _ _ found s2); [by rewrite create_step_fresh|].
    eapply Sf; [done|by etrans]. }
  unfold create_fresh at 1. unfold bind at 1. unfold gets at 1.
  destruct (observable H value st1) eqn:Ecan.
  2:{ simpl. split; [done|]. intros s2 obs' Hle.
      eapply Hagain; [reflexivity|done|].
      unfold create_fresh, bind, gets.
      by rewrite (subs_le_fun (observable H value) st1 s2), Ecan. }
  destruct (get_member_reads dA HdA value "_isVue") as [Fv Sv].
  pose proof (Fv st1) as Hv. unfold bind at 1.
  destruct (get_member dA value "_isVue" st1) as [isVue st2|e st2|] eqn:Ev;
    [|by etrans; [|apply subs_le_grows]|done].
  pose proof (subs_le_grows _ _ Hv) as G2.
  assert (Hpre : forall s2, subs_le st2 s2 -> forall obs',
    create_fresh H dA obs' value s2 =
    (if truthy isVue then ret VUndef
     else match value with
          | VRef l => new_Observer_body H dA obs' l
          | _ => ret VUndef
          end) s2).
  { intros s2 Hle obs'. unfold create_fresh, bind, gets.
    rewrite (subs_le_fun (observable H value) st1 s2), Ecan by by etrans.
    by rewrite (Sv _ _ _ Ev s2 Hle). }
  destruct (truthy isVue) eqn:Et.
  { simpl. split; [by etrans|]. intros s2 obs' Hle.
    eapply Hagain; [done..|]. by rewrite Hpre. }
  destruct value as [| | | | | |l| |];
    try (simpl; split; [by etrans|]; intros s2 obs' Hle;
         eapply Hagain; [done..|]; by rewrite Hpre).
  pose proof (new_Observer_body_spec H dA obs HdA Hobs l st2) as Hnew.
  destruct (new_Observer_body H dA obs l st2) as [ob st3|e st3|];
    [|etrans; [|apply Hnew]; [by etrans|]|done].
  2:{ rewrite <- (Hnone l eq_refl). by apply (subs_le_fun (ob_slot l)). }
  destruct Hnew as (G3 & Hs3 & _).
  { rewrite <- (Hnone l eq_refl). by apply (subs_le_fun (ob_slot l)). }
  split; [by do 2 (etrans; [done|])|].
  intros s2 obs' Hle.
  assert (ob_slot l s2 = Some ob) as Hs2.
  { rewrite <- Hs3. by apply (subs_le_fun (ob_slot l)). }
  apply (ob_slot_found dA) in Hs2 as (E' & Ho & Em).
  rewrite (bind_Ret _ _ _ _ _ E'). by rewrite create_step_found.
Qed.

End ObserveAgain.

Lemma bump_grows r ob st : grows st (bump r ob st).
Proof. apply subs_le_grows, subs_le_bump. Qed.

Lemma grows_observable H st st' v :
  grows st st' -> observable H v st' = observable H v st.
Proof.
  intros G. unfold observable.
  by rewrite (g_should _ _ G), (grows_isArray st st'),
    (grows_isPlainObject st st'), (grows_isExtensible st st').
Qed.

Lemma observe_body_spec H dA obs (HdA : forall l, reads (dA l))
    (Hobs : forall v, frames grows (obs v)) value r st :
  match observe_body H dA obs value r st with
  | Ret ob st' =>
      grows st st'
      /\ forall s2 obs' r2, subs_le st' s2 ->
           observe_body H dA obs' value r2 s2 = Ret ob (bump r2 ob s2)
  | Raise _ st' => grows st st'
  | OutOfFuel => True
  end.
Proof.
  rewrite observe_body_stages.
  destruct (negb (isObject value) || isVNode value st) eqn:Eq.
  { simpl. split; [apply grows_refl|]. intros s2 obs' r2 Hle.
    rewrite observe_body_stages.
    by rewrite (grows_isVNode st s2), Eq by by apply subs_le_grows. }
  pose proof (stages_spec H dA obs HdA Hobs value st) as Hst.
  unfold bind at 1.
  destruct ((found <- found_step dA value ;; create_step H dA obs value found) st)
    as [ob st1|e st1|]; [|done..].
  destruct Hst as [G Hag].
  assert (G' : grows st (bump r ob st1)) by (etrans; [done|apply bump_grows]).
  split; [done|].
  intros s2 obs' r2 Hle. rewrite observe_body_stages.
  rewrite (grows_isVNode st s2), Eq by (etrans; [done|by apply subs_le_grows]).
  unfold bind at 1. rewrite (Hag s2 obs'); [done|].
  etrans; [apply subs_le_bump|done].
Qed.

Lemma observe_grows H fuel value r : frames grows (observe H fuel value r).
Proof.
  revert value r. induction fuel as [|n IH]; intros value r st; [done|]. simpl.
  pose proof (observe_body_spec H (dependArray n) (fun v => observe H n v false)
                (dependArray_reads n) (fun v => IH v false) value r st) as Hs.
  destruct (observe_body _ _ _ _ _ _); [by destruct Hs|done..].
Qed.

(** [observe], called again on the value it returned for, with whatever
    has been subscribed in between, returns what it returned. *)
Lemma observe_again H fuel value r st ob st' :
  observe H fuel value r st = Ret ob st' ->
  forall s2 r2, subs_le st' s2 ->
    observe H fuel value r2 s2 = Ret ob (bump r2 ob s2).
Proof.
  destruct fuel as [|n]; [done|]. simpl. intros E s2 r2 Hle.
  pose proof (observe_body_spec H (dependArray n) (fun v => observe H n v false)
                (dependArray_reads n) (fun v => observe_grows H n v false)
                value r st) as Hs.
  rewrite E in Hs. destruct Hs as [_ Hag]. by apply Hag.
Qed.

(** ** defineReactive *)

Lemma defineProperty_Ret l key p st st' :
  defineProperty l key p st = Ret tt st' ->
  get_own l key st' = Some p
  /\ exists o, heap st !! l = Some o
               /\ st' = with_heap (<[l := with_props (store_prop (o_props o) key p) o]> (heap st)) st.
Proof.
  unfold defineProperty. intros E.
  destruct (heap st !! l) as [o|] eqn:Ho; [|done].
  assert (get_own l key (with_heap (<[l := with_props (store_prop (o_props o) key p) o]> (heap st)) st) = Some p) as Hg.
  { unfold get_own. simpl. rewrite lookup_insert_eq. simpl.
    apply lookup_store_prop_eq. }
  destruct (lookup_prop (o_props o) key) as [q|].
  - destruct (prop_configurable q); simplify_eq. eauto.
  - destruct (o_extensible o); simplify_eq. eauto.
Qed.

(** The accessor pair that [defineReactive] leaves on the property. *)
Lemma defineReactive_installs H fuel obj key v cs sh st st' :
  defineReactive H fuel obj key v cs sh st = Ret tt st' ->
  (forall p, get_own obj key st = Some p -> prop_configurable p = true) ->
  exists k dep,
    get_own obj key st' =
    Some (PAccessor
            (Some (GReactive k obj dep (get_own obj key st ≫= prop_get)))
            (Some (SReactive k obj dep (get_own obj key st ≫= prop_get)
                             (get_own obj key st ≫= prop_set) cs sh))
            true true).
Proof.
  unfold defineReactive, defineReactive_body. intros E Hc.
  unfold bind at 1 in E. simpl in E. unfold bind at 1 in E. unfold gets at 1 in E.
  change (get_own obj key _) with (get_own obj key st) in E.
  destruct (get_own obj key st) as [p|] eqn:Hp.
  - rewrite (Hc p eq_refl) in E. simpl in E.
    apply bind_Ret_inv in E as (v' & s1 & _ & E).
    apply bind_Ret_inv in E as (c & s2 & _ & E).
    apply bind_Ret_inv in E as (k & s3 & _ & E).
    apply defineProperty_Ret in E as [E _]. by eexists _, _.
  - apply bind_Ret_inv in E as (v' & s1 & _ & E).
    apply bind_Ret_inv in E as (c & s2 & _ & E).
    apply bind_Ret_inv in E as (k & s3 & _ & E).
    apply defineProperty_Ret in E as [E _]. by eexists _, _.
Qed.

(** ** The custom setter of reactiveSetter *)

Lemma customSetter_step H cs st :
  match cs with
  | Some n => when (negb (production H)) (emit (EvCustomSetter n))
  | None => ret tt
  end st = Ret tt (with_log (log st ++ customSetter_events H cs) st).
Proof.
  destruct cs as [n|]; simpl.
  - destruct (production H); simpl; [|done].
    rewrite app_nil_r. by destruct st.
  - rewrite app_nil_r. by destruct st.
Qed.

(** ** observe makes the wrapper *)

Lemma grows_ob_key_ok st st' l : grows st st' -> ob_key_ok l st -> ob_key_ok l st'.
Proof.
  intros G [Hn|[ob Hs]]; [by apply (g_obkey _ _ G)|].
  right. exists ob. by apply (g_slot _ _ G).
Qed.

Lemma grows_isVue_absent st st' l :
  grows st st' -> get_own l "_isVue" st = None -> get_own l "_isVue" st' = None.
Proof. intros G Hn. apply (g_keys _ _ G); [done|by right|done]. Qed.

(** An extensible array or plain object that is not a Vue instance, with
    observation on: [observe] returns its Observer, and the object carries
    the back-reference to it. *)
Lemma observe_wraps H fuel l r st ob st' :
  observe H fuel (VRef l) r st = Ret ob st' ->
  observable H (VRef l) st = true ->
  get_own l "_isVue" st = None ->
  ob_key_ok l st ->
  ob_slot l st' = Some ob.
Proof.
  destruct fuel as [|n]; [done|]. simpl. rewrite observe_body_stages.
  intros E Hcan Hvue Hok.
  assert (isVNode (VRef l) st = false) as Hv.
  { unfold observable, isArray, isPlainObject in Hcan. unfold isVNode.
    destruct (kind_of (VRef l) st) as [[]|]; try done;
      rewrite !andb_false_r in Hcan; done. }
  rewrite Hv in E. simpl in E.
  apply bind_Ret_inv in E as (ob' & st1 & E & Ef). simpl in Ef. simplify_eq.
  cut (ob_slot l st1 = Some ob).
  { intros Hs. by apply (g_slot _ _ (bump_grows r ob st1)). }
  destruct Hok as [Hn|[ob0 Hs]].
  - assert (found_step (dependArray n) (VRef l) st = Ret VUndef st) as Ef.
    { unfold found_step, bind, gets, hasOwn. by rewrite Hn. }
    rewrite (bind_Ret _ _ _ _ _ Ef) in E. simpl in E.
    unfold bind at 1, gets at 1 in E. rewrite Hcan in E.
    rewrite (bind_Ret _ _ _ VUndef st) in E by by apply get_prop_absent.
    simpl in E.
    pose proof (new_Observer_body_spec H (dependArray n) (fun v => observe H n v false)
                  (dependArray_reads n) (fun v => observe_grows H n v false) l st) as Hnew.
    rewrite E in Hnew. apply Hnew. unfold ob_slot. by rewrite Hn.
  - destruct (ob_slot_found (dependArray n) l st ob0 Hs) as (Ef & Ho & Em).
    rewrite (bind_Ret _ _ _ _ _ Ef), create_step_found in E by done.
    rewrite Em in E. by simplify_eq.
Qed.

Lemma observeArray_wraps H fuel items st st' :
  observeArray H fuel items st = Ret tt st' ->
  grows st st'
  /\ forall l, VRef l ∈ items ->
       observable H (VRef l) st = true ->
       get_own l "_isVue" st = None ->
       ob_key_ok l st ->
       is_Some (ob_slot l st').
Proof.
  unfold observeArray. revert st.
  induction items as [|e items IH]; intros st E; simpl in E.
  - unfold ret in E. simplify_eq. split; [apply grows_refl|]. intros l Hin. set_solver.
  - apply bind_Ret_inv in E as (ob & st1 & E1 & E2).
    pose proof (frames_Ret _ _ _ _ _ (observe_grows H fuel e false) E1) as G1.
    destruct (IH _ E2) as [G2 Hall]. split; [by etrans|].
    intros l Hin Hcan Hvue Hok. apply elem_of_cons in Hin as [<-|Hin].
    + exists ob. apply (g_slot _ _ G2). by eapply observe_wraps.
    + apply Hall; [done| | |].
      * by rewrite (grows_observable H st st1).
      * by apply (grows_isVue_absent st).
      * by apply (grows_ob_key_ok st).
Qed.

(** No step of [observe] writes an element of an array. *)
Lemma observe_elems H fuel value r st ob st' l o :
  observe H fuel value r st = Ret ob st' ->
  heap st !! l = Some o ->
  exists o', heap st' !! l = Some o' /\ o_elems o' = o_elems o.
Proof.
  intros E. eapply grows_elems. by eapply frames_Ret; [apply observe_grows|].
Qed.

(** ** The intercepted array methods *)


(** ** The closure store *)

Lemma closure_val_insert k v c s st :
  closure_val k (with_clos (<[k := (v, c)]> s) st) = v.
Proof. unfold closure_val. simpl. by rewrite lookup_insert_eq. Qed.

Lemma closure_childOb_insert k v c s st :
  closure_childOb k (with_clos (<[k := (v, c)]> s) st) = c.
Proof. unfold closure_childOb. simpl. by rewrite lookup_insert_eq. Qed.

(** ** set and del on plain objects *)

Global Instance quiet_preorder : PreOrder quiet.
Proof. split; [done|]. intros x y z. unfold quiet. congruence. Qed.





Lemma plain_not_array l o st :
  heap st !! l = Some o -> o_kind o = KPlain -> isArray (VRef l) st = false.
Proof. intros Ho Hk. unfold isArray. simpl. by rewrite Ho; simpl; rewrite Hk. Qed.


Lemma del_object_start {A} H l key st (X Y : bool -> M A) :
  isArray (VRef l) st = false ->
  (when (negb (production H) && (isUndef (VRef l) || isPrimitive (VRef l)))
        (emit (EvWarn "Cannot delete reactive property on undefined, null, or primitive value")) ;;;
   isArr <- gets (isArray (VRef l)) ;;
   if isArr && isValidArrayIndex key then X isArr else Y isArr) st
  = Y false st.
Proof.
  intros Ha. rewrite andb_false_r. simpl. unfold bind, gets, ret. by rewrite Ha.
Qed.

(** * observe returns *)

Lemma same_slots_unobserved st st' :
  dom (heap st') = dom (heap st) ->
  (forall l ob, ob_slot l st = Some ob -> ob_slot l st' = Some ob) ->
  unobserved st' ⊆ unobserved st.
Proof.
  intros Hd Hs l. unfold unobserved. rewrite !elem_of_filter, Hd.
  intros [Hn Hin]. split; [|done].
  destruct (ob_slot l st) as [ob|] eqn:E; [|done].
  apply Hs in E. congruence.
Qed.

Lemma grows_dom st st' : grows st st' -> dom (heap st') = dom (heap st).
Proof.
  intros G. apply set_eq. intros l. rewrite !elem_of_dom.
  pose proof (g_shape _ _ G l) as Hs.
  destruct (heap st' !! l), (heap st !! l); simpl in *; try done;
    split; intros [? ?]; done.
Qed.

Lemma grows_unobserved st st' : grows st st' -> unobserved st' ⊆ unobserved st.
Proof. intros G. apply same_slots_unobserved; [by apply grows_dom|apply G]. Qed.

Lemma returns_bind {A B} n (m : M A) (f : A -> M B) st :
  returns n m st -> (forall a st1, m st = Ret a st1 -> returns n (f a) st1) ->
  returns n (bind m f) st.
Proof.
  unfold returns, bind. intros Hm Hf Ht Hn. specialize (Hm Ht Hn).
  destruct (m st) as [a st1|e st1|]; [|done..].
  destruct Hm as [Ht1 Hn1]. by apply Hf.
Qed.

Lemma returns_grows {A} n (m : M A) st :
  frames grows m -> m st <> OutOfFuel -> returns n m st.
Proof.
  intros Hm Hne Ht Hn. specialize (Hm st).
  destruct (m st) as [a st1|e st1|]; [|done..].
  split; [by rewrite (g_target _ _ Hm)|].
  eapply Nat.le_lt_trans; [|done]. by apply subseteq_size, grows_unobserved.
Qed.

Lemma returns_keeps {A} n (m : M A) st :
  keeps grows st m st -> m st <> OutOfFuel -> returns n m st.
Proof.
  unfold keeps. intros Hm Hne Ht Hn.
  destruct (m st) as [a st1|e st1|]; [|done..].
  split; [by rewrite (g_target _ _ Hm)|].
  eapply Nat.le_lt_trans; [|done]. by apply subseteq_size, grows_unobserved.
Qed.

Lemma returns_ret {A} n (a : A) st : returns n (ret a) st.
Proof. by intros Ht Hn. Qed.

Lemma returns_gets {A B} n (g : state -> A) (f : A -> M B) st :
  returns n (f (g st)) st -> returns n (bind (gets g) f) st.
Proof. done. Qed.

Lemma get_prop_no_target dA l key st :
  target st = None -> exists v, get_prop dA l key st = Ret v st.
Proof.
  intros Ht. unfold get_prop, bind, gets.
  destruct (get_own l key st) as [[v e w c|[g|] s e c]|]; try by eexists.
  by apply getter_no_target.
Qed.

Lemma returns_get_prop n dA l key st : returns n (get_prop dA l key) st.
Proof.
  intros Ht Hn. destruct (get_prop_no_target dA l key st Ht) as [v ->]. done.
Qed.

Lemma returns_get_member n dA v key st : returns n (get_member dA v key) st.
Proof.
  destruct v; try apply returns_ret; try by intros ??.
  apply returns_get_prop.
Qed.

Lemma defineProperty_total l key p st : defineProperty l key p st <> OutOfFuel.
Proof.
  unfold defineProperty. destruct (heap st !! l) as [o|]; [|done].
  destruct (lookup_prop (o_props o) key) as [q|];
    [by destruct (prop_configurable q)|by destruct (o_extensible o)].
Qed.

(** Defining a key other than [__ob__] leaves the set as it is. *)
Lemma returns_defineProperty n l key p st :
  key <> "__ob__" -> returns n (defineProperty l key p) st.
Proof.
  intros Hne Ht Hn. pose proof (defineProperty_total l key p st) as Htot.
  destruct (defineProperty l key p st) as [[] st1|e st1|] eqn:E; [|done..].
  apply defineProperty_Ret in E as (_ & o & Ho & ->). split; [done|].
  eapply Nat.le_lt_trans; [|done]. apply subseteq_size, same_slots_unobserved.
  - simpl. by apply dom_insert_lookup_L.
  - intros l' ob. unfold ob_slot. destruct (decide (l' = l)) as [->|Hl].
    + rewrite get_own_with_props, lookup_store_prop_ne by done.
      unfold get_own. by rewrite Ho.
    + by rewrite get_own_with_props_ne.
Qed.

Section Returns.

Context (H : host) (n : nat) (dA : nat -> M unit) (obs : val -> M val).
Context (HdA : forall l, reads (dA l)).
Context (Hobs : forall v, frames grows (obs v)).
Context (Hret : forall v st, returns n (obs v) st).

Lemma returns_defineReactive_body obj key v cs sh st :
  key <> "__ob__" -> returns n (defineReactive_body dA obs obj key v cs sh) st.
Proof using All.
  intros Hne. unfold defineReactive_body.
  apply returns_bind; [by apply returns_grows; [apply new_Dep_grows|]|].
  intros dep st1 _. apply returns_gets.
  destruct (match get_own obj key st1 with
            | Some p => negb (prop_configurable p)
            | None => false
            end); [apply returns_ret|].
  apply returns_bind.
  { destruct (_ && _); [apply returns_get_prop|apply returns_ret]. }
  intros v' st2 _. apply returns_bind.
  { destruct sh; [apply returns_ret|apply Hret]. }
  intros c st3 _. apply returns_bind.
  { by apply returns_grows; [apply alloc_closure_grows|]. }
  intros k st4 _. by apply returns_defineProperty.
Qed.

Lemma returns_walk_keys obj keys st :
  Forall (fun key => key <> "__ob__") keys ->
  returns n (walk_keys dA obs obj keys) st.
Proof using All.
  intros Hall. revert st. induction Hall as [|key keys Hk _ IH]; intros st; simpl.
  - apply returns_ret.
  - apply returns_bind; [by apply returns_defineReactive_body|]. intros [] st1 _. apply IH.
Qed.

Lemma returns_walk_body obj st :
  (forall o, heap st !! obj = Some o -> enumerable_at (o_props o) "__ob__" = false) ->
  returns n (walk_body dA obs obj) st.
Proof using All.
  intros Hen. unfold walk_body. apply returns_gets. apply returns_walk_keys.
  destruct (heap st !! obj) as [o|]; [|done].
  apply Forall_forall. intros key Hin ->.
  apply object_keys_enumerable in Hin. by rewrite (Hen o eq_refl) in Hin.
Qed.

Lemma returns_observeArray_body items st : returns n (observeArray_body obs items) st.
Proof using All.
  revert st. induction items as [|item items IH]; intros st; simpl.
  - apply returns_ret.
  - apply returns_bind; [apply Hret|]. intros _ st1 _. apply IH.
Qed.

Lemma returns_copyAugment l keys st : returns n (copyAugment l keys) st.
Proof using Type.
  revert st. induction keys as [|key keys IH]; intros st; simpl.
  - apply returns_ret.
  - apply returns_bind; [apply returns_defineProperty, method_name_not_ob|].
    intros _ st1 _. apply IH.
Qed.

Lemma protoAugment_total l st : protoAugment l st <> OutOfFuel.
Proof. unfold protoAugment. by destruct (heap st !! l). Qed.

(** [new Observer] takes [l] out of the set, and what follows it needs one
    step less. *)
Lemma returns_new_Observer_body l st :
  ob_slot l st = None ->
  returns (S n) (new_Observer_body H dA obs l) st.
Proof using All.
  intros Hslot Ht Hn.
  set (st2 := with_vmCount (<[next_ob st := 0]> (vmCount st))
                (with_next_ob (S (next_ob st))
                   (with_subs (<[uid st := []]> (subs st)) (with_uid (S (uid st)) st)))).
  set (this := VObserver (next_ob st) l (uid st)).
  unfold new_Observer_body. unfold bind at 1. simpl. unfold bind at 1. simpl.
  fold st2. fold this.
  unfold bind at 1. unfold def, defineProperty.
  change (heap st2) with (heap st).
  destruct (heap st !! l) as [o|] eqn:Ho; [|done].
  set (st3 := with_heap (<[l := with_props (store_prop (o_props o) "__ob__"
                                              (PData this false true true)) o]> (heap st2)) st2).
  assert (S3 : get_own l "__ob__" st3 = Some (PData this false true true)).
  { unfold st3. rewrite get_own_with_props. apply lookup_store_prop_eq. }
  assert (Hlt : size (unobserved st3) < n).
  { cut (unobserved st3 ⊂ unobserved st).
    { intros Hsub%subset_size. lia. }
    apply strict_spec_alt. split.
    - apply same_slots_unobserved.
      + unfold st3. simpl. by apply dom_insert_lookup_L.
      + intros l' ob. unfold ob_slot. destruct (decide (l' = l)) as [->|Hl].
        * fold (ob_slot l st). by rewrite Hslot.
        * unfold st3. by rewrite get_own_with_props_ne.
    - intros Heq. assert (l ∈ unobserved st) as Hin.
      { unfold unobserved. apply elem_of_filter. split; [done|by apply elem_of_dom_2 in Ho]. }
      rewrite <- Heq in Hin. unfold unobserved in Hin.
      apply elem_of_filter in Hin as [Hin _]. unfold ob_slot in Hin.
      by rewrite S3 in Hin. }
  cut (returns n
         (isArr <- gets (isArray (VRef l)) ;;
          (if isArr then
             (if hasProto H then protoAugment l else copyAugment l arrayKeys) ;;;
             items <- gets (fun st => match heap st !! l with
                                      | Some o => o_elems o
                                      | None => []
                                      end) ;;
             observeArray_body obs items
           else walk_body dA obs l) ;;;
          ret this) st3).
  { intros Hrest. specialize (Hrest Ht Hlt).
    assert (match
               (isArr <- gets (isArray (VRef l)) ;;
                (if isArr then
                   (if hasProto H then protoAugment l else copyAugment l arrayKeys) ;;;
                   items <- gets (fun st => match heap st !! l with
                                            | Some o => o_elems o
                                            | None => []
                                            end) ;;
                   observeArray_body obs items
                 else walk_body dA obs l) ;;;
                ret this) st3
             with
             | Ret _ st' => target st' = None /\ size (unobserved st') < S n
             | Raise _ _ => True
             | OutOfFuel => False
             end) as Hrest'.
    { match type of Hrest with
      | match ?m with _ => _ end => destruct m as [a st4|e st4|]; [|done..]
      end.
      split; [apply Hrest|]. destruct Hrest. lia. }
    destruct (lookup_prop (o_props o) "__ob__") as [q|].
    - destruct (prop_configurable q); [exact Hrest'|done].
    - destruct (o_extensible o); [exact Hrest'|done]. }
  apply returns_gets. apply returns_bind; [|intros; apply returns_ret].
  destruct (isArray (VRef l) st3).
  - apply returns_bind.
    + destruct (hasProto H).
      * apply returns_grows; [apply protoAugment_grows|apply protoAugment_total].
      * apply returns_copyAugment.
    + intros _ st4 _. apply returns_gets. apply returns_observeArray_body.
  - apply returns_walk_body. intros o' Ho'.
    unfold get_own in S3. rewrite Ho' in S3. unfold enumerable_at. by rewrite S3.
Qed.

Lemma returns_observe_body value r st :
  returns (S n) (observe_body H dA obs value r) st.
Proof using All.
  intros Ht Hn. rewrite observe_body_stages.
  destruct (negb (isObject value) || isVNode value st); [done|].
  cut (returns (S n) (found <- found_step dA value ;;
                      create_step H dA obs value found) st).
  { intros Hc. specialize (Hc Ht Hn). unfold bind at 1.
    destruct ((found <- found_step dA value ;; create_step H dA obs value found) st)
      as [ob st1|e st1|]; [|done..].
    destruct Hc as [Ht1 Hn1]. split.
    - by rewrite (subs_le_target _ _ (subs_le_bump r ob st1)).
    - eapply Nat.le_lt_trans; [|done].
      apply subseteq_size, grows_unobserved, bump_grows. }
  assert (Hmem : forall key s, target s = None ->
            match get_member dA value key s with
            | Ret _ s' => s' = s
            | Raise _ _ => True
            | OutOfFuel => False
            end).
  { intros key s Hs. destruct value; try done. simpl.
    by destruct (get_prop_no_target dA l key s Hs) as [v ->]. }
  intros _ _. unfold bind at 1.
  assert (match found_step dA value st with
          | Ret _ s' => s' = st
          | Raise _ _ => True
          | OutOfFuel => False
          end) as Hf.
  { unfold found_step, bind, gets. destruct (hasOwn value "__ob__" st); [|done].
    by apply Hmem. }
  destruct (found_step dA value st) as [found st1|e st1|] eqn:Ef; [|done..].
  subst st1. destruct (is_observer found) eqn:Eobs.
  { rewrite create_step_found by done. specialize (Hmem "__ob__" st Ht).
    destruct (get_member dA value "__ob__" st); [by subst|done..]. }
  rewrite create_step_fresh by done.
  unfold create_fresh, bind at 1, gets at 1.
  destruct (observable H value st); [|done].
  unfold bind at 1. pose proof (Hmem "_isVue" st Ht) as Hv.
  destruct (get_member dA value "_isVue" st) as [isVue st1|e st1|]; [|done..].
  subst st1. destruct (truthy isVue); [done|].
  destruct value as [| | | | | |l| |]; try done.
  apply returns_new_Observer_body; [|done..].
  destruct (ob_slot l st) as [ob|] eqn:Es; [|done].
  apply (ob_slot_found dA) in Es as (E' & Ho & _). congruence.
Qed.

End Returns.

Lemma observe_returns_all H n value r st : returns n (observe H n value r) st.
Proof.
  revert value r st. induction n as [|n IH]; intros value r st.
  - intros _ Hn. lia.
  - simpl. apply returns_observe_body;
      [apply dependArray_reads|intros v; apply observe_grows|].
    intros v s. apply IH.
Qed.

(** With no watcher active, [observe] returns or raises as soon as its fuel
    exceeds the number of objects that carry no back-reference. *)
Lemma observe_returns H fuel value r st :
  target st = None -> size (unobserved st) < fuel ->
  observe H fuel value r st <> OutOfFuel.
Proof.
  intros Ht Hn Heq. pose proof (observe_returns_all H fuel value r st Ht Hn) as Hr.
  by rewrite Heq in Hr.
Qed.


(** * The claims *)

(** C1. With no watcher active, [observe(x)] returns or raises as soon as
    its fuel exceeds the number of objects without back-reference. When it
    has returned, a second call returns the same result: it finds the
    back-reference and defines nothing. The state is left as it was, but for
    the [vmCount] of the Observer when the second call is [asRootData]. For
    a container that can be observed (an extensible array or plain object
    that is not a Vue instance, while observing is on) the result is an
    Observer, the one that the back-reference of the container holds. *)
Theorem observe_idempotent H fuel x r1 r2 st :
  (target st = None -> size (unobserved st) < fuel ->
   observe H fuel x r1 st <> OutOfFuel)
  /\ forall ob st1,
       observe H fuel x r1 st = Ret ob st1 ->
       observe H fuel x r2 st1 = Ret ob (bump r2 ob st1)
       /\ heap (bump r2 ob st1) = heap st1
       /\ clos (bump r2 ob st1) = clos st1
       /\ subs (bump r2 ob st1) = subs st1
       /\ uid (bump r2 ob st1) = uid st1
       /\ next_ob (bump r2 ob st1) = next_ob st1
       /\ bump false ob st1 = st1
       /\ forall l, x = VRef l ->
            observable H x st = true ->
            get_own l "_isVue" st = None ->
            ob_key_ok l st ->
            is_observer ob = true /\ ob_slot l st1 = Some ob.
Proof.
  split; [apply observe_returns|].
  intros ob st1 E. split; [eapply observe_again; [done|apply subs_le_refl]|].
  do 5 (split; [by destruct ob, r2|]). split; [by destruct ob|].
  intros l -> Hcan Hvue Hok.
  assert (ob_slot l st1 = Some ob) as Hs by by eapply observe_wraps.
  split; [|done]. unfold ob_slot in Hs.
  destruct (get_own l "__ob__" st1) as [[[] ? ? ?|]|]; by simplify_eq.
Qed.

(** C2, as amended. A write of a value identical to the current one
    (equal by [===], or both NaN) returns after reading the current value:
    nothing is observed, nothing notified. A write of a different value,
    to a property that does not have a getter without a setter, stores it
    (through the setter the property had before, or in the closure), then,
    unless the property is shallow, observes the new value, and then calls
    [notify] on the dep of the property, once; when the new value can be
    observed it carries its back-reference by then. *)
Theorem reactiveSetter_write H fuel k obj dep getter setter cs sh newVal st value st1 :
  match getter with
  | Some g => call_getter (dependArray fuel) g st = Ret value st1
  | None => value = closure_val k st /\ st1 = st
  end ->
  (identical newVal value = true ->
   call_setter H fuel (SReactive k obj dep getter setter cs sh) newVal st = Ret tt st1
   /\ subs_le st st1)
  /\ (identical newVal value = false ->
      getter = None \/ setter <> None ->
      forall st2 ob st3,
        match setter with
        | Some s' =>
            call_setter H fuel s' newVal
              (with_log (log st1 ++ customSetter_events H cs) st1) = Ret tt st2
        | None =>
            st2 = with_clos (<[k := (newVal, closure_childOb k st1)]> (clos st1))
                    (with_log (log st1 ++ customSetter_events H cs) st1)
        end ->
        (if sh then ob = VBool false /\ st3 = st2
         else observe H fuel newVal false st2 = Ret ob st3) ->
        let pre := with_clos (<[k := (closure_val k st3, ob)]> (clos st3)) st3 in
        exists st4,
          call_setter H fuel (SReactive k obj dep getter setter cs sh) newVal st
          = Ret tt st4
          /\ notify H dep pre = Ret tt st4
          /\ log st4 = log st2 ++ EvNotify dep
                         :: map EvUpdate (notify_order H (subs_of dep st3))
          /\ closure_childOb k pre = ob
          /\ (setter = None -> k < next_cid st -> closure_val k pre = newVal)
          /\ (sh = false -> forall l, newVal = VRef l ->
                observable H newVal st2 = true ->
                get_own l "_isVue" st2 = None ->
                ob_key_ok l st2 ->
                ob_slot l pre = Some ob)).
Proof.
  intros Hread.
  assert (Hle : subs_le st st1).
  { destruct getter as [g|].
    - by eapply frames_Ret; [apply reads_frames, getter_reads|].
    - destruct Hread as [_ ->]. apply subs_le_refl. }
  assert (Hstart : forall X : M unit,
    (value <- match getter with
              | Some g => call_getter (dependArray fuel) g
              | None => gets (closure_val k)
              end ;;
     if identical newVal value then ret tt else X) st
    = (if identical newVal value then ret tt else X) st1).
  { intros X. destruct getter as [g|].
    - by rewrite (bind_Ret _ _ _ _ _ Hread).
    - by destruct Hread as [-> ->]. }
  split.
  - intros Hid. split; [|done]. simpl. fold (identical newVal value).
    rewrite Hstart. by rewrite Hid.
  - intros Hid Hgs st2 ob st3 Hstore Hobs pre.
    destruct (notify_log H dep pre) as (st4 & En & Hl4).
    exists st4.
    assert (G23 : grows st2 st3).
    { destruct sh.
      - destruct Hobs as [_ ->]. apply grows_refl.
      - by eapply frames_Ret; [apply observe_grows|]. }
    split; [|split; [done|split; [|split; [apply closure_childOb_insert|split]]]].
    + simpl. fold (identical newVal value). rewrite Hstart, Hid.
      unfold bind at 1. rewrite customSetter_step.
      assert (Htail : forall store : M unit,
        store (with_log (log st1 ++ customSetter_events H cs) st1) = Ret tt st2 ->
        (store ;;;
         childOb <- (if sh then ret (VBool false) else observe H fuel newVal false) ;;
         set_closure_childOb k childOb ;;;
         notify H dep) (with_log (log st1 ++ customSetter_events H cs) st1)
        = Ret tt st4).
      { intros store Es. rewrite (bind_Ret _ _ _ _ _ Es).
        rewrite (bind_Ret _ _ _ ob st3).
        - unfold bind, set_closure_childOb, modify. exact En.
        - destruct sh; [by destruct Hobs as [-> ->]|done]. }
      destruct getter as [g|], setter as [s'|]; try (by destruct Hgs);
        apply Htail; try done; by subst st2.
    + rewrite Hl4. unfold pre. simpl. by rewrite (g_log _ _ G23).
    + intros -> Hk. unfold pre. rewrite closure_val_insert.
      unfold closure_val. rewrite (g_clos _ _ G23).
      * subst st2. simpl. by rewrite lookup_insert_eq.
      * subst st2. simpl. by rewrite (subs_le_fun next_cid st st1).
    + intros -> l -> Hcan Hvue Hok.
      assert (ob_slot l st3 = Some ob) as Hs by by eapply observe_wraps.
      unfold ob_slot, get_own in *. exact Hs.
Qed.


(** C4, as amended. Reading a reactive property with no active watcher
    returns and changes nothing. With watcher [w] active it subscribes [w]
    to the dep of the property; when the closure holds a wrapper
    ([childOb], the result of observing the value when the property was
    defined or last written, absent for a shallow property) it subscribes
    [w] to the dep of that wrapper too, and when the value read is an
    array, to the dep of the Observer of every element, through nested
    arrays; when the closure holds no wrapper only the property's dep
    changes. *)
Theorem reactiveGetter_subscribes fuel k obj dep getter st :
  (target st = None ->
   exists v, call_getter (dependArray fuel) (GReactive k obj dep getter) st = Ret v st)
  /\ (forall w value st0,
      target st = Some w ->
      match getter with
      | Some g => call_getter (dependArray fuel) g st = Ret value st0
      | None => value = closure_val k st /\ st0 = st
      end ->
      childOb_shape (closure_childOb k st) ->
      (forall l, value = VRef l -> isArray value st = true ->
                 truthy (closure_childOb k st) = true -> elems_ok fuel st l = true) ->
      exists st',
        call_getter (dependArray fuel) (GReactive k obj dep getter) st = Ret value st'
        /\ subs_le st st'
        /\ w ∈ subs_of dep st'
        /\ (forall o v cd, closure_childOb k st = VObserver o v cd ->
              w ∈ subs_of cd st'
              /\ forall l d, value = VRef l -> isArray value st = true ->
                             elem_dep st l d -> w ∈ subs_of d st')
        /\ (truthy (closure_childOb k st) = false ->
            forall d, d <> dep -> subs_of d st' = subs_of d st0)).
Proof.
  split; [apply getter_no_target|].
  intros w value st0 Ht Hinner Hshape Hok.
  assert (call_getter (dependArray fuel) (GReactive k obj dep getter) st
          = (tgt <- gets target ;;
             match tgt with
             | Some _ =>
                 depend dep ;;;
                 childOb <- gets (closure_childOb k) ;;
                 (if truthy childOb then
                    match childOb with
                    | VObserver _ _ cdep =>
                        depend cdep ;;;
                        isArr <- gets (isArray value) ;;
                        match value with
                        | VRef l => when isArr (dependArray fuel l)
                        | _ => ret tt
                        end
                    | _ => throw "TypeError: childOb.dep is undefined"
                    end
                  else ret tt) ;;;
                 ret value
             | None => ret value
             end) st0 /\ subs_le st st0) as [-> Hle0].
  { simpl. destruct getter as [g|].
    - split; [by rewrite (bind_Ret _ _ _ _ _ Hinner)|].
      by eapply frames_Ret; [apply reads_frames, getter_reads|].
    - destruct Hinner as [-> ->]. split; [done|apply subs_le_refl]. }
  unfold bind at 1. unfold gets at 1.
  rewrite (subs_le_target _ _ Hle0), Ht.
  destruct (depend_spec dep st0) as (st1 & E1 & Hle1 & Hin1 & _).
  rewrite (bind_Ret _ _ _ _ _ E1).
  unfold bind at 1. unfold gets at 1.
  assert (closure_childOb k st1 = closure_childOb k st) as ->.
  { unfold closure_childOb.
    by rewrite (subs_le_clos _ _ Hle1), (subs_le_clos _ _ Hle0). }
  assert (Hw1 : w ∈ subs_of dep st1).
  { apply Hin1. by rewrite (subs_le_target _ _ Hle0). }
  assert (Hle01 : subs_le st st1) by by etrans.
  destruct Hshape as [Ec|[Ec|(o & v & cd & Ec)]]; rewrite Ec in *; simpl.
  - exists st1. split; [done|]. split; [done|]. split; [done|].
    split; [done|]. intros _ d Hd. by eapply depend_other.
  - exists st1. split; [done|]. split; [done|]. split; [done|].
    split; [done|]. intros _ d Hd. by eapply depend_other.
  - destruct (depend_spec cd st1) as (st2 & E2 & Hle2 & Hin2 & _).
    assert (Ht1 : target st1 = Some w) by by rewrite (subs_le_target _ _ Hle01).
    assert (Hle02 : subs_le st st2) by by etrans.
    cut (exists st',
      (depend cd ;;;
       isArr <- gets (isArray value) ;;
       match value with
       | VRef l => when isArr (dependArray fuel l)
       | _ => ret tt
       end) st1 = Ret tt st' /\ subs_le st2 st'
      /\ forall l d, value = VRef l -> isArray value st = true ->
                     elem_dep st l d -> w ∈ subs_of d st').
    { intros (st' & E & Hle & Hd). exists st'.
      rewrite (bind_Ret _ _ _ _ _ E). split; [done|].
      split; [by etrans|].
      split; [apply (subs_le_mono _ _ _ _ Hle), (subs_le_mono _ _ _ _ Hle2), Hw1|].
      split; [|done]. intros ??? [= <- <- <-]. split; [|done].
      apply (subs_le_mono _ _ _ _ Hle). by apply Hin2. }
    rewrite (bind_Ret _ _ _ tt st2 E2).
    unfold bind at 1. unfold gets at 1.
    rewrite (isArray_heap st st2) by by apply subs_le_heap.
    destruct value as [| | | | | |l| |];
      try (exists st2; split; [done|]; split; [apply subs_le_refl|done]).
    destruct (isArray (VRef l) st) eqn:Ea; simpl.
    + destruct (dependArray_spec w fuel l st2) as (st3 & E3 & Hle3 & Hin3).
      { rewrite (elems_ok_heap fuel st st2) by by apply subs_le_heap.
        by apply Hok. }
      { by rewrite (subs_le_target _ _ Hle02). }
      exists st3. split; [done|]. split; [done|].
      intros ? d [= <-] _ Hd. apply Hin3.
      apply (elem_dep_heap st); [by apply subs_le_heap|done].
    + exists st2. split; [done|]. split; [apply subs_le_refl|done].
Qed.




(** C8, as amended. On a plain observed object that is neither a Vue
    instance nor root data: when the key is not an own property [del]
    returns and the state is as it was; when it is an own configurable
    property [del] deletes it and calls [notify] on the dep of the
    object's Observer, once, whatever the value was. *)
Theorem del_plain_object H fuel l key st o ob lv dep :
  heap st !! l = Some o -> o_kind o = KPlain ->
  ob_slot l st = Some (VObserver ob lv dep) ->
  default 0 (vmCount st !! ob) = 0 ->
  get_own l "_isVue" st = None ->
  (get_own l (key_name key) st = None ->
   del H fuel (VRef l) key st = Ret tt st)
  /\ (forall p,
        get_own l (key_name key) st = Some p ->
        prop_configurable p = true ->
        let st1 := with_heap (<[l := with_props (remove_prop (o_props o) (key_name key)) o]>
                                (heap st)) st in
        exists st2,
          del H fuel (VRef l) key st = Ret tt st2
          /\ get_own l (key_name key) st1 = None
          /\ notify H dep st1 = Ret tt st2
          /\ log st2 = log st ++ EvNotify dep
                         :: map EvUpdate (notify_order H (subs_of dep st))).
Proof.
  intros Ho Hk Hslot Hvm Hvue. pose proof (plain_not_array _ _ _ Ho Hk) as Ha.
  unfold ob_slot in Hslot.
  destruct (get_own l "__ob__" st) as [[x e w c|]|] eqn:Eg; try done.
  destruct x; try done. simplify_eq.
  assert (Hstart : forall Y : M unit,
    del H fuel (VRef l) key st
    = (own <- gets (hasOwn (VRef l) (key_name key)) ;;
       if negb own then ret tt
       else
         delete_prop l (key_name key) ;;;
         if negb (truthy (VObserver ob lv dep)) then ret tt
         else notify H dep) st).
  { intros _. unfold del. rewrite del_object_start by done.
    rewrite (bind_Ret _ _ _ _ _ (get_prop_data _ _ _ _ _ _ _ _ Eg)).
    rewrite (bind_Ret _ _ _ _ _ (get_prop_absent _ _ _ _ Hvue)).
    rewrite (bind_Ret _ _ _ false st); [done|].
    simpl. unfold bind, gets, ret. by rewrite Hvm. }
  split.
  - intros Hnone. rewrite Hstart by exact (ret tt).
    unfold bind, gets, hasOwn. by rewrite Hnone.
  - intros p Hp Hc st1.
    destruct (notify_log H dep st1) as (st2 & En & Hl2).
    exists st2. split; [|split; [|split; [done|]]].
    + rewrite Hstart by exact (ret tt).
      unfold bind at 1, gets at 1, hasOwn. rewrite Hp. simpl.
      rewrite (bind_Ret _ _ _ tt st1); [done|].
      unfold delete_prop. unfold get_own in Hp. rewrite Ho in *.
      by rewrite Hp, Hc.
    + unfold st1. rewrite get_own_with_props. apply lookup_remove_prop_eq.
    + exact Hl2.
Qed.

(** C9. On a property whose descriptor is not configurable,
    [defineReactive] returns without raising; it has made a Dep and nothing
    else: the heap, and with it the property, is as it was. *)
Theorem defineReactive_nonconfigurable H fuel obj key v cs sh st p :
  get_own obj key st = Some p ->
  prop_configurable p = false ->
  exists st',
    defineReactive H fuel obj key v cs sh st = Ret tt st'
    /\ st' = with_subs (<[uid st := []]> (subs st)) (with_uid (S (uid st)) st)
    /\ heap st' = heap st
    /\ get_own obj key st' = Some p.
Proof.
  intros Hp Hc. eexists. split; [|split; [reflexivity|split; [done|exact Hp]]].
  unfold defineReactive, defineReactive_body.
  unfold bind at 1. simpl. unfold bind at 1. unfold gets at 1.
  change (get_own obj key _) with (get_own obj key st). by rewrite Hp, Hc.
Qed.

(** C10. A property that had a getter and no setter when [defineReactive]
    was applied carries a reactive setter that drops every write of a value
    not identical to the one the getter returns: the call returns, the
    heap, the backing cells and the closure variables are as they were, no
    Observer is made, and the log gains at most the call of the caller's
    [customSetter], no [notify]. *)
Theorem reactiveSetter_getter_only H fuel obj key v cs sh g e st0 st :
  get_own obj key st0 = Some (PAccessor (Some g) None e true) ->
  defineReactive H fuel obj key v cs sh st0 = Ret tt st ->
  exists k dep,
    get_own obj key st =
      Some (PAccessor (Some (GReactive k obj dep (Some g)))
                      (Some (SReactive k obj dep (Some g) None cs sh)) true true)
    /\ forall fuel' newVal s value s1,
         call_getter (dependArray fuel') g s = Ret value s1 ->
         identical newVal value = false ->
         exists s2,
           call_setter H fuel' (SReactive k obj dep (Some g) None cs sh) newVal s
           = Ret tt s2
           /\ s2 = with_log (log s ++ customSetter_events H cs) s1
           /\ heap s2 = heap s /\ cells s2 = cells s /\ clos s2 = clos s
           /\ next_ob s2 = next_ob s.
Proof.
  intros Hp Hd.
  destruct (defineReactive_installs _ _ _ _ _ _ _ _ _ Hd) as (k & dep & Hg).
  { intros p. rewrite Hp. by intros [= <-]. }
  rewrite Hp in Hg. simpl in Hg. exists k, dep. split; [done|].
  intros fuel' newVal s value s1 Eg Hid.
  pose proof (frames_Ret _ _ _ _ _ (reads_frames _ (getter_reads fuel' g)) Eg) as Hle.
  exists (with_log (log s ++ customSetter_events H cs) s1).
  split; [|split; [done|]].
  - simpl. rewrite (bind_Ret _ _ _ _ _ Eg). fold (identical newVal value).
    rewrite Hid. unfold bind. rewrite customSetter_step.
    by rewrite (subs_le_log _ _ Hle).
  - destruct Hle as [Es _]. rewrite Es. done.
Qed.

(** * Further properties *)

(** ** Observed objects are left alone *)

Lemma ob_slot_heap l st st' :
  heap st' !! l = heap st !! l -> ob_slot l st' = ob_slot l st.
Proof. intros E. unfold ob_slot, get_own. by rewrite E. Qed.

Global Instance fixed_preorder : PreOrder fixed.
Proof.
  split; [done|]. intros x y z Hxy Hyz l ob Hs.
  rewrite (Hyz l ob), (Hxy l ob); [done..|].
  by rewrite (ob_slot_heap l x y) by by eapply Hxy.
Qed.

Lemma same_heap_fixed st st' : heap st' = heap st -> fixed st st'.
Proof. intros E l ob _. by rewrite E. Qed.

Lemma subs_le_fixed st st' : subs_le st st' -> fixed st st'.
Proof. intros Hle. by apply same_heap_fixed, subs_le_heap. Qed.

Lemma reads_fixed {A} (m : M A) : reads m -> frames fixed m.
Proof.
  intros Hr. eapply frames_weaken; [apply subs_le_fixed|by apply reads_frames].
Qed.

Lemma fixed_at st0 st l o :
  ob_slot l st0 = None -> fixed st0 st ->
  fixed st0 (with_heap (<[l := o]> (heap st)) st).
Proof.
  intros Hn Hf l' ob Hs. simpl.
  destruct (decide (l' = l)) as [->|Hne]; [congruence|].
  rewrite lookup_insert_ne by done. by eapply Hf.
Qed.

Lemma defineProperty_fixed st0 l key p st :
  ob_slot l st0 = None -> fixed st0 st ->
  keeps fixed st0 (defineProperty l key p) st.
Proof.
  intros Hn Hf. unfold keeps, defineProperty.
  destruct (heap st !! l) as [o|]; [|done].
  destruct (lookup_prop (o_props o) key) as [q|].
  - destruct (prop_configurable q); [by apply fixed_at|done].
  - destruct (o_extensible o); [by apply fixed_at|done].
Qed.

Lemma protoAugment_fixed st0 l st :
  ob_slot l st0 = None -> fixed st0 st -> keeps fixed st0 (protoAugment l) st.
Proof.
  intros Hn Hf. unfold keeps, protoAugment.
  destruct (heap st !! l) as [o|]; [by apply fixed_at|done].
Qed.

Lemma copyAugment_fixed st0 l keys st :
  ob_slot l st0 = None -> fixed st0 st -> keeps fixed st0 (copyAugment l keys) st.
Proof.
  intros Hn. revert st. induction keys as [|key keys IH]; intros st Hf; simpl; [done|].
  apply keeps_bind; [by apply defineProperty_fixed|].
  intros [] st1 _ F1. by apply IH.
Qed.

Lemma new_Dep_fixed : frames fixed new_Dep.
Proof. intros st. by apply same_heap_fixed. Qed.

Lemma alloc_closure_fixed v c : frames fixed (alloc_closure v c).
Proof. intros st. by apply same_heap_fixed. Qed.

Lemma found_step_fresh dA (HdA : forall l, reads (dA l)) l st found st1 :
  found_step dA (VRef l) st = Ret found st1 ->
  is_observer found = false -> ob_slot l st1 = None.
Proof.
  intros Ef Hno.
  pose proof (frames_Ret _ _ _ _ _
    (reads_frames _ (found_step_reads dA HdA (VRef l))) Ef) as Hle.
  destruct (ob_slot l st1) as [ob|] eqn:Es; [|done].
  assert (ob_slot l st = Some ob) as Es0.
  { rewrite <- Es. symmetry. by apply (subs_le_fun (ob_slot l)). }
  apply (ob_slot_found dA) in Es0 as (E' & Ho & _). congruence.
Qed.

Section ObserveFixed.

Context (H : host) (dA : nat -> M unit) (obs : val -> M val).
Context (HdA : forall l, reads (dA l)) (Hobs : forall v, frames fixed (obs v)).

Lemma defineReactive_body_fixed st0 obj key v cs sh st :
  ob_slot obj st0 = None -> fixed st0 st ->
  keeps fixed st0 (defineReactive_body dA obs obj key v cs sh) st.
Proof using HdA Hobs.
  intros Hn Hf. unfold defineReactive_body.
  apply keeps_bind; [by apply keeps_frames; [apply _|apply new_Dep_fixed|]|].
  intros dep st1 _ F1. apply keeps_gets.
  destruct (match get_own obj key st1 with
            | Some p => negb (prop_configurable p)
            | None => false
            end); [done|].
  apply keeps_bind.
  { destruct (_ && _); [|done].
    by apply keeps_frames; [apply _|apply reads_fixed, get_prop_reads|]. }
  intros v' st2 _ F2. apply keeps_bind.
  { destruct sh; [done|]. by apply keeps_frames; [apply _|apply Hobs|]. }
  intros c st3 _ F3. apply keeps_bind.
  { by apply keeps_frames; [apply _|apply alloc_closure_fixed|]. }
  intros k st4 _ F4. by apply defineProperty_fixed.
Qed.

Lemma walk_keys_fixed st0 obj keys st :
  ob_slot obj st0 = None -> fixed st0 st ->
  keeps fixed st0 (walk_keys dA obs obj keys) st.
Proof using HdA Hobs.
  intros Hn. revert st. induction keys as [|key keys IH]; intros st Hf; simpl; [done|].
  apply keeps_bind; [by apply defineReactive_body_fixed|].
  intros [] st1 _ F1. by apply IH.
Qed.

Lemma observeArray_body_fixed items : frames fixed (observeArray_body obs items).
Proof using Hobs. induction items; simpl; frames_auto. Qed.

Lemma new_Observer_body_fixed l st :
  ob_slot l st = None -> keeps fixed st (new_Observer_body H dA obs l) st.
Proof using HdA Hobs.
  intros Hn. unfold new_Observer_body.
  apply keeps_bind; [by apply keeps_frames; [apply _|apply new_Dep_fixed|]|].
  intros dep st1 _ F1. apply keeps_bind; [unfold keeps; simpl; intros l' ob Hs; by eapply F1|].
  intros o st2 _ F2. apply keeps_bind; [by apply defineProperty_fixed|].
  intros [] st3 _ F3. apply keeps_gets.
  apply keeps_bind; [|intros; by apply keeps_ret].
  destruct (isArray (VRef l) st3).
  - apply keeps_bind.
    + destruct (hasProto H); [by apply protoAugment_fixed|by apply copyAugment_fixed].
    + intros [] st4 _ F4. apply keeps_gets.
      by apply keeps_frames; [apply _|apply observeArray_body_fixed|].
  - unfold walk_body. apply keeps_gets. by apply walk_keys_fixed.
Qed.

Lemma observe_body_fixed value r : frames fixed (observe_body H dA obs value r).
Proof using HdA Hobs.
  intros st. rewrite observe_body_stages.
  destruct (negb (isObject value) || isVNode value st); [done|].
  unfold bind at 1. unfold bind at 1.
  pose proof (reads_frames _ (found_step_reads dA HdA value) st) as Hf.
  destruct (found_step dA value st) as [found st1|e st1|] eqn:Ef;
    [|by apply subs_le_fixed|done].
  apply subs_le_fixed in Hf.
  cut (keeps fixed st (create_step H dA obs value found) st1).
  { unfold keeps. destruct (create_step H dA obs value found st1) as [ob s|e s|]; [|done..].
    intros F. etrans; [done|]. by apply subs_le_fixed, subs_le_bump. }
  destruct (is_observer found) eqn:Eobs.
  { rewrite create_step_found by done.
    by apply keeps_frames; [apply _|apply reads_fixed, get_member_reads|]. }
  rewrite create_step_fresh by done. unfold create_fresh.
  apply keeps_gets. destruct (observable H value st1); [|done].
  apply keeps_bind;
    [by apply keeps_frames; [apply _|apply reads_fixed, get_member_reads|]|].
  intros isVue st2 E2 F2. destruct (truthy isVue); [done|].
  destruct value as [| | | | | |l| |]; try done.
  apply keeps_from; [apply _|done|]. apply new_Observer_body_fixed.
  pose proof (frames_Ret _ _ _ _ _
    (reads_frames _ (get_member_reads dA HdA (VRef l) "_isVue")) E2) as Hle.
  rewrite (subs_le_fun (ob_slot l) st1 st2) by done.
  by eapply found_step_fresh.
Qed.

End ObserveFixed.

Lemma observe_fixed H fuel value r : frames fixed (observe H fuel value r).
Proof.
  revert value r. induction fuel as [|n IH]; intros value r; [done|].
  simpl. apply observe_body_fixed; [apply dependArray_reads|].
  intros v. apply IH.
Qed.

(** ** defineReactive, step by step *)

Lemma defineReactive_inv H fuel obj key ov cs sh st st' :
  defineReactive H fuel obj key ov cs sh st = Ret tt st' ->
  (forall p, get_own obj key st = Some p -> prop_configurable p = true) ->
  exists v s2 c s3,
    (if (negb (bool_decide (is_Some (get_own obj key st ≫= prop_get)))
         || bool_decide (is_Some (get_own obj key st ≫= prop_set)))
        && bool_decide (ov = None)
     then get_prop (dependArray fuel) obj key (dep_made st) = Ret v s2
     else v = default VUndef ov /\ s2 = dep_made st)
    /\ (if sh then c = VBool false /\ s3 = s2
        else observe H fuel v false s2 = Ret c s3)
    /\ defineProperty obj key
         (reactive_prop (next_cid s3) obj (uid st) (get_own obj key st) cs sh)
         (closure_made v c s3) = Ret tt st'.
Proof.
  unfold defineReactive, defineReactive_body. intros E Hc.
  unfold bind at 1 in E. simpl in E. fold (dep_made st) in E.
  unfold bind at 1 in E. unfold gets at 1 in E.
  change (get_own obj key (dep_made st)) with (get_own obj key st) in E.
  assert (match get_own obj key st with
          | Some p => negb (prop_configurable p)
          | None => false
          end = false) as Hskip.
  { destruct (get_own obj key st) as [p|]; [|done]. by rewrite (Hc p eq_refl). }
  rewrite Hskip in E.
  replace (match get_own obj key st with Some p => prop_get p | None => None end)
    with (get_own obj key st ≫= prop_get) in E by by destruct (get_own obj key st).
  replace (match get_own obj key st with Some p => prop_set p | None => None end)
    with (get_own obj key st ≫= prop_set) in E by by destruct (get_own obj key st).
  apply bind_Ret_inv in E as (v & s2 & Ev & E).
  apply bind_Ret_inv in E as (c & s3 & Ec & E).
  unfold bind at 1 in E. simpl in E. fold (closure_made v c s3) in E.
  exists v, s2, c, s3. split; [|split; [|exact E]].
  - destruct (_ && _); [done|]. unfold ret in Ev. by simplify_eq.
  - destruct sh; [|done]. unfold ret in Ec. by simplify_eq.
Qed.

Lemma defineReactive_skips H fuel obj key ov cs sh st p :
  get_own obj key st = Some p -> prop_configurable p = false ->
  defineReactive H fuel obj key ov cs sh st = Ret tt (dep_made st).
Proof.
  intros Hp Hc. unfold defineReactive, defineReactive_body.
  unfold bind at 1. simpl. unfold bind at 1. unfold gets at 1.
  change (get_own obj key _) with (get_own obj key st). by rewrite Hp, Hc.
Qed.

(** ** observe on an object without back-reference *)

Lemma observable_kind H l st o :
  heap st !! l = Some o -> observable H (VRef l) st = true ->
  (o_kind o = KArray \/ o_kind o = KPlain) /\ o_extensible o = true
  /\ shouldObserve st = true /\ isServerRendering H = false.
Proof.
  unfold observable, isArray, isPlainObject, isExtensible, kind_of.
  intros ->. simpl. intros Hc.
  repeat (apply andb_prop in Hc as [Hc ?]).
  split; [destruct (o_kind o); simpl in *; auto; done|].
  split; [done|]. split; [done|]. by destruct (isServerRendering H).
Qed.

Lemma bind_bind {A B C} (m : M A) (f : A -> M B) (g : B -> M C) st :
  bind (bind m f) g st = bind m (fun a => bind (f a) g) st.
Proof. unfold bind. by destruct (m st). Qed.

Lemma augment_elems H l st o st' :
  heap st !! l = Some o -> isArray (VRef l) st = true ->
  (if hasProto H then protoAugment l else copyAugment l arrayKeys) st = Ret tt st' ->
  grows st st'.
Proof.
  intros Ho Ha E. destruct (hasProto H).
  - by eapply frames_Ret; [apply protoAugment_grows|].
  - pose proof (copyAugment_keeps st l arrayKeys st (grows_refl st) Ha) as K.
    unfold keeps in K. by rewrite E in K.
Qed.

Lemma observe_fresh H n l r st o :
  heap st !! l = Some o ->
  observable H (VRef l) st = true ->
  get_own l "__ob__" st = None -> get_own l "_isVue" st = None ->
  observe H (S n) (VRef l) r st =
  ((if isArray (VRef l) st then
      (if hasProto H then protoAugment l else copyAugment l arrayKeys) ;;;
      observeArray H n (o_elems o)
    else walk H n l) ;;;
   fun s => Ret (VObserver (next_ob st) l (uid st))
                (bump r (VObserver (next_ob st) l (uid st)) s))
    (observer_made l o st).
Proof.
  intros Ho Hcan Hob Hvue.
  destruct (observable_kind _ _ _ _ Ho Hcan) as (Hk & Hext & _).
  set (aug := if hasProto H then protoAugment l else copyAugment l arrayKeys).
  change (observe H (S n) (VRef l) r st)
    with (observe_body H (dependArray n) (fun v => observe H n v false) (VRef l) r st).
  rewrite observe_body_stages.
  assert (isVNode (VRef l) st = false) as ->.
  { unfold isVNode, kind_of. rewrite Ho. simpl. by destruct Hk as [-> | ->]. }
  cbn [negb orb isObject].
  assert (found_step (dependArray n) (VRef l) st = Ret VUndef st) as Ef.
  { unfold found_step, bind, gets, hasOwn. by rewrite Hob. }
  rewrite bind_bind, (bind_Ret _ _ _ _ _ Ef). cbn [create_step].
  rewrite bind_bind. unfold bind at 1. unfold gets at 1. rewrite Hcan.
  rewrite bind_bind. unfold get_member.
  rewrite (bind_Ret _ _ _ _ _ (get_prop_absent _ _ _ _ Hvue)). cbn [truthy].
  unfold new_Observer_body. fold aug.
  rewrite bind_bind. unfold bind at 1. unfold new_Dep at 1. fold (dep_made st).
  rewrite bind_bind. unfold bind at 1.
  rewrite bind_bind. unfold bind at 1. unfold def, defineProperty.
  cbn [heap with_vmCount with_next_ob dep_made with_subs with_uid next_ob uid].
  rewrite Ho. unfold get_own in Hob. rewrite Ho in Hob. rewrite Hob, Hext.
  change (with_heap _ _) with (observer_made l o st).
  assert (isArray (VRef l) (observer_made l o st) = isArray (VRef l) st) as Ea.
  { unfold isArray, kind_of, observer_made. simpl.
    by rewrite lookup_insert_eq, Ho. }
  rewrite bind_bind. unfold bind at 1. unfold gets at 1. rewrite Ea.
  destruct (isArray (VRef l) st) eqn:Earr.
  2:{ unfold walk, bind. by destruct (walk_body _ _ _ _). }
  rewrite !bind_bind. unfold bind at 1. unfold bind at 4.
  destruct (aug (observer_made l o st)) as [[] s'|e s'|] eqn:Es; [|done..].
  assert (heap (observer_made l o st) !! l
          = Some (with_props (store_prop (o_props o) "__ob__"
                    (PData (VObserver (next_ob st) l (uid st)) false true true)) o)) as Ho3.
  { unfold observer_made. simpl. by rewrite lookup_insert_eq. }
  pose proof (augment_elems H l _ _ _ Ho3 ltac:(by rewrite Ea) Es) as G.
  destruct (grows_elems _ _ _ _ G Ho3) as (o' & Ho' & Hel).
  rewrite bind_bind. unfold bind at 1. unfold gets at 1. rewrite Ho', Hel.
  cbn [o_elems with_props].
  unfold observeArray, bind, ret. by destruct (observeArray_body _ _ _).
Qed.

(** ** walk *)

Lemma store_prop_fst ps key p :
  is_Some (lookup_prop ps key) -> (store_prop ps key p).*1 = ps.*1.
Proof.
  induction ps as [|[k q] ps IH]; simpl; [by intros [? ?]|].
  destruct (String.eqb k key) eqn:E; [done|]. intros Hs.
  rewrite fmap_cons. f_equal. by apply IH.
Qed.

Lemma store_prop_fst_new ps key p :
  lookup_prop ps key = None -> (store_prop ps key p).*1 = ps.*1 ++ [key].
Proof.
  induction ps as [|[k q] ps IH]; simpl; [done|].
  destruct (String.eqb k key) eqn:E; [done|]. intros Hs.
  rewrite fmap_cons. simpl. f_equal. by apply IH.
Qed.

Lemma dep_made_grows st : grows st (dep_made st).
Proof. exact (new_Dep_grows st). Qed.

Lemma closure_made_grows v c st : grows st (closure_made v c st).
Proof. exact (alloc_closure_grows v c st). Qed.

(** [defineReactive] on an object that carries its back-reference: observing
    the value does not touch the object, so the one change to it is the
    accessor pair. *)
Lemma defineReactive_at H fuel obj o key ov cs sh st st' :
  heap st !! obj = Some o -> is_Some (ob_slot obj st) ->
  defineReactive H fuel obj key ov cs sh st = Ret tt st' ->
  (forall p, lookup_prop (o_props o) key = Some p -> prop_configurable p = true) ->
  exists v s2 c s3,
    (if (negb (bool_decide (is_Some (lookup_prop (o_props o) key ≫= prop_get)))
         || bool_decide (is_Some (lookup_prop (o_props o) key ≫= prop_set)))
        && bool_decide (ov = None)
     then get_prop (dependArray fuel) obj key (dep_made st) = Ret v s2
     else v = default VUndef ov /\ s2 = dep_made st)
    /\ (if sh then c = VBool false /\ s3 = s2
        else observe H fuel v false s2 = Ret c s3)
    /\ grows st s2
    /\ heap s3 !! obj = Some o
    /\ st' = with_heap
               (<[obj := with_props
                           (store_prop (o_props o) key
                              (reactive_prop (next_cid s3) obj (uid st)
                                 (lookup_prop (o_props o) key) cs sh)) o]>
                  (heap (closure_made v c s3)))
               (closure_made v c s3).
Proof.
  intros Ho [ob Hs] E Hc.
  assert (get_own obj key st = lookup_prop (o_props o) key) as Hg
    by (unfold get_own; by rewrite Ho).
  destruct (defineReactive_inv _ _ _ _ _ _ _ _ _ E) as (v & s2 & c & s3 & Ev & Ec & Ed).
  { intros p. rewrite Hg. apply Hc. }
  rewrite Hg in Ev, Ed.
  exists v, s2, c, s3. split; [done|]. split; [done|].
  assert (subs_le (dep_made st) s2) as Hle.
  { destruct (_ && _).
    - by eapply frames_Ret; [apply reads_frames, prop_reads|].
    - destruct Ev as [_ ->]. apply subs_le_refl. }
  assert (heap s2 = heap st) as Hh2 by by rewrite (subs_le_heap _ _ Hle).
  assert (heap s3 !! obj = Some o) as Ho3.
  { rewrite <- Ho, <- Hh2. destruct sh; [by destruct Ec as [_ ->]|].
    eapply (frames_Ret _ _ _ _ _ (observe_fixed H fuel v false) Ec).
    rewrite <- Hs. by apply ob_slot_heap; rewrite Hh2. }
  split; [by etrans; [apply dep_made_grows|apply subs_le_grows]|].
  split; [done|].
  apply defineProperty_Ret in Ed as (_ & o4 & Ho4 & ->).
  change (heap (closure_made v c s3) !! obj) with (heap s3 !! obj) in Ho4.
  rewrite Ho3 in Ho4. by simplify_eq.
Qed.

Lemma defineReactive_grows_at H fuel obj key ov cs sh st :
  key <> "__ob__" -> is_Some (get_own obj key st) -> isArray (VRef obj) st = false ->
  keeps grows st (defineReactive H fuel obj key ov cs sh) st.
Proof.
  intros. apply defineReactive_body_keeps; try done.
  - apply dependArray_reads.
  - intros v. apply observe_grows.
Qed.

Lemma walk_keys_effect H n obj keys : forall st st' o,
  NoDup keys -> heap st !! obj = Some o -> is_Some (ob_slot obj st) ->
  isArray (VRef obj) st = false ->
  Forall (fun key => key <> "__ob__" /\ is_Some (lookup_prop (o_props o) key)) keys ->
  walk_keys (dependArray n) (fun v => observe H n v false) obj keys st = Ret tt st' ->
  grows st st'
  /\ (exists o', heap st' !! obj = Some o' /\ (o_props o').*1 = (o_props o).*1
                 /\ o_augmented o' = o_augmented o)
  /\ (forall key, key ∉ keys -> get_own obj key st' = get_own obj key st)
  /\ (forall key p, key ∈ keys -> lookup_prop (o_props o) key = Some p ->
        if prop_configurable p then converted H n st st' obj key p
        else get_own obj key st' = Some p).
Proof.
  induction keys as [|key keys IH]; intros st st' o Hnd Ho Hslot Ha Hall E.
  { simpl in E. unfold ret in E. simplify_eq. split; [apply grows_refl|].
    split; [by exists o|]. split; [done|]. intros key p Hin. by apply elem_of_nil in Hin. }
  simpl in E. apply bind_Ret_inv in E as ([] & s1 & E1 & E).
  apply NoDup_cons in Hnd as [Hnotin Hnd].
  apply Forall_cons in Hall as [[Hne Hkey] Hall].
  assert (get_own obj key st = lookup_prop (o_props o) key) as Hg
    by (unfold get_own; by rewrite Ho).
  assert (grows st s1) as G1.
  { pose proof (defineReactive_grows_at H n obj key None None false st Hne
      ltac:(by rewrite Hg) Ha) as K.
    unfold keeps, defineReactive in K. by rewrite E1 in K. }
  (* the object after the first key *)
  assert (exists o1, heap s1 !! obj = Some o1 /\ (o_props o1).*1 = (o_props o).*1
             /\ o_augmented o1 = o_augmented o
             /\ (forall key', key' <> key ->
                   lookup_prop (o_props o1) key' = lookup_prop (o_props o) key')
             /\ forall p, lookup_prop (o_props o) key = Some p ->
                  if prop_configurable p then converted H n st s1 obj key p
                  else lookup_prop (o_props o1) key = Some p) as (o1 & Ho1 & Hfst1 & Haug1 & Hother1 & Hthis1).
  { destruct Hkey as [p Hp].
    destruct (prop_configurable p) eqn:Hcf.
    - destruct (defineReactive_at H n obj o key None None false st s1 Ho Hslot E1)
        as (v & s2 & c & s3 & Ev & Ec & G2 & Ho3 & ->).
      { intros p'. rewrite Hp. by intros [= <-]. }
      eexists. split; [simpl; by rewrite lookup_insert_eq|].
      split; [simpl; apply store_prop_fst; by rewrite Hp|].
      split; [done|].
      split; [intros key' Hne'; simpl; by apply lookup_store_prop_ne|].
      intros p'. rewrite Hp. intros [= <-]. rewrite Hcf.
      exists (next_cid s3), (uid st), v, c, s2, s3.
      split; [by rewrite get_own_with_props, lookup_store_prop_eq|].
      split; [simpl; by rewrite lookup_insert_eq|].
      split; [simpl; lia|].
      split; [done|]. split; [done|].
      split.
      + etrans; [apply (closure_made_grows v c)|].
        apply (store_prop_grows obj o key _ (closure_made v c s3)); [done|done|].
        intros _. left. by rewrite Hp.
      + intros pv e w cf ->. simpl in Ev.
        rewrite (get_prop_data _ obj key (dep_made st) pv e w cf) in Ev
          by (change (get_own obj key (dep_made st)) with (get_own obj key st);
              by rewrite Hg).
        rewrite Hp in Ev. simpl in Ev. by simplify_eq.
    - pose proof (defineReactive_skips H n obj key None None false st p
        ltac:(by rewrite Hg) Hcf) as Esk.
      unfold defineReactive in Esk. rewrite Esk in E1.
      simplify_eq. exists o. split; [done|]. split; [done|]. split; [done|].
      split; [done|]. intros p'. rewrite Hp. intros [= <-]. by rewrite Hcf. }
  destruct (IH s1 st' o1 Hnd Ho1) as (G & (o' & Ho' & Hfst' & Haug') & Hout & Hin); try done.
  { destruct Hslot as [ob Hs]. exists ob. by apply (g_slot _ _ G1). }
  { by rewrite (grows_isArray st s1). }
  { eapply Forall_impl; [exact Hall|]. intros key' [Hne' Hk']. split; [done|].
    destruct (decide (key' = key)) as [->|Hd].
    - destruct Hk' as [p Hp]. specialize (Hthis1 p Hp).
      destruct (prop_configurable p); [|by rewrite Hthis1].
      destruct Hthis1 as (k & d & v & c & s2 & s3 & Hd & _).
      unfold get_own in Hd. rewrite Ho1 in Hd. by rewrite Hd.
    - by rewrite Hother1. }
  assert (forall key', get_own obj key' s1 = lookup_prop (o_props o1) key') as Hg1
    by (intros key'; unfold get_own; by rewrite Ho1).
  split; [by etrans|].
  split; [exists o'; split; [done|]; split; congruence|].
  split.
  - intros key' Hni. apply not_elem_of_cons in Hni as [Hne' Hni].
    rewrite (Hout key' Hni), Hg1, Hother1 by done.
    unfold get_own. by rewrite Ho.
  - intros key' p Hel Hp. apply elem_of_cons in Hel as [->|Hel].
    + specialize (Hthis1 p Hp). rewrite <- Hg1 in Hthis1.
      destruct (prop_configurable p).
      * destruct Hthis1 as (k & d & v & c & s2 & s3 & Hd & Hcl & Hk & G2 & Eo & G3 & Hv).
        exists k, d, v, c, s2, s3. split; [by rewrite Hout|].
        split; [rewrite <- Hcl; by apply (g_clos _ _ G)|].
        split; [pose proof (g_cid _ _ G); lia|].
        split; [done|]. split; [done|]. split; [by etrans|done].
      * by rewrite Hout.
    + assert (key' <> key) as Hne' by (intros ->; done).
      specialize (Hin key' p Hel). rewrite Hother1 in Hin by done.
      specialize (Hin Hp). destruct (prop_configurable p); [|done].
      destruct Hin as (k & d & v & c & s2 & s3 & Hd & Hcl & Hk & G2 & Eo & G3 & Hv).
      exists k, d, v, c, s2, s3. split; [done|]. split; [done|]. split; [done|].
      split; [by etrans|]. done.
Qed.

Lemma lookup_prop_None ps key : lookup_prop ps key = None <-> key ∉ ps.*1.
Proof.
  induction ps as [|[k q] ps IH].
  - split; [intros _; apply not_elem_of_nil|done].
  - rewrite fmap_cons, not_elem_of_cons. simpl.
    destruct (String.eqb k key) eqn:E.
    + apply String.eqb_eq in E. split; [done|]. by intros [? _].
    + apply String.eqb_neq in E. rewrite IH. split; [by intros ?|by intros [_ ?]].
Qed.

Lemma lookup_prop_Some_in ps key p : lookup_prop ps key = Some p -> key ∈ ps.*1.
Proof.
  intros Hp. destruct (decide (key ∈ ps.*1)) as [|Hn]; [done|].
  apply lookup_prop_None in Hn. congruence.
Qed.

Lemma filter_agree {A} (P Q : A -> Prop) `{!forall x, Decision (P x)}
    `{!forall x, Decision (Q x)} (l : list A) :
  (forall x, x ∈ l -> P x <-> Q x) -> filter P l = filter Q l.
Proof.
  induction l as [|x l IH]; intros Hag; [done|].
  rewrite !filter_cons.
  rewrite IH by (intros y Hy; apply Hag; by right).
  destruct (decide (P x)) as [HP|HP], (decide (Q x)) as [HQ|HQ]; try done.
  - apply Hag in HP; [done|by left].
  - apply Hag in HQ; [done|by left].
Qed.

(** The keys that [walk] sees once the back-reference is defined. *)
Lemma object_keys_observer_made o this :
  lookup_prop (o_props o) "__ob__" = None ->
  object_keys (with_props (store_prop (o_props o) "__ob__"
                             (PData this false true true)) o)
  = object_keys o.
Proof.
  intros Hn. unfold object_keys. simpl.
  rewrite store_prop_fst_new by done. rewrite filter_app.
  rewrite (filter_agree _ (fun key => enumerable_at (o_props o) key = true) (o_props o).*1).
  - rewrite filter_cons, decide_False; [by rewrite filter_nil, app_nil_r|].
    unfold enumerable_at. by rewrite lookup_store_prop_eq.
  - intros key Hin. unfold enumerable_at.
    rewrite lookup_store_prop_ne; [done|]. intros <-.
    by apply lookup_prop_None in Hn.
Qed.

(** What [observe] does to a plain object that carries no back-reference. *)
Lemma observe_plain_effect H fuel l r st o ob st' :
  heap st !! l = Some o -> o_kind o = KPlain -> NoDup (o_props o).*1 ->
  observable H (VRef l) st = true ->
  get_own l "__ob__" st = None -> get_own l "_isVue" st = None ->
  observe H fuel (VRef l) r st = Ret ob st' ->
  exists n s',
    fuel = S n /\ ob = VObserver (next_ob st) l (uid st)
    /\ st' = bump r ob s' /\ grows (observer_made l o st) s'
    /\ (exists o', heap s' !! l = Some o'
                   /\ (o_props o').*1 = (o_props o).*1 ++ ["__ob__"])
    /\ get_own l "__ob__" s' = Some (PData ob false true true)
    /\ forall key p, get_own l key st = Some p ->
         if prop_enumerable p && prop_configurable p
         then converted H n (observer_made l o st) s' l key p
         else get_own l key s' = Some p.
Proof.
  intros Ho Hk Hnd Hcan Hob Hvue E.
  destruct fuel as [|n]; [done|]. exists n.
  rewrite (observe_fresh H n l r st o Ho Hcan Hob Hvue) in E.
  rewrite (plain_not_array l o st Ho Hk) in E.
  apply bind_Ret_inv in E as ([] & s' & Ew & E). simplify_eq.
  exists s'. split; [done|]. split; [done|]. split; [done|].
  set (this := VObserver (next_ob st) l (uid st)) in *.
  set (o3 := with_props (store_prop (o_props o) "__ob__" (PData this false true true)) o).
  assert (heap (observer_made l o st) !! l = Some o3) as Ho3.
  { unfold observer_made. simpl. by rewrite lookup_insert_eq. }
  assert (lookup_prop (o_props o) "__ob__" = None) as Hobn.
  { unfold get_own in Hob. by rewrite Ho in Hob. }
  unfold walk, walk_body in Ew. unfold bind at 1 in Ew. unfold gets at 1 in Ew.
  rewrite Ho3 in Ew. unfold o3 in Ew. rewrite object_keys_observer_made in Ew by done.
  fold o3 in Ew.
  assert (forall key, key <> "__ob__" ->
            lookup_prop (o_props o3) key = lookup_prop (o_props o) key) as Hsame.
  { intros key Hne. simpl. by apply lookup_store_prop_ne. }
  destruct (walk_keys_effect H n l (object_keys o) (observer_made l o st) s' o3)
    as (G & (o' & Ho' & Hfst & _) & Hout & Hin); try done.
  { by apply NoDup_filter. }
  { exists this. unfold ob_slot, get_own. rewrite Ho3. simpl.
    by rewrite lookup_store_prop_eq. }
  { unfold isArray, kind_of. rewrite Ho3. simpl. by rewrite Hk. }
  { apply Forall_forall. intros key Hin.
    apply object_keys_enumerable in Hin. unfold enumerable_at in Hin.
    assert (key <> "__ob__") as Hne by (intros ->; by rewrite Hobn in Hin).
    split; [done|]. rewrite Hsame by done.
    by destruct (lookup_prop (o_props o) key). }
  split; [done|].
  split.
  { exists o'. split; [done|]. rewrite Hfst. simpl. by apply store_prop_fst_new. }
  assert ("__ob__" ∉ object_keys o) as Hni.
  { intros Hel. apply object_keys_enumerable in Hel. unfold enumerable_at in Hel.
    by rewrite Hobn in Hel. }
  split.
  { rewrite (Hout "__ob__" Hni). unfold get_own. rewrite Ho3. simpl.
    by rewrite lookup_store_prop_eq. }
  intros key p Hp. unfold get_own in Hp. rewrite Ho in Hp.
  assert (key <> "__ob__") as Hne by (intros ->; congruence).
  destruct (prop_enumerable p) eqn:Hen; simpl.
  - assert (key ∈ object_keys o) as Hel.
    { unfold object_keys. apply list_elem_of_filter. split.
      - unfold enumerable_at. by rewrite Hp.
      - by eapply lookup_prop_Some_in. }
    apply (Hin key p Hel). by rewrite Hsame.
  - assert (key ∉ object_keys o) as Hnel.
    { intros Hel. apply object_keys_enumerable in Hel. unfold enumerable_at in Hel.
      rewrite Hp in Hel. congruence. }
    rewrite (Hout key Hnel). unfold get_own. rewrite Ho3. by rewrite Hsame.
Qed.

(** ** observe on a plain object *)

Lemma observer_made_grows l o st :
  heap st !! l = Some o -> get_own l "__ob__" st = None ->
  grows st (observer_made l o st).
Proof.
  intros Ho Hob.
  set (s2 := with_vmCount (<[next_ob st := 0]> (vmCount st))
               (with_next_ob (S (next_ob st)) (dep_made st))).
  assert (grows st s2) as G2 by (by apply same_heap_grows).
  etrans; [exact G2|].
  apply (store_prop_grows l o "__ob__" _ s2); [done| |done].
  intros _. split; [|by eexists _, _, _, _, _, _].
  unfold ob_slot. change (get_own l "__ob__" s2) with (get_own l "__ob__" st).
  by rewrite Hob.
Qed.

Lemma bump_get_own r ob st l key : get_own l key (bump r ob st) = get_own l key st.
Proof. by destruct ob, r. Qed.

Lemma bump_clos r ob st : clos (bump r ob st) = clos st.
Proof. by destruct ob, r. Qed.

Lemma bump_heap r ob st : heap (bump r ob st) = heap st.
Proof. by destruct ob, r. Qed.

Lemma bump_target r ob st : target (bump r ob st) = target st.
Proof. by destruct ob, r. Qed.

Lemma ob_slot_observer l st ob : ob_slot l st = Some ob -> is_observer ob = true.
Proof.
  unfold ob_slot. destruct (get_own l "__ob__" st) as [[[] ? ? ?|]|]; by intros [= <-].
Qed.

(** X1. [observe] on a plain object that carries no back-reference turns
    every own property that is enumerable and configurable into the
    accessor pair of [defineReactive], in place; a data property keeps its
    value, which the closure holds and a read returns. The other own
    properties are as they were. *)
Theorem observe_converts H fuel l r st o ob st' key p :
  heap st !! l = Some o -> o_kind o = KPlain -> NoDup (o_props o).*1 ->
  observable H (VRef l) st = true ->
  get_own l "__ob__" st = None -> get_own l "_isVue" st = None ->
  observe H fuel (VRef l) r st = Ret ob st' ->
  get_own l key st = Some p ->
  if prop_enumerable p && prop_configurable p
  then exists k d,
         get_own l key st' = Some (reactive_prop k l d (Some p) None false)
         /\ forall v e w c, p = PData v e w c ->
              closure_val k st' = v
              /\ (target st = None ->
                  forall fuel', get_prop (dependArray fuel') l key st' = Ret v st')
  else get_own l key st' = Some p.
Proof.
  intros Ho Hk Hnd Hcan Hob Hvue E Hp.
  destruct (observe_plain_effect _ _ _ _ _ _ _ _ Ho Hk Hnd Hcan Hob Hvue E)
    as (n & s' & -> & -> & -> & G & _ & _ & Hall).
  specialize (Hall key p Hp).
  destruct (prop_enumerable p && prop_configurable p); [|by rewrite bump_get_own].
  destruct Hall as (k & d & v & c & s2 & s3 & Hd & Hcl & Hlt & G2 & Eo & G3 & Hv).
  exists k, d. split; [by rewrite bump_get_own|].
  intros pv e w cf ->. rewrite <- (Hv pv e w cf eq_refl).
  assert (closure_val k (bump r (VObserver (next_ob st) l (uid st)) s') = v) as Hcv.
  { unfold closure_val. by rewrite bump_clos, Hcl. }
  split; [done|]. intros Ht fuel'.
  rewrite (get_prop_accessor _ l key _ (GReactive k l d None)
             (Some (SReactive k l d None None None false)) true true)
    by (by rewrite bump_get_own).
  cbn [call_getter]. unfold bind, gets. rewrite Hcv.
  rewrite bump_target, (g_target _ _ G).
  change (target (observer_made l o st)) with (target st). by rewrite Ht.
Qed.

(** X2. [observe] leaves the keys of a plain object as they are, in their
    order, and adds the back-reference after them as a property that is
    not enumerable: [Object.keys] returns what it returned before. *)
Theorem observe_keeps_keys H fuel l r st o ob st' :
  heap st !! l = Some o -> o_kind o = KPlain -> NoDup (o_props o).*1 ->
  observable H (VRef l) st = true ->
  get_own l "__ob__" st = None -> get_own l "_isVue" st = None ->
  observe H fuel (VRef l) r st = Ret ob st' ->
  exists o',
    heap st' !! l = Some o'
    /\ (o_props o').*1 = (o_props o).*1 ++ ["__ob__"]
    /\ lookup_prop (o_props o') "__ob__" = Some (PData ob false true true)
    /\ is_observer ob = true
    /\ object_keys o' = object_keys o.
Proof.
  intros Ho Hk Hnd Hcan Hob Hvue E.
  destruct (observe_plain_effect _ _ _ _ _ _ _ _ Ho Hk Hnd Hcan Hob Hvue E)
    as (n & s' & -> & -> & -> & G & (o' & Ho' & Hfst) & Hslot & Hall).
  exists o'. rewrite bump_heap. split; [done|]. split; [done|].
  assert (forall key, get_own l key s' = lookup_prop (o_props o') key) as Hg'
    by (intros key; unfold get_own; by rewrite Ho').
  split; [by rewrite <- Hg'|]. split; [done|].
  unfold object_keys.
  change (map fst (o_props o')) with ((o_props o').*1).
  change (map fst (o_props o)) with ((o_props o).*1).
  rewrite Hfst, filter_app.
  rewrite (filter_agree _ (fun key => enumerable_at (o_props o) key = true) (o_props o).*1).
  - rewrite filter_cons, decide_False; [by rewrite filter_nil, app_nil_r|].
    unfold enumerable_at. rewrite <- Hg', Hslot. done.
  - intros key Hin. unfold enumerable_at.
    destruct (lookup_prop (o_props o) key) as [p|] eqn:Hp.
    2:{ by apply lookup_prop_None in Hp. }
    specialize (Hall key p). unfold get_own in Hall at 1. rewrite Ho in Hall.
    specialize (Hall Hp). rewrite <- Hg'.
    destruct (prop_enumerable p) eqn:Hen; simpl in Hall.
    + destruct (prop_configurable p).
      * destruct Hall as (k & d & v & c & s2 & s3 & -> & _). done.
      * by rewrite Hall, Hen.
    + by rewrite Hall, Hen.
Qed.

(** X3. [observe] is deep: a data property of the object whose value is an
    object that can be observed leaves that object observed, and the
    closure of the property holds the Observer of that object, the one that
    the getter subscribes to. *)
Theorem observe_deep H fuel l r st o ob st' key m w :
  heap st !! l = Some o -> o_kind o = KPlain -> NoDup (o_props o).*1 ->
  observable H (VRef l) st = true ->
  get_own l "__ob__" st = None -> get_own l "_isVue" st = None ->
  observe H fuel (VRef l) r st = Ret ob st' ->
  get_own l key st = Some (PData (VRef m) true w true) ->
  observable H (VRef m) st = true ->
  get_own m "_isVue" st = None -> ob_key_ok m st ->
  exists k d obm,
    get_own l key st'
    = Some (reactive_prop k l d (Some (PData (VRef m) true w true)) None false)
    /\ closure_val k st' = VRef m
    /\ closure_childOb k st' = obm
    /\ ob_slot m st' = Some obm
    /\ is_observer obm = true.
Proof.
  intros Ho Hk Hnd Hcan Hob Hvue E Hp Hcm Hvm Hokm.
  destruct (observe_plain_effect _ _ _ _ _ _ _ _ Ho Hk Hnd Hcan Hob Hvue E)
    as (n & s' & -> & -> & -> & G & _ & _ & Hall).
  specialize (Hall key _ Hp). simpl in Hall.
  destruct Hall as (k & d & v & c & s2 & s3 & Hd & Hcl & Hlt & G2 & Eo & G3 & Hv).
  pose proof (Hv _ _ _ _ eq_refl) as ->.
  pose proof (observer_made_grows l o st Ho Hob) as G0.
  assert (grows st s2) as Gs2 by by etrans.
  assert (ob_slot m s3 = Some c) as Hs3.
  { eapply observe_wraps; [exact Eo| | |].
    - by rewrite (grows_observable H st s2).
    - by eapply grows_isVue_absent.
    - by eapply grows_ob_key_ok. }
  exists k, d, c. split; [by rewrite bump_get_own|].
  unfold closure_val, closure_childOb. rewrite bump_clos, Hcl.
  split; [done|]. split; [done|].
  assert (ob_slot m s' = Some c) as Hs' by by apply (g_slot _ _ G3).
  split; [|by eapply ob_slot_observer].
  unfold ob_slot. by rewrite bump_get_own.
Qed.

(** ** observe on an array *)

Lemma call_method_intercepted H fuel l m args st :
  intercepted l m st = true ->
  call_method H fuel l m args st = mutator H fuel m l args st.
Proof.
  unfold intercepted, call_method. intros Hi.
  destruct (heap st !! l) as [o|] eqn:Ho; [|done].
  unfold bind at 1. unfold gets at 1. unfold hasOwn, get_own. rewrite Ho.
  destruct (lookup_prop (o_props o) (method_name m)) as [[[] e w c|]|] eqn:Hp; try done.
  - apply bool_decide_eq_true in Hi as ->.
    rewrite (bind_Ret _ _ _ (VMutator m) st); [done|].
    apply (get_prop_data _ _ _ _ _ e w c). unfold get_own. by rewrite Ho.
  - unfold bind, gets. by rewrite Ho, Hi.
Qed.

Lemma method_name_inj m m' : method_name m = method_name m' -> m = m'.
Proof. by destruct m, m'. Qed.

Lemma copyAugment_effect l keys : forall st st' o,
  heap st !! l = Some o ->
  copyAugment l keys st = Ret tt st' ->
  exists o',
    heap st' !! l = Some o'
    /\ o_elems o' = o_elems o /\ o_augmented o' = o_augmented o
    /\ (forall l', l' <> l -> heap st' !! l' = heap st !! l')
    /\ (forall key, key ∉ method_name <$> keys ->
          lookup_prop (o_props o') key = lookup_prop (o_props o) key)
    /\ (forall m, m ∈ keys ->
          lookup_prop (o_props o') (method_name m)
          = Some (PData (VMutator m) false true true)).
Proof.
  induction keys as [|k keys IH]; intros st st' o Ho E.
  { simpl in E. unfold ret in E. simplify_eq. exists o.
    repeat split; try done. intros m Hm. by apply elem_of_nil in Hm. }
  simpl in E. apply bind_Ret_inv in E as ([] & s1 & E1 & E).
  unfold def in E1. apply defineProperty_Ret in E1 as (_ & o0 & Ho0 & ->).
  rewrite Ho in Ho0. simplify_eq.
  set (o1 := with_props (store_prop (o_props o0) (method_name k)
                           (PData (VMutator k) false true true)) o0) in *.
  assert (heap (with_heap (<[l:=o1]> (heap st)) st) !! l = Some o1) as Ho1
    by (simpl; by rewrite lookup_insert_eq).
  destruct (IH _ st' o1 Ho1 E) as (o' & Ho' & Hel & Haug & Hoth & Hout & Hin).
  exists o'. split; [done|]. split; [done|]. split; [done|].
  split; [intros l' Hne; rewrite Hoth by done; simpl; by rewrite lookup_insert_ne|].
  split.
  - intros key Hni. rewrite fmap_cons in Hni. apply not_elem_of_cons in Hni as [Hne Hni].
    rewrite Hout by done. simpl. by apply lookup_store_prop_ne.
  - intros m Hm. apply elem_of_cons in Hm as [->|Hm]; [|by apply Hin].
    destruct (decide (k ∈ keys)) as [Hk|Hk]; [by apply Hin|].
    rewrite Hout.
    + simpl. apply lookup_store_prop_eq.
    + intros Hel'. apply list_elem_of_fmap in Hel' as (m' & Heq & Hm').
      apply method_name_inj in Heq. by subst.
Qed.

Lemma observeArray_fixed H fuel items : frames fixed (observeArray H fuel items).
Proof.
  apply observeArray_body_fixed. intros v. apply observe_fixed.
Qed.

(** X4. [observe] on an array that carries no back-reference leaves its
    elements as they are, observes every element that can be observed, and
    makes the seven methods of the array the wrappers: as own properties
    that are not enumerable when the host has no [__proto__], through the
    prototype otherwise (when the array has no own property of that name). *)
Theorem observe_array H fuel l r st o ob st' :
  heap st !! l = Some o -> o_kind o = KArray ->
  observable H (VRef l) st = true ->
  get_own l "__ob__" st = None -> get_own l "_isVue" st = None ->
  observe H fuel (VRef l) r st = Ret ob st' ->
  exists o',
    heap st' !! l = Some o'
    /\ o_elems o' = o_elems o
    /\ ob_slot l st' = Some ob
    /\ (forall m, hasProto H = true -> get_own l (method_name m) st = None ->
          o_augmented o' = true /\ get_own l (method_name m) st' = None)
    /\ (forall m, hasProto H = false ->
          get_own l (method_name m) st' = Some (PData (VMutator m) false true true))
    /\ (forall m fuel' args,
          hasProto H = false \/ get_own l (method_name m) st = None ->
          call_method H fuel' l m args st' = mutator H fuel' m l args st')
    /\ (forall e, VRef e ∈ o_elems o ->
          observable H (VRef e) st = true ->
          get_own e "_isVue" st = None -> ob_key_ok e st ->
          is_Some (ob_slot e st')).
Proof.
  intros Ho Hk Hcan Hob Hvue E.
  destruct fuel as [|n]; [done|].
  assert (isArray (VRef l) st = true) as Ha.
  { unfold isArray, kind_of. rewrite Ho. simpl. by rewrite Hk. }
  rewrite (observe_fresh H n l r st o Ho Hcan Hob Hvue), Ha in E.
  apply bind_Ret_inv in E as ([] & s2 & E & Er).
  cbv beta in Er. injection Er as <- <-.
  apply bind_Ret_inv in E as ([] & s1 & Eaug & Earr).
  set (this := VObserver (next_ob st) l (uid st)) in *.
  set (o3 := with_props (store_prop (o_props o) "__ob__" (PData this false true true)) o).
  assert (heap (observer_made l o st) !! l = Some o3) as Ho3.
  { unfold observer_made. simpl. by rewrite lookup_insert_eq. }
  assert (lookup_prop (o_props o) "__ob__" = None) as Hobn.
  { unfold get_own in Hob. by rewrite Ho in Hob. }
  pose proof (observer_made_grows l o st Ho Hob) as G0.
  assert (isArray (VRef l) (observer_made l o st) = true) as Ha3
    by by rewrite (grows_isArray st).
  pose proof (augment_elems H l _ _ _ Ho3 Ha3 Eaug) as G1.
  destruct (observeArray_wraps _ _ _ _ _ Earr) as [G2 Hwr].
  assert (ob_slot l (observer_made l o st) = Some this) as Hs3.
  { unfold ob_slot, get_own. rewrite Ho3. simpl. by rewrite lookup_store_prop_eq. }
  assert (ob_slot l s1 = Some this) as Hs1 by by apply (g_slot _ _ G1).
  assert (heap s2 !! l = heap s1 !! l) as Hfix.
  { by eapply (frames_Ret _ _ _ _ _ (observeArray_fixed H n (o_elems o)) Earr). }
  (* the array after the augmentation *)
  assert (exists o1, heap s1 !! l = Some o1 /\ o_elems o1 = o_elems o
            /\ (hasProto H = true -> o_augmented o1 = true /\ o_props o1 = o_props o3)
            /\ (hasProto H = false -> forall m,
                  lookup_prop (o_props o1) (method_name m)
                  = Some (PData (VMutator m) false true true)))
    as (o1 & Ho1 & Hel1 & Hproto & Hcopy).
  { destruct (hasProto H) eqn:Hp.
    - unfold protoAugment in Eaug. rewrite Ho3 in Eaug. simplify_eq.
      eexists. split; [simpl; by rewrite lookup_insert_eq|]. split; [done|].
      split; [done|]. done.
    - destruct (copyAugment_effect l arrayKeys _ _ o3 Ho3 Eaug)
        as (o1 & Ho1 & Hel & _ & _ & _ & Hin).
      exists o1. split; [done|]. split; [done|]. split; [done|].
      intros _ m. apply Hin. unfold arrayKeys, methodsToPatch.
      destruct m; set_solver. }
  change (if r then with_vmCount _ s2 else s2) with (bump r this s2).
  exists o1. rewrite bump_heap, Hfix. split; [done|]. split; [done|].
  assert (forall key, get_own l key (bump r this s2) = lookup_prop (o_props o1) key) as Hg.
  { intros key. rewrite bump_get_own. unfold get_own. by rewrite Hfix, Ho1. }
  split.
  { unfold ob_slot. rewrite bump_get_own.
    apply (g_slot _ _ G2) in Hs1. exact Hs1. }
  assert (forall m, method_name m <> "__ob__") as Hmn by apply method_name_not_ob.
  split.
  { intros m Hp Hnone. destruct (Hproto Hp) as [Haug Hprops]. split; [done|].
    rewrite Hg, Hprops. simpl. rewrite lookup_store_prop_ne by (by apply not_eq_sym).
    unfold get_own in Hnone. by rewrite Ho in Hnone. }
  split.
  { intros m Hp. rewrite Hg. by apply Hcopy. }
  split.
  { intros m fuel' args Hcase. apply call_method_intercepted.
    unfold intercepted. rewrite bump_heap, Hfix, Ho1.
    destruct (hasProto H) eqn:Hp.
    - destruct Hcase as [|Hnone]; [done|]. destruct (Hproto eq_refl) as [Haug Hprops].
      rewrite Hprops. simpl. rewrite lookup_store_prop_ne by (by apply not_eq_sym).
      unfold get_own in Hnone. rewrite Ho in Hnone. by rewrite Hnone.
    - rewrite (Hcopy eq_refl m). by apply bool_decide_eq_true. }
  intros e Hel Hce Hve Hoke.
  assert (grows st s1) as Gs1 by by etrans.
  destruct (Hwr e Hel) as [obe Hobe].
  - by rewrite (grows_observable H st s1).
  - by eapply grows_isVue_absent.
  - by eapply grows_ob_key_ok.
  - exists obe. unfold ob_slot. by rewrite bump_get_own.
Qed.

(** ** set and del with an index *)




Lemma delete_beyond {A} (l : list A) i : length l <= i -> delete i l = l.
Proof.
  intros Hi. rewrite delete_take_drop, take_ge, drop_ge by lia. apply app_nil_r.
Qed.

Lemma array_splice_delete es i :
  array_splice es [VNum (Z.of_nat i); VNum 1] = (delete i es, take 1 (drop i es)).
Proof.
  unfold array_splice. cbn [to_integer tail].
  assert ((Z.of_nat i <? 0)%Z = false) as -> by (apply Z.ltb_ge; lia).
  destruct (decide (i < length es)) as [Hlt|Hge].
  - assert (Z.to_nat (Z.min (Z.of_nat i) (Z.of_nat (length es))) = i) as -> by lia.
    assert (Z.to_nat (Z.min (Z.max 1 0)
              (Z.of_nat (length es) - Z.min (Z.of_nat i) (Z.of_nat (length es)))) = 1)
      as -> by lia.
    simpl. by rewrite Nat.add_1_r, delete_take_drop.
  - assert (Z.to_nat (Z.min (Z.of_nat i) (Z.of_nat (length es))) = length es)
      as -> by lia.
    assert (Z.to_nat (Z.min (Z.max 1 0)
              (Z.of_nat (length es) - Z.min (Z.of_nat i) (Z.of_nat (length es)))) = 0)
      as -> by lia.
    simpl. rewrite Nat.add_0_r, firstn_all, !drop_ge, app_nil_r by lia.
    by rewrite delete_beyond by lia.
Qed.

Lemma original_splice H l o args st :
  heap st !! l = Some o ->
  original H Splice l args st
  = Ret (VRef (fresh_loc (with_heap (<[l := with_elems (array_splice (o_elems o) args).1 o]>
                                       (heap st)) st)))
        (spliced l o (array_splice (o_elems o) args).1 (array_splice (o_elems o) args).2 st).
Proof.
  intros Ho. unfold original. rewrite Ho.
  by destruct (array_splice (o_elems o) args) as [es' removed].
Qed.

Lemma spliced_lookup l o es' removed st :
  heap (spliced l o es' removed st) !! l = Some (with_elems es' o).
Proof.
  unfold spliced. cbn [heap with_heap].
  rewrite lookup_insert_ne, lookup_insert_eq; [done|].
  unfold fresh_loc. cbn [heap with_heap]. intros Heq.
  pose proof (is_fresh (dom (<[l:=with_elems es' o]> (heap st)))) as Hf.
  rewrite Heq in Hf. apply Hf. apply elem_of_dom. by rewrite lookup_insert_eq.
Qed.

Lemma spliced_get_own l o es' removed st key :
  heap st !! l = Some o ->
  get_own l key (spliced l o es' removed st) = get_own l key st.
Proof.
  intros Ho. unfold get_own. by rewrite spliced_lookup, Ho.
Qed.

(** The wrapper of [splice] on an observed array. *)
Lemma mutator_splice H fuel l o args st ob lv dep :
  heap st !! l = Some o -> ob_slot l st = Some (VObserver ob lv dep) ->
  mutator H fuel Splice l args st
  = (observeArray H fuel (drop 2 args) ;;; notify H dep ;;;
     ret (VRef (fresh_loc (with_heap (<[l := with_elems (array_splice (o_elems o) args).1 o]>
                                        (heap st)) st))))
      (spliced l o (array_splice (o_elems o) args).1 (array_splice (o_elems o) args).2 st).
Proof.
  intros Ho Hs. unfold mutator.
  rewrite (bind_Ret _ _ _ _ _ (original_splice H l o args st Ho)).
  unfold ob_slot in Hs.
  destruct (get_own l "__ob__" st) as [[x e w c|]|] eqn:Eg; try done.
  destruct x; try done. simplify_eq.
  erewrite bind_Ret.
  2:{ apply (get_prop_data _ _ _ _ _ e w c). by rewrite spliced_get_own. }
  done.
Qed.



Lemma del_array_start H fuel l i st o :
  heap st !! l = Some o -> o_kind o = KArray ->
  del H fuel (VRef l) (KIdx i) st
  = (call_method H fuel l Splice [VNum (Z.of_nat i); VNum 1] ;;; ret tt) st.
Proof.
  intros Ho Hk. unfold del.
  assert (isArray (VRef l) st = true) as Ha.
  { unfold isArray, kind_of. rewrite Ho. simpl. by rewrite Hk. }
  cbn [isUndef isPrimitive orb andb negb]. rewrite andb_false_r.
  cbn [when]. unfold bind at 1. cbn [ret].
  unfold bind at 1. unfold gets at 1. rewrite Ha. by cbn [andb isValidArrayIndex key_index].
Qed.


(** X6. [del(target, i)] on an observed array whose [splice] is the wrapper
    takes the element at index [i] out, and notifies the dep of the array's
    Observer, once; when [i] is not an index of the array nothing is taken
    out and the dep is notified all the same. *)
Theorem del_array_index H fuel l i st o ob lv dep :
  heap st !! l = Some o -> o_kind o = KArray ->
  ob_slot l st = Some (VObserver ob lv dep) ->
  intercepted l Splice st = true ->
  exists st1 st2,
    heap st1 !! l = Some (with_elems (delete i (o_elems o)) o)
    /\ (length (o_elems o) <= i -> delete i (o_elems o) = o_elems o)
    /\ log st1 = log st
    /\ del H fuel (VRef l) (KIdx i) st = Ret tt st2
    /\ notify H dep st1 = Ret tt st2
    /\ log st2 = log st ++ EvNotify dep
                   :: map EvUpdate (notify_order H (subs_of dep st)).
Proof.
  intros Ho Hk Hs Hi.
  pose proof (mutator_splice H fuel l _ [VNum (Z.of_nat i); VNum 1] st ob lv dep
                Ho Hs) as Em.
  rewrite array_splice_delete in Em. cbn [fst snd drop] in Em.
  set (st1 := spliced l o (delete i (o_elems o)) (take 1 (drop i (o_elems o))) st) in *.
  destruct (notify_log H dep st1) as (st2 & En & Hl2).
  exists st1, st2.
  split; [unfold st1; by rewrite spliced_lookup|].
  split; [intros Hge; by apply delete_beyond|].
  split; [done|].
  split; [|split; [done|exact Hl2]].
  rewrite (del_array_start H fuel l i st o Ho Hk).
  rewrite (bind_Ret _ _ _ (VRef (fresh_loc (with_heap
             (<[l := with_elems (delete i (o_elems o)) o]> (heap st)) st))) st2); [done|].
  rewrite call_method_intercepted by done. rewrite Em.
  unfold observeArray. cbn [observeArray_body].
  unfold bind at 1. cbn [ret]. by rewrite (bind_Ret _ _ _ _ _ En).
Qed.


(** ** Edge cases of the observer *)

Lemma with_log_nil st : with_log (log st ++ []) st = st.
Proof. rewrite app_nil_r. by destruct st. Qed.

Lemma warn_step H msg st :
  when (negb (production H)) (emit (EvWarn msg)) st
  = Ret tt (with_log (log st ++ warn_events H msg) st).
Proof.
  unfold warn_events. destruct (production H); simpl; [|done].
  by rewrite with_log_nil.
Qed.


(** X8. [observe] returns undefined and leaves the state as it is for a value
    that is not an object and for a VNode, also when called as root data. *)
Theorem observe_non_container H fuel value r st :
  isObject value = false \/ isVNode value st = true ->
  observe H (S fuel) value r st = Ret VUndef st.
Proof.
  intros Hv.
  change (observe H (S fuel) value r st)
    with (observe_body H (dependArray fuel) (fun v => observe H fuel v false) value r st).
  rewrite observe_body_stages.
  destruct Hv as [-> | ->]; [done|]. by rewrite orb_true_r.
Qed.

(** X9. [observe] makes no Observer for an object without back-reference
    while observing is toggled off, on the server, for an object that is
    neither an array nor a plain object, for an object that is not
    extensible (frozen, sealed), and for a Vue instance: it returns
    undefined and the state is as it was. *)
Theorem observe_declines H fuel l r st :
  get_own l "__ob__" st = None ->
  shouldObserve st = false \/ isServerRendering H = true
  \/ (isArray (VRef l) st = false /\ isPlainObject (VRef l) st = false)
  \/ isExtensible (VRef l) st = false
  \/ (exists e w c, get_own l "_isVue" st = Some (PData (VBool true) e w c)) ->
  observe H (S fuel) (VRef l) r st = Ret VUndef st.
Proof.
  intros Hob Hwhy.
  change (observe H (S fuel) (VRef l) r st)
    with (observe_body H (dependArray fuel) (fun v => observe H fuel v false) (VRef l) r st).
  rewrite observe_body_stages. destruct (_ || _); [done|].
  assert (found_step (dependArray fuel) (VRef l) st = Ret VUndef st) as Ef.
  { unfold found_step, bind, gets, hasOwn. by rewrite Hob. }
  rewrite bind_bind, (bind_Ret _ _ _ _ _ Ef). cbn [create_step].
  unfold bind at 1. unfold bind at 1. unfold gets at 1.
  destruct (observable H (VRef l) st) eqn:Hcan; [|done].
  destruct Hwhy as [Hw|[Hw|[[Hw1 Hw2]|[Hw|(e & w & c & Hw)]]]].
  - unfold observable in Hcan. by rewrite Hw in Hcan.
  - unfold observable in Hcan. rewrite Hw in Hcan. by rewrite andb_false_r in Hcan.
  - unfold observable in Hcan. rewrite Hw1, Hw2 in Hcan.
    by rewrite andb_false_r in Hcan.
  - unfold observable in Hcan. rewrite Hw in Hcan. by rewrite andb_false_r in Hcan.
  - unfold get_member. by rewrite (bind_Ret _ _ _ _ _ (get_prop_data _ _ _ _ _ _ _ _ Hw)).
Qed.

(** X10. With a target that is undefined, null or a primitive, [set] reports
    the diagnostic in a development build and then raises: the [in] test
    does not take such a target. [del] reports its diagnostic and raises on
    undefined and null, where reading [__ob__] fails. Nothing else changes. *)
Theorem set_del_invalid_target H fuel target key v st :
  (isUndef target || isPrimitive target = true ->
   exists e, set H fuel target key v st
             = Raise e (with_log (log st ++ warn_events H set_target_warning) st))
  /\ (isUndef target = true ->
      exists e, del H fuel target key st
                = Raise e (with_log (log st ++ warn_events H del_target_warning) st)).
Proof.
  split.
  - intros Ht. unfold set. rewrite Ht, andb_true_r.
    unfold bind at 1. fold set_target_warning. rewrite warn_step.
    unfold bind at 1. unfold gets at 1.
    destruct target; try done; by eexists.
  - intros Ht. unfold del. rewrite Ht, orb_true_l, andb_true_r.
    unfold bind at 1. fold del_target_warning. rewrite warn_step.
    unfold bind at 1. unfold gets at 1.
    destruct target; try done; by eexists.
Qed.




(** X12. After [defineReactive(obj, key, val)] on a key that the object does
    not have, or has as a configurable data property, the property is an
    enumerable and configurable accessor pair and reads as the value the
    call started from: [val], or with two arguments the value the property
    held. *)
Theorem defineReactive_read H fuel obj key ov cs sh st st' :
  defineReactive H fuel obj key ov cs sh st = Ret tt st' ->
  get_own obj key st = None
  \/ (exists pv e w, get_own obj key st = Some (PData pv e w true)) ->
  exists k d,
    get_own obj key st'
    = Some (PAccessor (Some (GReactive k obj d None))
                      (Some (SReactive k obj d None None cs sh)) true true)
    /\ closure_val k st' = initial_value ov (get_own obj key st)
    /\ (target st' = None ->
        forall fuel', get_prop (dependArray fuel') obj key st'
                      = Ret (initial_value ov (get_own obj key st)) st').
Proof.
  intros E Hp.
  destruct (defineReactive_inv _ _ _ _ _ _ _ _ _ E) as (v & s2 & c & s3 & Ev & Ec & Ed).
  { intros p Hg. destruct Hp as [Hp|(pv & e & w & Hp)]; rewrite Hp in Hg; by simplify_eq. }
  assert (get_own obj key st ≫= prop_get = None
          /\ get_own obj key st ≫= prop_set = None) as [Hget Hset].
  { destruct Hp as [->|(pv & e & w & ->)]; by split. }
  assert (v = initial_value ov (get_own obj key st)) as Hv.
  { rewrite Hget, Hset in Ev. simpl in Ev. destruct ov as [v0|]; simpl in *.
    - by destruct Ev as [-> _].
    - destruct Hp as [Hp|(pv & e & w & Hp)]; rewrite Hp.
      + rewrite (get_prop_absent _ obj key (dep_made st)) in Ev by done.
        by simplify_eq.
      + rewrite (get_prop_data _ obj key (dep_made st) pv e w true) in Ev by done.
        by simplify_eq. }
  apply defineProperty_Ret in Ed as (Hd & o4 & Ho4 & ->).
  assert (reactive_prop (next_cid s3) obj (uid st) (get_own obj key st) cs sh
          = PAccessor (Some (GReactive (next_cid s3) obj (uid st) None))
              (Some (SReactive (next_cid s3) obj (uid st) None None cs sh)) true true)
    as Hrp by (unfold reactive_prop; by rewrite Hget, Hset).
  rewrite Hrp in Hd at 2.
  exists (next_cid s3), (uid st). split; [done|].
  assert (closure_val (next_cid s3)
            (with_heap (<[obj := with_props (store_prop (o_props o4) key
               (reactive_prop (next_cid s3) obj (uid st) (get_own obj key st) cs sh)) o4]>
               (heap (closure_made v c s3))) (closure_made v c s3))
          = initial_value ov (get_own obj key st)) as Hcv.
  { unfold closure_val. simpl. by rewrite lookup_insert_eq. }
  split; [done|]. intros Ht fuel'.
  rewrite (get_prop_accessor _ obj key _ _ _ _ _ Hd).
  cbn [call_getter]. unfold bind, gets. rewrite Hcv. by rewrite Ht.
Qed.


(** X14. [pop] and [shift] on an observed array that is empty return
    undefined and leave the array as it is; the dep of the array's Observer
    is notified all the same. *)
Theorem mutator_on_empty H fuel m l args st o ob lv dep :
  heap st !! l = Some o -> o_elems o = [] ->
  ob_slot l st = Some (VObserver ob lv dep) ->
  m = Pop \/ m = Shift ->
  exists st',
    mutator H fuel m l args st = Ret VUndef st'
    /\ notify H dep st = Ret tt st'
    /\ log st' = log st ++ EvNotify dep :: map EvUpdate (notify_order H (subs_of dep st)).
Proof.
  intros Ho Hel Hs Hm.
  destruct (notify_log H dep st) as (st' & En & Hl).
  exists st'. split; [|done].
  assert (original H m l args st = Ret VUndef st) as Eo.
  { unfold original. rewrite Ho, Hel.
    assert (with_heap (<[l := with_elems [] o]> (heap st)) st = st) as Hsame.
    { assert (with_elems [] o = o) as -> by (destruct o; simpl in *; by subst).
      rewrite insert_id by done. by destruct st. }
    destruct Hm as [-> | ->]; simpl; by rewrite Hsame. }
  unfold mutator. rewrite (bind_Ret _ _ _ _ _ Eo).
  unfold ob_slot in Hs.
  destruct (get_own l "__ob__" st) as [[x e w c|]|] eqn:Eg; try done.
  destruct x; try done. simplify_eq.
  rewrite (bind_Ret _ _ _ _ _ (get_prop_data _ _ _ _ _ _ _ _ Eg)).
  destruct Hm as [-> | ->]; cbn [ret]; unfold bind at 1; cbn [ret];
    by rewrite (bind_Ret _ _ _ _ _ En).
Qed.

(** X15. [Vue.observable(obj)] returns [obj] itself; an object that can be
    observed carries its Observer afterwards, and a second call changes
    nothing. *)
Theorem Vue_observable_spec H fuel obj st x st' :
  Vue_observable H fuel obj st = Ret x st' ->
  x = obj
  /\ (forall l, obj = VRef l -> observable H obj st = true ->
        get_own l "_isVue" st = None -> ob_key_ok l st ->
        is_Some (ob_slot l st'))
  /\ Vue_observable H fuel obj st' = Ret obj st'.
Proof.
  unfold Vue_observable. intros E.
  apply bind_Ret_inv in E as (ob & s1 & Eo & E). unfold ret in E. simplify_eq.
  split; [done|]. split.
  - intros l -> Hcan Hvue Hok. exists ob. by eapply observe_wraps.
  - rewrite (bind_Ret _ _ _ ob st'); [done|].
    rewrite (observe_again _ _ _ _ _ _ _ Eo st' false (subs_le_refl _)).
    by destruct ob.
Qed.

(** ** The target stack *)

Lemma removelast_snoc {A} (l : list A) x : removelast (l ++ [x]) = l.
Proof. apply removelast_last. Qed.

Lemma popTarget_pushTarget t w :
  popTarget (pushTarget t w)
  = World (targetStack w) (console w) (with_target (stack_top (targetStack w)) (engine w)).
Proof.
  unfold popTarget, pushTarget. cbn [targetStack console engine].
  rewrite removelast_snoc. by destruct (engine w).
Qed.

Lemma tracked_id w :
  tracked w ->
  World (targetStack w) (console w) (with_target (stack_top (targetStack w)) (engine w)) = w.
Proof.
  unfold tracked. intros <-. destruct w as [s c e]. simpl. by destruct e.
Qed.

Lemma run_ops_app a b w : run_ops (a ++ b) w = run_ops b (run_ops a w).
Proof. apply foldl_app. Qed.

Lemma tracked_pushTarget t w : tracked (pushTarget t w).
Proof.
  unfold tracked, pushTarget, stack_top. cbn [targetStack engine target with_target].
  by rewrite last_snoc.
Qed.

Lemma tracked_popTarget w : tracked (popTarget w).
Proof. done. Qed.

(** X16. Calls of [pushTarget] and [popTarget] that are balanced leave
    [targetStack] and [Dep.target] as they were, when [Dep.target] was the
    top of the stack: [popTarget] brings back the watcher that was active
    before the matching [pushTarget]. *)
Theorem balanced_restores ops w :
  balanced ops -> tracked w -> run_ops ops w = w.
Proof.
  intros Hb. revert w. induction Hb as [|t a b Ha IHa Hb IHb]; intros w Hw; [done|].
  change (OpPush t :: a ++ OpPop :: b) with ([OpPush t] ++ a ++ [OpPop] ++ b).
  rewrite !run_ops_app. cbn [run_ops foldl run_op app].
  change (foldl (fun w op => run_op op w)) with (fun w ops => run_ops ops w). cbv beta.
  rewrite (IHa (pushTarget t w)) by apply tracked_pushTarget.
  rewrite popTarget_pushTarget, tracked_id by done. by apply IHb.
Qed.

(** X17. After any call of [pushTarget] or [popTarget], [Dep.target] is the
    top of [targetStack]; [popTarget] on an empty stack leaves it empty and
    makes [Dep.target] undefined. *)
Theorem target_is_top ops op w :
  tracked (run_ops (ops ++ [op]) w)
  /\ (targetStack w = [] ->
      targetStack (popTarget w) = [] /\ target (engine (popTarget w)) = None).
Proof.
  split.
  - rewrite run_ops_app. cbn [run_ops foldl]. destruct op.
    + apply tracked_pushTarget.
    + apply tracked_popTarget.
  - intros Hs. unfold popTarget. cbn [targetStack engine]. by rewrite Hs.
Qed.

(** ** handleError *)

Lemma keeps_stack_wret {A} (a : A) : keeps_stack (wret a).
Proof. done. Qed.

Lemma keeps_stack_wthrow {A} e : keeps_stack (@wthrow A e).
Proof. done. Qed.

Lemma keeps_stack_lift {A} (m : M A) : keeps_stack (lift m).
Proof. intros w. unfold lift. by destruct (m (engine w)). Qed.

Lemma keeps_stack_wbind {A B} (m : W A) (f : A -> W B) :
  keeps_stack m -> (forall a, keeps_stack (f a)) -> keeps_stack (wbind m f).
Proof.
  intros Hm Hf w. unfold wbind. specialize (Hm w).
  destruct (m w) as [a w1|e w1|]; [|done..].
  specialize (Hf a w1). destruct (f a w1); congruence.
Qed.

Lemma keeps_stack_try_catch {A} (m : W A) (h : string -> W A) :
  keeps_stack m -> (forall e, keeps_stack (h e)) -> keeps_stack (try_catch m h).
Proof.
  intros Hm Hh w. unfold try_catch. specialize (Hm w).
  destruct (m w) as [a w1|e w1|]; [done| |done].
  specialize (Hh e w1). destruct (h e w1); congruence.
Qed.

Section ErrorFacts.

Context (H : host) (E : handlers).

Lemma keeps_stack_logError err vm info : keeps_stack (logError H E err vm info).
Proof.
  unfold logError. apply keeps_stack_wbind; [apply keeps_stack_lift|].
  intros _. destruct (has_console E); [done|apply keeps_stack_wthrow].
Qed.

Lemma keeps_stack_globalHandleError err vm info :
  keeps_stack (globalHandleError H E err vm info).
Proof.
  unfold globalHandleError. destruct (errorHandler E) as [handler|];
    [|apply keeps_stack_logError].
  apply keeps_stack_try_catch; [apply keeps_stack_lift|].
  intros e. apply keeps_stack_wbind; [|intros _; apply keeps_stack_logError].
  destruct (negb _); [apply keeps_stack_logError|apply keeps_stack_wret].
Qed.

Lemma keeps_stack_run_hooks cur hooks err vm info :
  keeps_stack (run_hooks H E cur hooks err vm info).
Proof.
  induction hooks as [|h hooks IH]; [done|]. cbn [run_hooks].
  apply keeps_stack_wbind.
  - apply keeps_stack_try_catch.
    + apply keeps_stack_wbind; [apply keeps_stack_lift|intros ?; apply keeps_stack_wret].
    + intros e. apply keeps_stack_wbind; [apply keeps_stack_globalHandleError|].
      intros _. apply keeps_stack_wret.
  - intros []; [apply keeps_stack_wret|apply IH].
Qed.

Lemma keeps_stack_run_ancestors cur err vm info :
  keeps_stack (run_ancestors H E cur err vm info).
Proof.
  revert cur. fix IH 1. intros [id parent hooks]. cbn [run_ancestors].
  apply keeps_stack_wbind.
  - destruct hooks; [apply keeps_stack_run_hooks|apply keeps_stack_wret].
  - intros []; [apply keeps_stack_wret|].
    destruct parent as [p|]; [apply IH|apply keeps_stack_wret].
Qed.

Lemma run_ancestors_no_hooks cur err vm info w :
  no_hooks cur = true -> run_ancestors H E cur err vm info w = Done false w.
Proof.
  revert cur. fix IH 1. intros [id parent hooks] Hn. cbn [run_ancestors no_hooks] in *.
  destruct hooks; [done|]. unfold wbind, wret.
  destruct parent as [p|]; [by apply IH|done].
Qed.

Lemma handleError_frame err vm info w :
  match handleError H E err vm info w with
  | Done _ w' | Thrown _ w' =>
      targetStack w' = targetStack w
      /\ target (engine w') = stack_top (targetStack w)
  | Stuck => True
  end.
Proof.
  unfold handleError, try_finally.
  set (m := wbind _ _).
  assert (keeps_stack m) as Hk.
  { unfold m. apply keeps_stack_wbind.
    - destruct vm as [[id [p|] hooks]|];
        [apply keeps_stack_run_ancestors|apply keeps_stack_wret..].
    - intros []; [apply keeps_stack_wret|].
      apply keeps_stack_wbind; [apply keeps_stack_globalHandleError|].
      intros _. apply keeps_stack_wret. }
  specialize (Hk (pushTarget None w)).
  destruct (m (pushTarget None w)) as [a w1|e w1|]; [| |done];
    unfold popTarget; cbn [targetStack engine target with_target]; rewrite Hk;
    cbn [pushTarget targetStack]; by rewrite removelast_snoc.
Qed.

(** X18. [handleError] leaves [targetStack] as it found it and [Dep.target]
    at the top of the stack, whether it returns or throws: dependency
    tracking is switched off for the hooks and handlers and switched back
    on by the [finally]. *)
Theorem handleError_restores err vm info w :
  match handleError H E err vm info w with
  | Done _ w' | Thrown _ w' =>
      targetStack w' = targetStack w
      /\ target (engine w') = stack_top (targetStack w)
  | Stuck => True
  end.
Proof. apply handleError_frame. Qed.

End ErrorFacts.

Lemma restored_eq w c st t :
  World (removelast (targetStack w ++ [t])) c
        (with_target (stack_top (removelast (targetStack w ++ [t]))) st)
  = restored w c st.
Proof. by rewrite removelast_snoc. Qed.

Lemma with_target_twice t t' st : with_target t (with_target t' st) = with_target t st.
Proof. done. Qed.

Lemma warned_target H info err t st :
  with_target t (warned H info err (with_target None st))
  = with_target t (warned H info err st).
Proof. done. Qed.

Section ErrorTheorems.

Context (H : host) (E : handlers).

Lemma logError_step err vm info w :
  logError H E err vm info w
  = if has_console E
    then Done VUndef (World (targetStack w) (console w ++ [err])
                        (warned H info err (engine w)))
    else Thrown err (World (targetStack w) (console w) (warned H info err (engine w))).
Proof.
  unfold logError, wbind, lift. fold (error_warning info err).
  rewrite warn_step. fold (warned H info err (engine w)).
  by destruct (has_console E).
Qed.

(** X19. An [errorCaptured] hook that returns false ends [handleError]: no
    other hook and no global handler is called and nothing is logged. The
    hook is called with dependency tracking off, and [Dep.target] is back
    afterwards. Stated for the first hook of the parent of [vm]. *)
Theorem errorCaptured_false_stops err id pid grandparent h hs own_hooks info w s' :
  hook_call E h pid err (Some id) info (with_target None (engine w))
  = Ret (VBool false) s' ->
  handleError H E err
    (Some (Component id (Some (Component pid grandparent (Some (h :: hs)))) own_hooks))
    info w
  = Done tt (restored w (console w) s').
Proof.
  intros Eh. unfold handleError, try_finally.
  cbn [vm_id run_ancestors run_hooks].
  unfold wbind at 1. unfold wbind at 1. unfold wbind at 1.
  unfold try_catch, wbind at 1, lift.
  cbn [pushTarget engine]. rewrite Eh. cbn [wret strict_eq Bool.eqb].
  unfold popTarget. cbn [with_engine pushTarget targetStack console engine].
  by rewrite restored_eq.
Qed.

(** X20. An error that no hook captures and with no [config.errorHandler]
    goes to [logError]: the warning in a development build, then
    [console.error] and a normal return where there is a console, and the
    error thrown again where there is none. *)
Theorem handleError_logs err vm info w :
  no_ancestor_hooks vm = true -> errorHandler E = None ->
  handleError H E err vm info w
  = if has_console E
    then Done tt (restored w (console w ++ [err]) (warned H info err (engine w)))
    else Thrown err (restored w (console w) (warned H info err (engine w))).
Proof.
  intros Hn He. unfold handleError, try_finally.
  assert (match vm with
          | Some (Component _ (Some p) _) => run_ancestors H E p err (vm_id vm) info
          | _ => wret false
          end (pushTarget None w) = Done false (pushTarget None w)) as Ea.
  { destruct vm as [[id [p|] hooks]|]; try done.
    by apply run_ancestors_no_hooks. }
  unfold wbind at 1. rewrite Ea.
  unfold wbind at 1. unfold globalHandleError. rewrite He, logError_step.
  destruct (has_console E); cbn [wret]; unfold popTarget;
    cbn [targetStack console engine pushTarget];
    rewrite restored_eq; unfold restored; by rewrite warned_target.
Qed.

(** X21. With a [config.errorHandler], an error that no hook captures goes to
    the handler in place of the log: when the handler returns nothing is
    logged; when it throws the error it was given, that error is logged
    once; when it throws another error, that one is logged first and the
    original after it. *)
Theorem errorHandler_outcomes err vm info w handler :
  no_ancestor_hooks vm = true -> errorHandler E = Some handler ->
  has_console E = true ->
  (forall r s', handler err (vm_id vm) info (with_target None (engine w)) = Ret r s' ->
     handleError H E err vm info w = Done tt (restored w (console w) s'))
  /\ (forall e s', handler err (vm_id vm) info (with_target None (engine w)) = Raise e s' ->
        handleError H E err vm info w
        = Done tt (if String.eqb e err
                   then restored w (console w ++ [err]) (warned H info err s')
                   else restored w (console w ++ [e; err])
                          (warned H info err (warned H "config.errorHandler" e s')))).
Proof.
  intros Hn He Hc.
  assert (forall w0, match vm with
          | Some (Component _ (Some p) _) => run_ancestors H E p err (vm_id vm) info
          | _ => wret false
          end w0 = Done false w0) as Ea.
  { intros w0. destruct vm as [[id [p|] hooks]|]; try done.
    by apply run_ancestors_no_hooks. }
  split.
  - intros r s' Eh. unfold handleError, try_finally.
    unfold wbind at 1. rewrite Ea.
    unfold wbind at 1. unfold globalHandleError. rewrite He.
    unfold try_catch, lift. cbn [pushTarget engine]. rewrite Eh.
    cbn [wret]. unfold popTarget. cbn [with_engine pushTarget targetStack console engine].
    by rewrite restored_eq.
  - intros e s' Eh. unfold handleError, try_finally.
    unfold wbind at 1. rewrite Ea.
    unfold wbind at 1. unfold globalHandleError. rewrite He.
    unfold try_catch, lift. cbn [pushTarget engine]. rewrite Eh.
    unfold wbind at 1.
    destruct (String.eqb e err) eqn:Heq; cbn [negb].
    + cbn [wret]. rewrite logError_step, Hc. cbn [wret].
      unfold popTarget. cbn [with_engine pushTarget targetStack console engine].
      by rewrite restored_eq.
    + rewrite logError_step, Hc. rewrite logError_step, Hc. cbn [wret].
      unfold popTarget. cbn [with_engine pushTarget targetStack console engine].
      rewrite restored_eq. by rewrite <- app_assoc.
Qed.

(** X22. An [errorCaptured] hook that throws does not stop the handling: the
    error it threw is reported, as an error in the hook, and then the
    original error is. Stated for a parent with that one hook, no other
    ancestor, no [config.errorHandler] and a console. *)
Theorem errorCaptured_throws err id pid h own_hooks info w e s' :
  errorHandler E = None -> has_console E = true ->
  hook_call E h pid err (Some id) info (with_target None (engine w)) = Raise e s' ->
  handleError H E err
    (Some (Component id (Some (Component pid None (Some [h]))) own_hooks)) info w
  = Done tt (restored w (console w ++ [e; err])
               (warned H info err (warned H "errorCaptured hook" e s'))).
Proof.
  intros He Hc Eh. unfold handleError, try_finally.
  cbn [vm_id run_ancestors run_hooks].
  unfold wbind at 1. unfold wbind at 1. unfold wbind at 1.
  unfold try_catch, wbind at 1, lift.
  cbn [pushTarget engine]. rewrite Eh.
  unfold wbind at 1. unfold globalHandleError. rewrite He.
  rewrite logError_step, Hc. cbn [wret].
  unfold wbind at 1. rewrite logError_step, Hc. cbn [wret].
  unfold popTarget. cbn [with_engine pushTarget targetStack console engine].
  rewrite restored_eq. by rewrite <- app_assoc.
Qed.

(** X23. [getData] calls [data] with dependency tracking off and puts
    [Dep.target] back afterwards. It returns what [data] returns; when
    [data] throws, the error goes to [handleError] and [getData] returns
    an empty object made for the occasion. *)
Theorem getData_spec data vm w :
  (forall v s', data (with_target None (engine w)) = Ret v s' ->
     getData H E data vm w = Done v (restored w (console w) s'))
  /\ (forall e s' w1,
        data (with_target None (engine w)) = Raise e s' ->
        handleError H E e vm "data()" (World (targetStack w ++ [None]) (console w) s')
        = Done tt w1 ->
        getData H E data vm w
        = Done (VRef (fresh_loc (engine w1)))
            (restored w (console w1)
               (with_heap (<[fresh_loc (engine w1) := Obj KPlain true [] [] false]>
                             (heap (engine w1))) (engine w1)))).
Proof.
  split.
  - intros v s' Ed. unfold getData, try_finally, try_catch, lift.
    cbn [pushTarget engine]. rewrite Ed.
    unfold popTarget. cbn [with_engine pushTarget targetStack console engine].
    by rewrite restored_eq.
  - intros e s' w1 Ed Eh. unfold getData, try_finally, try_catch, lift.
    cbn [pushTarget engine]. rewrite Ed.
    unfold wbind.
    change (with_engine s' (pushTarget None w))
      with (World (targetStack w ++ [None]) (console w) s').
    rewrite Eh. unfold new_object.
    pose proof (handleError_frame H E e vm "data()"
                  (World (targetStack w ++ [None]) (console w) s')) as Hr.
    rewrite Eh in Hr. cbn [targetStack] in Hr. destruct Hr as [Hst _].
    unfold popTarget. cbn [with_engine pushTarget targetStack console engine].
    rewrite Hst. by rewrite restored_eq.
Qed.

End ErrorTheorems.

(** ** initInjections *)

Global Instance shallow_at_preorder vm : PreOrder (shallow_at vm).
Proof.
  split; [done|]. intros x y z [Hn1 Hh1] [Hn2 Hh2]. split; [congruence|].
  intros l Hl. by rewrite Hh2, Hh1.
Qed.

Lemma subs_le_shallow vm st st' : subs_le st st' -> shallow_at vm st st'.
Proof.
  intros Hle. split.
  - by apply (subs_le_fun next_ob).
  - intros l _. by rewrite (subs_le_heap _ _ Hle).
Qed.

(** With observing toggled off [observe] is a lookup. *)
Lemma observe_off H fuel v r st ob st' :
  shouldObserve st = false ->
  observe H fuel v r st = Ret ob st' -> subs_le st st'.
Proof.
  intros Hoff. destruct fuel as [|n]; [done|].
  change (observe H (S n) v r st)
    with (observe_body H (dependArray n) (fun v => observe H n v false) v r st).
  rewrite observe_body_stages. destruct (_ || _).
  { intros [= <- <-]. apply subs_le_refl. }
  intros E. apply bind_Ret_inv in E as (ob' & s' & E & Eb).
  cbv beta in Eb. injection Eb as <- <-.
  etrans; [|apply subs_le_bump].
  apply bind_Ret_inv in E as (found & s1 & Ef & Ec).
  pose proof (frames_Ret _ _ _ _ _
    (reads_frames _ (found_step_reads _ (dependArray_reads n) v)) Ef) as Hle1.
  etrans; [exact Hle1|].
  destruct (is_observer found) eqn:Eo.
  - rewrite create_step_found in Ec by done.
    by eapply frames_Ret; [apply reads_frames, member_reads|].
  - rewrite create_step_fresh in Ec by done. unfold create_fresh in Ec.
    unfold bind at 1 in Ec. unfold gets at 1 in Ec.
    assert (observable H v s1 = false) as Hno.
    { unfold observable. by rewrite (subs_le_fun shouldObserve st s1), Hoff. }
    rewrite Hno in Ec. unfold ret in Ec. simplify_eq. apply subs_le_refl.
Qed.

Lemma defineReactive_shallow H fuel vm key v cs st st' :
  shouldObserve st = false ->
  defineReactive H fuel vm key (Some v) cs false st = Ret tt st' ->
  shallow_at vm st st' /\ shouldObserve st' = false.
Proof.
  intros Hoff E.
  destruct (get_own vm key st) as [p|] eqn:Hp.
  - destruct (prop_configurable p) eqn:Hc.
    + destruct (defineReactive_inv _ _ _ _ _ _ _ _ _ E) as (v' & s2 & c & s3 & Ev & Ec & Ed).
      { intros p'. rewrite Hp. by intros [= <-]. }
      rewrite andb_false_r in Ev. destruct Ev as [-> ->].
      pose proof (observe_off H fuel _ false (dep_made st) c s3 Hoff Ec) as Hle.
      apply defineProperty_Ret in Ed as (_ & o4 & Ho4 & ->).
      split; [|change (shouldObserve s3 = false);
               by rewrite (subs_le_fun shouldObserve (dep_made st) s3)].
      split; [change (next_ob s3 = next_ob st);
              by rewrite (subs_le_fun next_ob (dep_made st) s3)|].
      intros l Hl. cbn [heap with_heap closure_made with_clos with_next_cid].
      rewrite lookup_insert_ne by done. by rewrite (subs_le_heap _ _ Hle).
    + rewrite (defineReactive_skips H fuel vm key (Some v) cs false st p Hp Hc) in E.
      by simplify_eq.
  - destruct (defineReactive_inv _ _ _ _ _ _ _ _ _ E) as (v' & s2 & c & s3 & Ev & Ec & Ed).
    { intros p'. by rewrite Hp. }
    rewrite andb_false_r in Ev. destruct Ev as [-> ->].
    pose proof (observe_off H fuel _ false (dep_made st) c s3 Hoff Ec) as Hle.
    apply defineProperty_Ret in Ed as (_ & o4 & Ho4 & ->).
    split; [|change (shouldObserve s3 = false);
             by rewrite (subs_le_fun shouldObserve (dep_made st) s3)].
    split; [change (next_ob s3 = next_ob st);
            by rewrite (subs_le_fun next_ob (dep_made st) s3)|].
    intros l Hl. cbn [heap with_heap closure_made with_clos with_next_cid].
    rewrite lookup_insert_ne by done. by rewrite (subs_le_heap _ _ Hle).
Qed.

Lemma define_injections_shallow H mw fuel vm r keys : forall st st',
  shouldObserve st = false ->
  define_injections H mw fuel vm r keys st = Ret tt st' ->
  shallow_at vm st st' /\ shouldObserve st' = false.
Proof.
  induction keys as [|key keys IH]; intros st st' Hoff E.
  { simpl in E. unfold ret in E. by simplify_eq. }
  simpl in E. apply bind_Ret_inv in E as (v & s1 & Ev & E).
  apply bind_Ret_inv in E as ([] & s2 & Ed & E).
  pose proof (frames_Ret _ _ _ _ _ (reads_frames _ (prop_reads fuel r key)) Ev) as Hle.
  destruct (defineReactive_shallow _ _ _ _ _ _ _ _
              ltac:(by rewrite (subs_le_fun shouldObserve st s1)) Ed) as [Hs2 Hoff2].
  destruct (IH _ _ Hoff2 E) as [Hs3 Hoff3].
  split; [|done]. etrans; [by apply subs_le_shallow|]. by etrans.
Qed.

(** X24. [initInjections] is shallow: once [resolveInject] has returned its
    result, no Observer is made and no object but [vm] is changed, so the
    injected values are as the provider left them. When there is a result
    observing is on afterwards, whatever it was before; when there is none
    nothing is done. *)
Theorem initInjections_shallow H resolveInject mw fuel vm st st' result st1 :
  initInjections H resolveInject mw fuel vm st = Ret tt st' ->
  resolveInject st = Ret result st1 ->
  shallow_at vm st1 st'
  /\ (truthy result = true -> shouldObserve st' = true)
  /\ (truthy result = false -> st' = st1).
Proof.
  unfold initInjections. intros E Er.
  rewrite (bind_Ret _ _ _ _ _ Er) in E.
  destruct (truthy result); [|unfold ret in E; by simplify_eq].
  unfold bind at 1 in E. cbn [toggleObserving modify] in E.
  apply bind_Ret_inv in E as ([] & s2 & E & Et).
  unfold toggleObserving, modify in Et. injection Et as <-.
  assert (shallow_at vm st1 s2) as [Hn Hh].
  { destruct result as [| | | | | |r| |]; try (unfold ret in E; by simplify_eq).
    unfold bind at 1 in E. unfold gets at 1 in E.
    destruct (define_injections_shallow H mw fuel vm r _ (with_shouldObserve false st1)
                s2 eq_refl E) as [[Hn Hh] _].
    split; [exact Hn|exact Hh]. }
  split; [by split|]. by split.
Qed.

(** ** matches *)

Lemma split_comma_cons s : exists first rest, split_comma s = first :: rest.
Proof.
  induction s as [|c s IH]; simpl; [by eexists _, _|].
  destruct (Ascii.eqb c comma); [by eexists _, _|].
  destruct IH as (f & r & ->). by eexists _, _.
Qed.

Lemma split_comma_join name rest :
  has_comma name = false ->
  split_comma (name ++ "," ++ rest)%string = name :: split_comma rest.
Proof.
  induction name as [|c name IH]; simpl; [done|].
  intros Hc. apply orb_false_elim in Hc as [Hc Hn]. rewrite Hc.
  by rewrite IH.
Qed.

Lemma split_comma_plain name : has_comma name = false -> split_comma name = [name].
Proof.
  induction name as [|c name IH]; simpl; [done|].
  intros Hc. apply orb_false_elim in Hc as [Hc Hn]. rewrite Hc.
  by rewrite IH.
Qed.

Lemma split_comma_concat names :
  names <> [] -> Forall (fun n => has_comma n = false) names ->
  split_comma (String.concat "," names) = names.
Proof.
  induction names as [|n names IH]; [done|]. intros _ Hall.
  apply Forall_cons in Hall as [Hn Hall].
  destruct names as [|n' names]; [by apply split_comma_plain|].
  change (String.concat "," (n :: n' :: names))
    with (n ++ "," ++ String.concat "," (n' :: names))%string.
  rewrite split_comma_join by done. f_equal. by apply IH.
Qed.

(** X25. A string pattern is the array of its comma-separated parts: for
    names without a comma, [matches] answers on the names joined by commas
    as on the array of the names. Nothing is trimmed, and the empty string
    is the pattern of the empty name, not of no name. *)
Theorem matches_string_pattern names name :
  (names <> [] -> Forall (fun n => has_comma n = false) names ->
   matches (PatString (String.concat "," names)) name = matches (PatArray names) name)
  /\ matches (PatString "") name = bool_decide (name = "")
  /\ matches (PatArray []) name = false
  /\ matches PatOther name = false.
Proof.
  split; [|split; [|done]].
  - intros Hne Hall. unfold matches. by rewrite split_comma_concat.
  - unfold matches. simpl. apply bool_decide_ext, list_elem_of_singleton.
Qed.

(** * Witnesses and counterexamples *)

(** ** C1 *)

Lemma observe_idempotent_witness :
  observe std_host 4 (VRef 0) false ex_plain = Ret (VObserver 0 0 0) ex_observed
  /\ observe std_host 4 (VRef 0) true ex_observed
     = Ret (VObserver 0 0 0) (bump true (VObserver 0 0 0) ex_observed).
Proof.
  assert (E : observe std_host 4 (VRef 0) false ex_plain
              = Ret (VObserver 0 0 0) ex_observed) by (vm_compute; reflexivity).
  split; [exact E|].
  exact (proj1 (proj2 (observe_idempotent std_host 4 (VRef 0) false true ex_plain) _ _ E)).
Defined.

(** ** C2 *)

(** The claim fails on a property with a getter and no setter (the write of
    2 over 1 is dropped: nothing is logged, the property still reads 1),
    and on a shallow property (the new value, an object that can be
    observed, is stored and notified but not observed). *)
Lemma reactiveSetter_counterexample :
  (identical (VNum 2) (VNum 1) = false
   /\ exists st',
        put_prop std_host 3 0 "x" (VNum 2) ex_getter_only = Ret tt st'
        /\ log st' = []
        /\ get_prop (dependArray 3) 0 "x" st' = Ret (VNum 1) st')
  /\ (identical (VRef 1) (VNum 0) = false
      /\ observable std_host (VRef 1) ex_shallow = true
      /\ exists st',
           put_prop std_host 3 0 "p" (VRef 1) ex_shallow = Ret tt st'
           /\ log st' = [EvNotify 0]
           /\ get_prop (dependArray 3) 0 "p" st' = Ret (VRef 1) st'
           /\ get_own 1 "__ob__" st' = None).
Proof.
  split; [split; [reflexivity|]|split; [reflexivity|split; [reflexivity|]]].
  - eexists. split; [vm_compute; reflexivity|].
    split; vm_compute; reflexivity.
  - eexists. split; [vm_compute; reflexivity|].
    split; [vm_compute; reflexivity|]. split; vm_compute; reflexivity.
Qed.

Lemma reactiveSetter_write_witness :
  get_own 0 "count" ex_observed
  = Some (PAccessor (Some (GReactive 0 0 1 None))
                    (Some (SReactive 0 0 1 None None None false)) true true)
  /\ call_setter std_host 4 (SReactive 0 0 1 None None None false) (VNum 1) ex_observed
     = Ret tt ex_observed
  /\ exists st4,
       call_setter std_host 4 (SReactive 0 0 1 None None None false) (VRef 4) ex_observed
       = Ret tt st4
       /\ is_Some (ob_slot 4 st4).
Proof.
  split; [vm_compute; reflexivity|].
  destruct (reactiveSetter_write std_host 4 0 0 1 None None None false (VNum 1)
              ex_observed (VNum 1) ex_observed) as [HA _];
    [split; vm_compute; reflexivity|].
  split; [exact (proj1 (HA eq_refl))|].
  destruct (reactiveSetter_write std_host 4 0 0 1 None None None false (VRef 4)
              ex_observed (VNum 1) ex_observed) as [_ HB];
    [split; vm_compute; reflexivity|].
  edestruct (HB eq_refl (or_introl eq_refl)) as (st4 & E & En & _ & _ & _ & Hw);
    [reflexivity|vm_compute; reflexivity|].
  exists st4. split; [exact E|].
  vm_compute in En. injection En as <-. vm_compute. eexists. reflexivity.
Defined.

(** ** C3 *)


(** ** C4 *)

(** The value of the shallow property [list] is an observed array with an
    observed element; reading it while watcher 7 is evaluated subscribes 7
    to the dep of the property (2) and to no other: not to the dep of the
    array's Observer (0), not to that of the element's (1). *)
Lemma reactiveGetter_counterexample :
  target ex_list_shallow = Some 7
  /\ ob_slot 1 ex_list_shallow = Some (VObserver 0 1 0)
  /\ ob_slot 2 ex_list_shallow = Some (VObserver 1 2 1)
  /\ isArray (VRef 1) ex_list_shallow = true
  /\ exists st',
       get_prop (dependArray 3) 0 "list" ex_list_shallow = Ret (VRef 1) st'
       /\ subs_of 2 st' = [7]
       /\ subs_of 0 st' = []
       /\ subs_of 1 st' = [].
Proof.
  do 4 (split; [vm_compute; reflexivity|]).
  eexists. split; [vm_compute; reflexivity|].
  do 2 (split; [vm_compute; reflexivity|]). vm_compute; reflexivity.
Qed.

Lemma reactiveGetter_subscribes_witness :
  get_own 0 "list" ex_list_deep
  = Some (PAccessor (Some (GReactive 0 0 2 None))
                    (Some (SReactive 0 0 2 None None None false)) true true)
  /\ (exists v, call_getter (dependArray 3) (GReactive 0 0 2 None)
                  (with_target None ex_list_deep)
                = Ret v (with_target None ex_list_deep))
  /\ exists st',
       call_getter (dependArray 3) (GReactive 0 0 2 None) ex_list_deep
       = Ret (VRef 1) st'
       /\ 7 ∈ subs_of 2 st' /\ 7 ∈ subs_of 0 st' /\ 7 ∈ subs_of 1 st'.
Proof.
  split; [vm_compute; reflexivity|]. split.
  - exact (proj1 (reactiveGetter_subscribes 3 0 0 2 None
                    (with_target None ex_list_deep)) eq_refl).
  - destruct (proj2 (reactiveGetter_subscribes 3 0 0 2 None ex_list_deep)
                7 (VRef 1) ex_list_deep)
      as (st' & E & _ & Hp & Hc & _).
    + reflexivity.
    + split; vm_compute; reflexivity.
    + right. right. exists 0, 1, 0. vm_compute; reflexivity.
    + intros l Hl _ _. injection Hl as <-. vm_compute; reflexivity.
    + exists st'. split; [exact E|]. split; [exact Hp|].
      destruct (Hc 0 1 0) as [Hcd Hel]; [vm_compute; reflexivity|].
      split; [exact Hcd|].
      apply (Hel 1 1 eq_refl); [vm_compute; reflexivity|].
      eapply (elem_dep_here ex_list_deep 1 _ 2 1 2 1);
        [vm_compute; reflexivity|apply list_elem_of_here|vm_compute; reflexivity].
Defined.

(** ** C5 *)

(** A watcher that unsubscribes every watcher of dep 0 when it is updated:
    the three subscribers present on entry are still all notified. *)
Example notify_snapshot_example :
  let H := Host true true false true (fun _ => false) (fun _ => false)
                (fun _ es => es) (fun _ st => with_subs (<[0 := []]> (subs st)) st) in
  match notify H 0 (with_subs (<[0 := [3; 1; 2]]> ∅) empty_state) with
  | Ret _ st' => log st' = [EvNotify 0; EvUpdate 3; EvUpdate 1; EvUpdate 2]
                 /\ subs_of 0 st' = []
  | _ => False
  end.
Proof. vm_compute. done. Qed.

(** ** C6 *)



(** ** C7 *)



(** ** C8 *)

(** On root data, a plain observed object, the own key [count] is not
    deleted: [del] reports the warning and returns. *)
Lemma del_plain_object_counterexample :
  ob_slot 0 ex_root = Some (VObserver 0 0 0)
  /\ is_Some (get_own 0 "count" ex_root)
  /\ exists st',
       del std_host 4 (VRef 0) (KName "count") ex_root = Ret tt st'
       /\ get_own 0 "count" st' = get_own 0 "count" ex_root
       /\ log st' = [EvWarn del_root_warning].
Proof.
  split; [vm_compute; reflexivity|]. split; [vm_compute; eexists; reflexivity|].
  eexists. split; [vm_compute; reflexivity|]. split; vm_compute; reflexivity.
Qed.

Lemma del_plain_object_witness :
  del std_host 4 (VRef 0) (KName "absent") ex_observed = Ret tt ex_observed
  /\ exists st2,
       del std_host 4 (VRef 0) (KName "count") ex_observed = Ret tt st2
       /\ log st2 = [EvNotify 0].
Proof.
  pose (o := object [("count", PAccessor (Some (GReactive 0 0 1 None))
                                 (Some (SReactive 0 0 1 None None None false)) true true);
                     ("child", PAccessor (Some (GReactive 2 0 2 None))
                                 (Some (SReactive 2 0 2 None None None false)) true true);
                     ("list", PAccessor (Some (GReactive 4 0 5 None))
                                (Some (SReactive 4 0 5 None None None false)) true true);
                     ("__ob__", PData (VObserver 0 0 0) false true true)]).
  split.
  - apply (proj1 (del_plain_object std_host 4 0 (KName "absent") ex_observed o 0 0 0
                    ltac:(vm_compute; reflexivity) eq_refl
                    ltac:(vm_compute; reflexivity) ltac:(vm_compute; reflexivity)
                    ltac:(vm_compute; reflexivity))).
    vm_compute; reflexivity.
  - edestruct (proj2 (del_plain_object std_host 4 0 (KName "count") ex_observed o 0 0 0
                        ltac:(vm_compute; reflexivity) eq_refl
                        ltac:(vm_compute; reflexivity) ltac:(vm_compute; reflexivity)
                        ltac:(vm_compute; reflexivity)))
      as (st2 & E & _ & _ & Hlog); [vm_compute; reflexivity|reflexivity|].
    exists st2. split; [exact E|exact Hlog].
Defined.

(** ** C9 *)

Lemma defineReactive_nonconfigurable_witness :
  exists st',
    defineReactive std_host 3 0 "id" None None false ex_frozen_key = Ret tt st'
    /\ heap st' = heap ex_frozen_key
    /\ get_own 0 "id" st' = Some (PData (VNum 1) true true false).
Proof.
  destruct (defineReactive_nonconfigurable std_host 3 0 "id" None None false
              ex_frozen_key (PData (VNum 1) true true false))
    as (st' & E & _ & Hh & Hg); [vm_compute; reflexivity|reflexivity|].
  exists st'. split; [exact E|]. split; [exact Hh|exact Hg].
Defined.

(** ** C10 *)

Lemma reactiveSetter_getter_only_witness :
  defineReactive std_host 3 0 "x" None None false ex_getter_pre = Ret tt ex_getter_only
  /\ exists k dep,
       get_own 0 "x" ex_getter_only
       = Some (PAccessor (Some (GReactive k 0 dep (Some (GNative 0))))
                         (Some (SReactive k 0 dep (Some (GNative 0)) None None false))
                         true true)
       /\ call_setter std_host 3 (SReactive k 0 dep (Some (GNative 0)) None None false)
            (VNum 2) ex_getter_only = Ret tt ex_getter_only.
Proof.
  assert (E : defineReactive std_host 3 0 "x" None None false ex_getter_pre
              = Ret tt ex_getter_only) by (vm_compute; reflexivity).
  split; [exact E|].
  destruct (reactiveSetter_getter_only std_host 3 0 "x" None None false (GNative 0) true
              ex_getter_pre ex_getter_only) as (k & dep & Hg & Hw);
    [vm_compute; reflexivity|exact E|].
  exists k, dep. split; [exact Hg|].
  destruct (Hw 3 (VNum 2) ex_getter_only (VNum 1) ex_getter_only)
    as (s2 & E2 & Es & _); [vm_compute; reflexivity|reflexivity|].
  rewrite E2. f_equal. rewrite Es. vm_compute. reflexivity.
Defined.

(** * Witnesses of the further properties *)

Lemma observe_non_container_witness :
  observe std_host 1 (VNum 5) true ex_plain = Ret VUndef ex_plain.
Proof. apply (observe_non_container std_host 0 (VNum 5) true ex_plain). by left. Defined.

Lemma observe_declines_witness :
  observe std_host 1 (VRef 0) false ex_frozen = Ret VUndef ex_frozen.
Proof.
  apply (observe_declines std_host 0 0 false ex_frozen); [reflexivity|].
  right. right. right. left. reflexivity.
Defined.

Lemma ex_data_NoDup : NoDup (o_props ex_data).*1.
Proof.
  apply (bool_decide_unpack (NoDup (o_props ex_data).*1)). vm_compute. exact I.
Qed.

Lemma ex_plain_observed :
  observe std_host 4 (VRef 0) false ex_plain = Ret (VObserver 0 0 0) ex_observed.
Proof. vm_compute. reflexivity. Qed.

Lemma observe_converts_witness :
  exists k d,
    get_own 0 "count" ex_observed
    = Some (reactive_prop k 0 d (Some (data (VNum 1))) None false)
    /\ closure_val k ex_observed = VNum 1.
Proof.
  pose proof (observe_converts std_host 4 0 false ex_plain ex_data _ ex_observed
                "count" (data (VNum 1)) eq_refl eq_refl ex_data_NoDup eq_refl
                eq_refl eq_refl ex_plain_observed eq_refl) as Hc.
  cbn [prop_enumerable prop_configurable data andb] in Hc.
  destruct Hc as (k & d & Hg & Hv). exists k, d. split; [exact Hg|].
  exact (proj1 (Hv _ _ _ _ eq_refl)).
Defined.

Lemma observe_keeps_keys_witness :
  exists o',
    heap ex_observed !! 0 = Some o'
    /\ (o_props o').*1 = ["count"; "child"; "list"; "__ob__"]
    /\ object_keys o' = ["count"; "child"; "list"].
Proof.
  destruct (observe_keeps_keys std_host 4 0 false ex_plain ex_data _ ex_observed
              eq_refl eq_refl ex_data_NoDup eq_refl eq_refl eq_refl ex_plain_observed)
    as (o' & Ho & Hk & _ & _ & Hkeys).
  exists o'. split; [exact Ho|]. split; [exact Hk|]. rewrite Hkeys. reflexivity.
Defined.

Lemma observe_deep_witness :
  exists k obm,
    closure_childOb k ex_observed = obm
    /\ ob_slot 1 ex_observed = Some obm /\ is_observer obm = true.
Proof.
  destruct (observe_deep std_host 4 0 false ex_plain ex_data _ ex_observed "child" 1 true
              eq_refl eq_refl ex_data_NoDup eq_refl eq_refl eq_refl ex_plain_observed
              eq_refl eq_refl eq_refl) as (k & d & obm & _ & _ & Hc & Hs & Ho).
  { left. reflexivity. }
  exists k, obm. split; [exact Hc|]. split; [exact Hs|exact Ho].
Defined.

Lemma observe_array_witness :
  exists o',
    heap ex_array_observed !! 2 = Some o'
    /\ o_elems o' = [VRef 3; VNum 4]
    /\ is_Some (ob_slot 3 ex_array_observed)
    /\ call_method std_host 4 2 Push [VNum 7] ex_array_observed
       = mutator std_host 4 Push 2 [VNum 7] ex_array_observed.
Proof.
  destruct (observe_array std_host 4 2 false ex_plain (array [VRef 3; VNum 4])
              (VObserver 0 2 0) ex_array_observed)
    as (o' & Ho & He & _ & _ & _ & Hcall & Hel);
    [reflexivity|reflexivity|reflexivity|reflexivity|reflexivity
    |vm_compute; reflexivity|].
  exists o'. split; [exact Ho|]. split; [exact He|]. split.
  - apply (Hel 3); [by left|reflexivity|reflexivity|left; reflexivity].
  - apply Hcall. right. reflexivity.
Defined.


Lemma del_array_index_witness :
  exists st1 st2,
    heap st1 !! 2
    = Some (Obj KArray true [("__ob__", PData (VObserver 2 2 6) false true true)]
                [VRef 3; VNum 4] true)
    /\ del std_host 4 (VRef 2) (KIdx 7) ex_observed = Ret tt st2
    /\ log st2 = [EvNotify 6].
Proof.
  destruct (del_array_index std_host 4 2 7 ex_observed
              (Obj KArray true [("__ob__", PData (VObserver 2 2 6) false true true)]
                   [VRef 3; VNum 4] true) 2 2 6)
    as (st1 & st2 & Ho1 & _ & _ & E & _ & Hl);
    [vm_compute; reflexivity|reflexivity|vm_compute; reflexivity|vm_compute; reflexivity|].
  exists st1, st2. split; [exact Ho1|]. split; [exact E|exact Hl].
Defined.


Lemma set_del_invalid_target_witness :
  (exists e, set std_host 4 (VNum 5) (KName "a") (VNum 1) ex_plain
             = Raise e (with_log [EvWarn set_target_warning] ex_plain))
  /\ (exists e, del std_host 4 VNull (KName "a") ex_plain
                = Raise e (with_log [EvWarn del_target_warning] ex_plain)).
Proof.
  split.
  - exact (proj1 (set_del_invalid_target std_host 4 (VNum 5) (KName "a") (VNum 1) ex_plain)
             eq_refl).
  - exact (proj2 (set_del_invalid_target std_host 4 VNull (KName "a") (VNum 1) ex_plain)
             eq_refl).
Defined.



Lemma defineReactive_read_witness :
  exists st',
    defineReactive std_host 3 4 "z" None None false ex_plain = Ret tt st'
    /\ get_prop (dependArray 3) 4 "z" st' = Ret (VNum 5) st'.
Proof.
  destruct (defineReactive std_host 3 4 "z" None None false ex_plain)
    as [[] st'|e st'|] eqn:E; [|vm_compute in E; discriminate E..].
  exists st'. split; [reflexivity|].
  destruct (defineReactive_read std_host 3 4 "z" None None false ex_plain st' E)
    as (k & d & _ & _ & Hread).
  { right. by exists (VNum 5), true, true. }
  apply Hread. vm_compute in E. injection E as <-. reflexivity.
Defined.


Lemma mutator_on_empty_witness :
  exists st',
    mutator std_host 2 Pop 0 [] ex_empty_array = Ret VUndef st'
    /\ log st' = [EvNotify 0].
Proof.
  destruct (mutator_on_empty std_host 2 Pop 0 [] ex_empty_array
              (Obj KArray true [("__ob__", PData (VObserver 0 0 0) false true true)] [] true)
              0 0 0)
    as (st' & E & _ & Hl);
    [vm_compute; reflexivity|reflexivity|vm_compute; reflexivity|by left|].
  exists st'. split; [exact E|exact Hl].
Defined.

Lemma Vue_observable_spec_witness :
  exists st',
    Vue_observable std_host 4 (VRef 4) ex_plain = Ret (VRef 4) st'
    /\ is_Some (ob_slot 4 st')
    /\ Vue_observable std_host 4 (VRef 4) st' = Ret (VRef 4) st'.
Proof.
  destruct (Vue_observable std_host 4 (VRef 4) ex_plain) as [x st'|e st'|] eqn:E;
    [|vm_compute in E; discriminate E..].
  destruct (Vue_observable_spec std_host 4 (VRef 4) ex_plain x st' E) as (-> & Hs & Ha).
  exists st'. split; [reflexivity|]. split; [|exact Ha].
  apply (Hs 4); [reflexivity|reflexivity|reflexivity|left; reflexivity].
Defined.

Lemma balanced_restores_witness :
  run_ops [OpPush (Some 1); OpPush None; OpPop; OpPush (Some 2); OpPop; OpPop] ex_world
  = ex_world.
Proof.
  apply (balanced_restores _ ex_world); [|reflexivity].
  apply (balanced_nest (Some 1) [OpPush None; OpPop; OpPush (Some 2); OpPop] []);
    [|apply balanced_nil].
  apply (balanced_nest None [] [OpPush (Some 2); OpPop]); [apply balanced_nil|].
  apply (balanced_nest (Some 2) [] []); apply balanced_nil.
Defined.

Lemma target_is_top_witness :
  tracked (run_ops [OpPush (Some 1); OpPop; OpPop] ex_world)
  /\ targetStack (popTarget ex_world) = []
  /\ target (engine (popTarget ex_world)) = None.
Proof.
  destruct (target_is_top [OpPush (Some 1); OpPop] OpPop ex_world) as [Ht He].
  split; [exact Ht|]. apply He. reflexivity.
Defined.

Lemma handleError_restores_witness :
  match handleError std_host ex_hooks "boom" (Some (ex_child [1; 0])) "render"
          (pushTarget (Some 7) ex_world) with
  | Done _ w' | Thrown _ w' =>
      targetStack w' = [Some 7] /\ target (engine w') = Some 7
  | Stuck => True
  end.
Proof.
  exact (handleError_restores std_host ex_hooks "boom" (Some (ex_child [1; 0])) "render"
           (pushTarget (Some 7) ex_world)).
Defined.

Lemma errorCaptured_false_stops_witness :
  handleError std_host ex_hooks "boom" (Some (ex_child [0; 1])) "render" ex_world
  = Done tt ex_world.
Proof.
  exact (errorCaptured_false_stops std_host ex_hooks "boom" 1 0 None 0 [1] None "render"
           ex_world (with_target None empty_state) eq_refl).
Defined.

Lemma handleError_logs_witness :
  handleError std_host ex_hooks "boom" None "render" ex_world
  = Done tt (World [] ["boom"]
               (with_log [EvWarn (error_warning "render" "boom")] empty_state)).
Proof.
  exact (handleError_logs std_host ex_hooks "boom" None "render" ex_world eq_refl eq_refl).
Defined.

Lemma errorHandler_outcomes_witness :
  handleError std_host ex_rethrow "boom" None "render" ex_world
  = Done tt (World [] ["boom"]
               (with_log [EvWarn (error_warning "render" "boom")] empty_state)).
Proof.
  exact (proj2 (errorHandler_outcomes std_host ex_rethrow "boom" None "render" ex_world
                  (fun err _ _ => throw err) eq_refl eq_refl eq_refl)
           "boom" (with_target None empty_state) eq_refl).
Defined.

Lemma errorCaptured_throws_witness :
  handleError std_host ex_hooks "boom" (Some (ex_child [1])) "render" ex_world
  = Done tt (World [] ["hook failed"; "boom"]
               (with_log [EvWarn (error_warning "errorCaptured hook" "hook failed");
                          EvWarn (error_warning "render" "boom")] empty_state)).
Proof.
  exact (errorCaptured_throws std_host ex_hooks "boom" 1 0 1 None "render" ex_world
           "hook failed" (with_target None empty_state) eq_refl eq_refl eq_refl).
Defined.

Lemma getData_spec_witness :
  getData std_host ex_hooks (ret (VNum 1)) None (pushTarget (Some 7) ex_world)
  = Done (VNum 1) (pushTarget (Some 7) ex_world)
  /\ exists l w', getData std_host ex_hooks (throw "boom") None ex_world = Done (VRef l) w'
                  /\ console w' = ["boom"] /\ targetStack w' = [].
Proof.
  split.
  - exact (proj1 (getData_spec std_host ex_hooks (ret (VNum 1)) None
                    (pushTarget (Some 7) ex_world))
             (VNum 1) _ eq_refl).
  - eexists _, _. split.
    + exact (proj2 (getData_spec std_host ex_hooks (throw "boom") None ex_world)
               "boom" _ _ eq_refl eq_refl).
    + split; reflexivity.
Defined.

Lemma initInjections_shallow_witness :
  exists st',
    initInjections std_host (ret (VRef 1)) (fun _ => 0) 3 0 ex_inject = Ret tt st'
    /\ next_ob st' = 0 /\ heap st' !! 2 = Some (object [])
    /\ shouldObserve st' = true.
Proof.
  destruct (initInjections std_host (ret (VRef 1)) (fun _ => 0) 3 0 ex_inject)
    as [[] st'|e st'|] eqn:E; [|vm_compute in E; discriminate E..].
  destruct (initInjections_shallow std_host (ret (VRef 1)) (fun _ => 0) 3 0 ex_inject st'
              (VRef 1) ex_inject E eq_refl) as ([Hn Hh] & Hon & _).
  exists st'. split; [reflexivity|]. split; [exact Hn|].
  split; [exact (Hh 2 ltac:(discriminate))|]. by apply Hon.
Defined.

Lemma matches_string_pattern_witness :
  matches (PatString "a,b") "b" = matches (PatArray ["a"; "b"]) "b"
  /\ matches (PatString "") "b" = false.
Proof.
  destruct (matches_string_pattern ["a"; "b"] "b") as (Hs & He & _).
  split.
  - apply Hs; [discriminate|]. by repeat constructor.
  - rewrite He. reflexivity.
Defined.
